(** * PubMed MCP server: utilities and tool handlers

    A shallow embedding of [src/api/utils.ts] (rate limiter, retry policy,
    field extractor, identifier validators, query builder, citation
    formatter) and of the tool handlers of [src/index.ts], with the
    properties the specification states about them.

    Conventions of the embedding.
    - A JavaScript string is a [string] of the Standard Library, read as a
      sequence of ASCII characters (code units below 128).  [toUpperCase],
      [trim] and the classes [\s], [\w] and [\d] act on them as
      ECMAScript does; ECMAScript knows more whitespace and more letters
      beyond ASCII, which the embedding does not cover.
    - A JavaScript number is an integer [Z] of absolute value below
      [10^21], which prints in plain decimal; a string is read as a
      number when it is a plain signed decimal numeral.  [Date.now()] is
      an integer number of milliseconds.
    - An object is the list of its own members in the order
      [Object.values] enumerates them.
    - [undefined] is a value of its own; an optional field is an [option]
      whose [None] is [undefined]. *)

From Stdlib Require Import Bool List ZArith QArith Qround Lia Lqa Ascii String.
From Stdlib Require Import Numbers.DecimalString.
Import ListNotations.

Open Scope string_scope.

Set Warnings "-register-all".

(* ================================================================= *)
(** * Part I: the program *)
(* ================================================================= *)

(** ** JavaScript strings *)

Module JsString.

Definition code (c : ascii) : N := N_of_ascii c.

Definition in_range (lo hi : N) (c : ascii) : bool :=
  ((lo <=? code c) && (code c <=? hi))%N.

(** [\d] *)
Definition is_digit (c : ascii) : bool := in_range 48 57 c.

Definition is_upper (c : ascii) : bool := in_range 65 90 c.
Definition is_lower (c : ascii) : bool := in_range 97 122 c.

(** [\w], that is [[A-Za-z0-9_]] *)
Definition is_word (c : ascii) : bool :=
  is_upper c || is_lower c || is_digit c || (code c =? 95)%N.

(** [\s] and the characters [trim] strips: tab, line feed, vertical tab,
    form feed, carriage return, space. *)
Definition is_space (c : ascii) : bool :=
  in_range 9 13 c || (code c =? 32)%N.

Definition upper_char (c : ascii) : ascii :=
  if is_lower c then ascii_of_N (code c - 32) else c.

Fixpoint map (f : ascii -> ascii) (s : string) : string :=
  match s with
  | EmptyString => EmptyString
  | String c r => String (f c) (map f r)
  end.

Fixpoint all (p : ascii -> bool) (s : string) : bool :=
  match s with
  | EmptyString => true
  | String c r => p c && all p r
  end.

Definition is_empty (s : string) : bool :=
  match s with EmptyString => true | _ => false end.

(** [s.toUpperCase()] *)
Definition toUpperCase (s : string) : string := map upper_char s.

(** [s.trimStart()] *)
Fixpoint trimStart (s : string) : string :=
  match s with
  | EmptyString => EmptyString
  | String c r => if is_space c then trimStart r else s
  end.

(** [s.trimEnd()] *)
Fixpoint trimEnd (s : string) : string :=
  match s with
  | EmptyString => EmptyString
  | String c r =>
      let r' := trimEnd r in
      if is_space c && is_empty r' then EmptyString else String c r'
  end.

(** [s.trim()] *)
Definition trim (s : string) : string := trimEnd (trimStart s).

(** [s.startsWith(p)] *)
Fixpoint startsWith (s p : string) {struct p} : bool :=
  match p with
  | EmptyString => true
  | String a p' =>
      match s with
      | EmptyString => false
      | String b s' => Ascii.eqb a b && startsWith s' p'
      end
  end.

(** [xs.join(sep)] on an array of strings *)
Fixpoint join (sep : string) (xs : list string) : string :=
  match xs with
  | [] => ""
  | [x] => x
  | x :: rest => x ++ sep ++ join sep rest
  end.

(** [s.split(sep)] for a one-character separator: never empty. *)
Fixpoint split (sep : ascii) (s : string) : list string :=
  match s with
  | EmptyString => [""]
  | String c r =>
      if Ascii.eqb c sep then "" :: split sep r
      else match split sep r with
           | [] => [String c ""]
           | x :: xs => String c x :: xs
           end
  end.

(** [s.includes(c)] for a one-character needle *)
Fixpoint includes (c : ascii) (s : string) : bool :=
  match s with
  | EmptyString => false
  | String d r => Ascii.eqb d c || includes c r
  end.

(** [s.replace(/[class]/g, rep)]: every character of the class is
    replaced. *)
Fixpoint replace_each (p : ascii -> bool) (rep : string) (s : string) : string :=
  match s with
  | EmptyString => EmptyString
  | String c r =>
      if p c then rep ++ replace_each p rep r
      else String c (replace_each p rep r)
  end.

(** [s.replace(/[class]+/g, rep)]: every maximal run of characters of the
    class is replaced once.  [in_run] tells that the previous character
    already belonged to the run being replaced. *)
Fixpoint replace_runs_from (in_run : bool) (p : ascii -> bool) (rep : string)
         (s : string) : string :=
  match s with
  | EmptyString => EmptyString
  | String c r =>
      if p c then
        if in_run then replace_runs_from true p rep r
        else rep ++ replace_runs_from true p rep r
      else String c (replace_runs_from false p rep r)
  end.

Definition replace_runs := replace_runs_from false.

(** A string that does not begin with whitespace. *)
Definition no_lead (s : string) : Prop :=
  match s with
  | EmptyString => True
  | String c _ => is_space c = false
  end.

(** [needle] occurs in [hay]. *)
Definition contains (hay needle : string) : Prop :=
  exists pre post, hay = pre ++ needle ++ post.

(** Decimal rendering of an integer, as [String(n)] gives it. *)
Definition of_Z (n : Z) : string := NilZero.string_of_int (Z.to_int n).

End JsString.

(** ** Regular expressions

    The validators are anchored regular expressions, [/^r$/.test(s)].  A
    pattern is matched by taking its derivative along the subject. *)

Module Regex.

Inductive regex : Type :=
| Never : regex
| Empty : regex
| Class : (ascii -> bool) -> regex
| Seq : regex -> regex -> regex
| Or : regex -> regex -> regex
| Star : regex -> regex.

(** [r+] *)
Definition Plus (r : regex) : regex := Seq r (Star r).

(** [r{n,}] *)
Fixpoint AtLeast (n : nat) (r : regex) : regex :=
  match n with
  | O => Star r
  | S k => Seq r (AtLeast k r)
  end.

(** A literal character, and one matched without regard to case (flag [i]). *)
Definition Lit (c : ascii) : regex := Class (Ascii.eqb c).
Definition LitI (c : ascii) : regex :=
  Class (fun d => Ascii.eqb (JsString.upper_char d) (JsString.upper_char c)).

Fixpoint nullable (r : regex) : bool :=
  match r with
  | Never => false
  | Empty => true
  | Class _ => false
  | Seq a b => nullable a && nullable b
  | Or a b => nullable a || nullable b
  | Star _ => true
  end.

Fixpoint deriv (c : ascii) (r : regex) : regex :=
  match r with
  | Never => Never
  | Empty => Never
  | Class p => if p c then Empty else Never
  | Seq a b =>
      if nullable a then Or (Seq (deriv c a) b) (deriv c b)
      else Seq (deriv c a) b
  | Or a b => Or (deriv c a) (deriv c b)
  | Star a => Seq (deriv c a) (Star a)
  end.

(** [/^r$/.test(s)] *)
Fixpoint test (r : regex) (s : string) : bool :=
  match s with
  | EmptyString => nullable r
  | String c s' => test (deriv c r) s'
  end.

(** The language of a pattern. *)
Inductive Lang : regex -> string -> Prop :=
| LEmpty : Lang Empty ""
| LClass p c : p c = true -> Lang (Class p) (String c "")
| LSeq a b s t : Lang a s -> Lang b t -> Lang (Seq a b) (s ++ t)
| LOrL a b s : Lang a s -> Lang (Or a b) s
| LOrR a b s : Lang b s -> Lang (Or a b) s
| LStarNil a : Lang (Star a) ""
| LStarApp a s t : Lang a s -> Lang (Star a) t -> Lang (Star a) (s ++ t).

End Regex.

(** ** Identifier validators and normalizers ([utils.ts]) *)

Import JsString.

(** [/^\d+$/.test(pmid)] *)
Definition isValidPMID (pmid : string) : bool :=
  Regex.test (Regex.Plus (Regex.Class is_digit)) pmid.

(** [/^10\.\d{4,}\/\S+$/.test(doi)] *)
Definition isValidDOI (doi : string) : bool :=
  Regex.test
    (Regex.Seq (Regex.Lit "1")
       (Regex.Seq (Regex.Lit "0")
          (Regex.Seq (Regex.Lit ".")
             (Regex.Seq (Regex.AtLeast 4 (Regex.Class is_digit))
                (Regex.Seq (Regex.Lit "/")
                   (Regex.Plus (Regex.Class (fun c => negb (is_space c)))))))))
    doi.

(** [/^PMC\d+$/i.test(pmcid)] *)
Definition isValidPMCID (pmcid : string) : bool :=
  Regex.test
    (Regex.Seq (Regex.LitI "P")
       (Regex.Seq (Regex.LitI "M")
          (Regex.Seq (Regex.LitI "C") (Regex.Plus (Regex.Class is_digit)))))
    pmcid.

(** [normalizePMCID] *)
Definition normalizePMCID (pmcid : string) : string :=
  let cleaned := toUpperCase (trim pmcid) in
  if startsWith cleaned "PMC" then cleaned
  else "PMC" ++ cleaned.

(** ** JavaScript values

    The values a parsed XML or JSON document is made of.  The members of an
    object are listed in the order [Object.values] enumerates them; a
    property is looked up by its first occurrence. *)

Inductive value : Type :=
| VUndefined : value
| VNull : value
| VBool : bool -> value
| VNum : Z -> value
| VStr : string -> value
| VArr : list value -> value
| VObj : list (string * value) -> value.

(** What a [throw] or a rejected promise carries: an instance of [Error]
    (with its [name] and [message]) or any other value. *)
Inductive thrown : Type :=
| ErrorObj : string -> string -> thrown
| Thrown : value -> thrown.

Definition Error (message : string) : thrown := ErrorObj "Error" message.
Definition TypeError (message : string) : thrown := ErrorObj "TypeError" message.

(** The outcome of evaluating an expression or calling a function. *)
Inductive completion (A : Type) : Type :=
| Normal : A -> completion A
| Abrupt : thrown -> completion A.
Arguments Normal {A} _.
Arguments Abrupt {A} _.

Module Js.

(** [ToBoolean] *)
Definition truthy (v : value) : bool :=
  match v with
  | VUndefined | VNull => false
  | VBool b => b
  | VNum n => negb (n =? 0)%Z
  | VStr s => negb (is_empty s)
  | VArr _ | VObj _ => true
  end.

Fixpoint lookup (k : string) (members : list (string * value)) : option value :=
  match members with
  | [] => None
  | (k', v) :: rest => if String.eqb k' k then Some v else lookup k rest
  end.

Definition values (members : list (string * value)) : list value :=
  List.map snd members.

(** [ToString]; an array renders as its elements joined by commas, where
    [null] and [undefined] elements render as nothing. *)
Fixpoint ToString (v : value) : string :=
  match v with
  | VUndefined => "undefined"
  | VNull => "null"
  | VBool true => "true"
  | VBool false => "false"
  | VNum n => of_Z n
  | VStr s => s
  | VArr items =>
      join ","
        (List.map (fun x => match x with
                            | VUndefined | VNull => ""
                            | _ => ToString x
                            end) items)
  | VObj _ => "[object Object]"
  end.

(** [items.join(sep)] *)
Definition array_join (sep : string) (items : list value) : string :=
  join sep
    (List.map (fun x => match x with
                        | VUndefined | VNull => ""
                        | _ => ToString x
                        end) items).

(** [v?.k] for a key that is neither an index nor [length]: [undefined]
    unless [v] is an object that has the member. *)
Definition opt_member (v : value) (k : string) : value :=
  match v with
  | VObj members =>
      match lookup k members with Some x => x | None => VUndefined end
  | _ => VUndefined
  end.

(** [items.map(f)], where [f] may throw: the first exception ends the
    traversal. *)
Definition map_throwing {A B : Type} (f : A -> completion B)
  : list A -> completion (list B) :=
  fix go (l : list A) : completion (list B) :=
    match l with
    | [] => Normal []
    | x :: rest =>
        match f x with
        | Abrupt e => Abrupt e
        | Normal y =>
            match go rest with
            | Abrupt e => Abrupt e
            | Normal ys => Normal (y :: ys)
            end
        end
    end.

End Js.

(** ** Field extractor ([utils.ts], [extractText])

    The declared result type is [string], but the second branch hands back
    the [_] member whatever it is, so the result is a value. *)

Definition null_to_object : thrown :=
  TypeError "Cannot convert undefined or null to object".

Fixpoint extractText (node : value) : completion value :=
  match node with
  | VStr s => Normal (VStr s)                      (* typeof node === 'string' *)
  | _ =>
      if Js.truthy (Js.opt_member node "_")        (* node?._ *)
      then Normal (Js.opt_member node "_")
      else
        match node with
        | VArr items =>                            (* Array.isArray(node) *)
            match Js.map_throwing extractText items with
            | Abrupt e => Abrupt e
            | Normal texts => Normal (VStr (Js.array_join " " texts))
            end
        | VObj members =>                          (* typeof node === 'object' *)
            (* Object.values(node).map(extractText) *)
            match Js.map_throwing (fun member => extractText (snd member)) members with
            | Abrupt e => Abrupt e
            | Normal texts => Normal (VStr (Js.array_join " " texts))
            end
        | VNull =>                                 (* typeof null === 'object' *)
            Abrupt null_to_object                  (* Object.values(null) *)
        | _ => Normal (VStr "")
        end
  end.

(** ** Search query builder ([utils.ts]) *)

(** The double quote character. *)
Definition dquote : ascii := ascii_of_nat 34.

(** The characters [sanitizeSearchTerm] keeps: the class of [\w], [\s],
    the hyphen, the round and square brackets, the double quote and the
    apostrophe. *)
Definition search_term_char (c : ascii) : bool :=
  is_word c || is_space c
  || Ascii.eqb c "-" || Ascii.eqb c "(" || Ascii.eqb c ")"
  || Ascii.eqb c "[" || Ascii.eqb c "]"
  || Ascii.eqb c dquote || Ascii.eqb c "'".

(** [term.replace(/[^...]/g, ' ').replace(/\s+/g, ' ').trim()], the first
    pattern being the complement of the class above. *)
Definition sanitizeSearchTerm (term : string) : string :=
  trim
    (replace_runs is_space " "
       (replace_each (fun c => negb (search_term_char c)) " " term)).

(** [`${sanitized}[${field}]`] *)
Definition buildFieldQuery (term field : string) : string :=
  sanitizeSearchTerm term ++ "[" ++ field ++ "]".

(** [terms.filter(t => t.trim()).join(` ${operator} `)] *)
Definition combineSearchTerms (terms : list string) (operator : string) : string :=
  join (" " ++ operator ++ " ")
    (List.filter (fun t => negb (is_empty (trim t))) terms).

(** ** Error messages ([utils.ts], [extractErrorMessage]) *)

Definition extractErrorMessage (error : thrown) : string :=
  match error with
  | ErrorObj _ message => message               (* error instanceof Error *)
  | Thrown (VStr s) => s                        (* typeof error === 'string' *)
  | Thrown (VObj members) =>                    (* 'message' in error *)
      match Js.lookup "message" members with
      | Some m => Js.ToString m
      | None => "Unknown error occurred"
      end
  | Thrown _ => "Unknown error occurred"
  end.

(** ** Citation formatter ([utils.ts]) *)

Module Citation.

Record author : Type := {
  lastName : string;
  foreName : option string;
  initials : option string
}.

Record article : Type := {
  authors : list author;
  title : string;
  journal : string;
  publicationDate : string;
  volume : option string;
  issue : option string;
  pages : option string;
  doi : option string
}.

Definition nl : string := String (ascii_of_nat 10) "".
Definition quote : string := String dquote "".

(** [a || b] on optional strings: [a] when it is a non-empty string. *)
Definition or_else (a b : option string) : option string :=
  match a with
  | Some s => if is_empty s then b else a
  | None => b
  end.

(** An optional string inside a template literal. *)
Definition show (a : option string) : string :=
  match a with
  | Some s => s
  | None => "undefined"
  end.

(** [if (x)] on an optional string, giving the string when it holds. *)
Definition present (a : option string) : option string :=
  match a with
  | Some s => if is_empty s then None else Some s
  | None => None
  end.

(** [s?.[0]] *)
Definition first_char (a : option string) : option string :=
  match a with
  | Some (String c _) => Some (String c "")
  | _ => None
  end.

Definition when (a : option string) (f : string -> string) : string :=
  match present a with
  | Some s => f s
  | None => ""
  end.

(** [a.initials || a.foreName?.[0] || ''] *)
Definition apa_initials (a : author) : string :=
  show (or_else (or_else (initials a) (first_char (foreName a))) (Some "")).

(** [a.foreName || a.initials] inside a template literal *)
Definition given (a : author) : string :=
  show (or_else (foreName a) (initials a)).

Fixpoint apa_authors (n : nat) (i : nat) (l : list author) : list string :=
  match l with
  | [] => []
  | a :: rest =>
      (if Nat.eqb i (n - 1) && Nat.ltb 1 n
       then "& " ++ lastName a ++ ", " ++ apa_initials a
       else lastName a ++ ", " ++ apa_initials a)
      :: apa_authors n (S i) rest
  end.

Definition formatAPACitation (art : article) (authors : list author)
           (year : string) : string :=
  let authorStr := join ", " (apa_authors (List.length authors) 0 authors) in
  authorStr ++ ". (" ++ year ++ "). " ++ title art ++ ". " ++ journal art
  ++ when (volume art) (fun v =>
       ", " ++ v ++ when (issue art) (fun i => "(" ++ i ++ ")"))
  ++ when (pages art) (fun p => ", " ++ p)
  ++ when (doi art) (fun d => ". https://doi.org/" ++ d).

Definition formatMLACitation (art : article) (authors : list author)
           (year : string) : string :=
  let authorStr :=
    match authors with
    | a :: _ => lastName a ++ ", " ++ given a
    | [] => "Unknown"
    end in
  authorStr ++ ". " ++ quote ++ title art ++ quote ++ " " ++ journal art
  ++ when (volume art) (fun v =>
       " " ++ v ++ when (issue art) (fun i => "." ++ i))
  ++ " (" ++ year ++ ")"
  ++ when (pages art) (fun p => ": " ++ p)
  ++ ".".

Definition chicago_authors (l : list author) : list string :=
  match l with
  | [] => []
  | a :: rest =>
      (lastName a ++ ", " ++ given a)
      :: List.map (fun b => given b ++ " " ++ lastName b) rest
  end.

Definition formatChicagoCitation (art : article) (authors : list author)
           (year : string) : string :=
  let authorStr := join ", " (chicago_authors authors) in
  authorStr ++ ". " ++ quote ++ title art ++ "." ++ quote ++ " " ++ journal art
  ++ when (volume art) (fun v =>
       " " ++ v ++ when (issue art) (fun i => ", no. " ++ i))
  ++ " (" ++ year ++ ")"
  ++ when (pages art) (fun p => ": " ++ p)
  ++ ".".

Definition formatBibTeXCitation (art : article) (authors : list author)
           (year : string) : string :=
  let authorStr :=
    join " and " (List.map (fun a => lastName a ++ ", " ++ given a) authors) in
  (* authors[0]?.lastName || 'unknown' *)
  let key :=
    show (or_else (option_map lastName (List.hd_error authors)) (Some "unknown"))
    ++ year in
  "@article{" ++ key ++ "," ++ nl
  ++ "  author = {" ++ authorStr ++ "}," ++ nl
  ++ "  title = {" ++ title art ++ "}," ++ nl
  ++ "  journal = {" ++ journal art ++ "}," ++ nl
  ++ "  year = {" ++ year ++ "}," ++ nl
  ++ when (volume art) (fun v => "  volume = {" ++ v ++ "}," ++ nl)
  ++ when (issue art) (fun i => "  number = {" ++ i ++ "}," ++ nl)
  ++ when (pages art) (fun p => "  pages = {" ++ p ++ "}," ++ nl)
  ++ when (doi art) (fun d => "  doi = {" ++ d ++ "}," ++ nl)
  ++ "}".

Definition formatRISCitation (art : article) (authors : list author)
           (year : string) : string :=
  "TY  - JOUR" ++ nl
  ++ String.concat ""
       (List.map (fun a => "AU  - " ++ lastName a ++ ", " ++ given a ++ nl) authors)
  ++ "TI  - " ++ title art ++ nl
  ++ "JO  - " ++ journal art ++ nl
  ++ "PY  - " ++ year ++ nl
  ++ when (volume art) (fun v => "VL  - " ++ v ++ nl)
  ++ when (issue art) (fun i => "IS  - " ++ i ++ nl)
  ++ when (pages art) (fun p => "SP  - " ++ List.hd "" (split "-" p) ++ nl)
  ++ when (pages art) (fun p =>
       if includes "-" p
       then "EP  - " ++ List.nth 1 (split "-" p) "" ++ nl
       else "")
  ++ when (doi art) (fun d => "DO  - " ++ d ++ nl)
  ++ "ER  - " ++ nl.

(** [formatCitation]; the style is whatever string the caller passes, an
    unknown one falling back to APA. *)
Definition formatCitation (art : article) (style : string) : string :=
  let year := List.hd "" (split "-" (publicationDate art)) in
  let authorList := List.firstn 20 (authors art) in
  if String.eqb style "apa" then formatAPACitation art authorList year
  else if String.eqb style "mla" then formatMLACitation art authorList year
  else if String.eqb style "chicago" then formatChicagoCitation art authorList year
  else if String.eqb style "bibtex" then formatBibTeXCitation art authorList year
  else if String.eqb style "ris" then formatRISCitation art authorList year
  else formatAPACitation art authorList year.

End Citation.

(** ** Retry policy ([utils.ts], [retryWithBackoff])

    The wrapped operation is a closure over some world [W]: every call may
    read and change it.  The trace records, in order, each call of the
    operation and each [setTimeout] delay awaited between calls. *)

Module Retry.

Inductive event : Type :=
| Invoked : event
| Waited : Z -> event.

(** [error instanceof Error ? error : new Error(String(error))] *)
Definition as_error (error : thrown) : thrown :=
  match error with
  | ErrorObj _ _ => error
  | Thrown v => Error (Js.ToString v)
  end.

Section Loop.
Context {T W : Type}.
Variable fn : W -> completion T * W.
Variable maxRetries : nat.
Variable baseDelay : Z.

(** The [for] loop from index [i] on, [remaining] being
    [maxRetries - i]; with nothing remaining the loop is left and
    [lastError || new Error('Max retries exceeded')] is thrown. *)
Fixpoint attempts (remaining i : nat) (lastError : option thrown)
         (w : W) (trace : list event) : completion T * W * list event :=
  match remaining with
  | O =>
      (Abrupt (match lastError with
               | Some e => e
               | None => Error "Max retries exceeded"
               end), w, trace)
  | S remaining' =>
      match fn w with
      | (Normal result, w') => (Normal result, w', trace ++ [Invoked])%list
      | (Abrupt error, w') =>
          let lastError := as_error error in
          let trace' :=
            if (Z.of_nat i <? Z.of_nat maxRetries - 1)%Z
            then (trace ++ [Invoked; Waited (baseDelay * 2 ^ Z.of_nat i)%Z])%list
            else (trace ++ [Invoked])%list in
          attempts remaining' (S i) (Some lastError) w' trace'
      end
  end.
End Loop.

(** [retryWithBackoff(fn, maxRetries = 3, baseDelay = 1000)] *)
Definition retryWithBackoff {T W : Type} (fn : W -> completion T * W)
           (maxRetries : option nat) (baseDelay : option Z) (w : W)
  : completion T * W * list event :=
  let maxRetries := match maxRetries with Some n => n | None => 3%nat end in
  let baseDelay := match baseDelay with Some d => d | None => 1000%Z end in
  attempts fn maxRetries baseDelay maxRetries 0 None w [].

End Retry.

(** ** Rate limiter ([utils.ts], [RateLimiter])

    The limiter is driven by its callers and by the event loop.  A run is a
    sequence of events, each carrying the readings [Date.now()] returns
    while the event is handled: a caller running [execute], the timer of
    [sleep] firing, the dispatched task settling.  Between events the
    drain loop is suspended at one of its two [await]s, or not running. *)

Module RateLimiter.

(** A queued closure, named by the caller. *)
Definition task : Type := nat.

(** A number of milliseconds as the limiter computes it: a quotient, or
    [Infinity], which is what [1000 / 0] evaluates to. *)
Inductive millis : Type :=
| Finite : Q -> millis
| Infinity : millis.

(** The fields of the class. *)
Record limiter : Type := {
  queue : list task;
  processing : bool;
  lastRequestTime : Z;
  requestInterval : millis
}.

(** Where [processQueue] is suspended: not running, inside
    [await this.sleep(ms)] entered at [since], or inside [await task()]. *)
Inductive drain : Type :=
| Idle : drain
| Sleeping : Z -> millis -> drain
| Running : task -> drain.

(** The limiter with the suspended loop, the clock, and the record of
    what was submitted and of what began executing and when. *)
Record system : Type := {
  gate : limiter;
  loop : drain;
  clock : Z;
  submitted : list task;
  started : list (task * Z)
}.

(** [1000 / requestsPerSecond] *)
Definition interval_of (requestsPerSecond : Q) : millis :=
  if Qeq_bool requestsPerSecond 0 then Infinity
  else Finite (1000 / requestsPerSecond).

(** [constructor(requestsPerSecond)] *)
Definition create (requestsPerSecond : Q) : limiter :=
  {| queue := [];
     processing := false;
     lastRequestTime := 0;
     requestInterval := interval_of requestsPerSecond |}.

Definition init (requestsPerSecond : Q) (now : Z) : system :=
  {| gate := create requestsPerSecond;
     loop := Idle;
     clock := now;
     submitted := [];
     started := [] |}.

Definition Qltb (a b : Q) : bool := negb (Qle_bool b a).

(** [timeSinceLastRequest < this.requestInterval] *)
Definition before (timeSinceLastRequest : Z) (interval : millis) : bool :=
  match interval with
  | Finite q => Qltb (inject_Z timeSinceLastRequest) q
  | Infinity => true
  end.

(** [this.requestInterval - timeSinceLastRequest] *)
Definition remaining (interval : millis) (timeSinceLastRequest : Z) : millis :=
  match interval with
  | Finite q => Finite (q - inject_Z timeSinceLastRequest)
  | Infinity => Infinity
  end.

(** The longest delay a timer of the runtime takes: [2^31 - 1]. *)
Definition TIMEOUT_MAX : Z := 2147483647.

(** The timer of [sleep(ms)] takes whole milliseconds: it is taken to
    fire no earlier than [ms] rounded down after it was set, by the clock
    the limiter reads.  A delay beyond [TIMEOUT_MAX], [Infinity]
    included, is not honoured by the runtime (it is replaced by a short
    one): nothing is assumed of such a timer. *)
Definition earliest (ms : millis) : Z :=
  match ms with
  | Finite q => if (Qfloor q <=? TIMEOUT_MAX)%Z then Z.max 0 (Qfloor q) else 0%Z
  | Infinity => 0%Z
  end.

(** The loop after the optional sleep: [this.queue.shift()], then the
    task is started at the reading [now]; were the queue empty,
    [processQueue] would run again at once and stop. *)
Definition resume (now : Z) (s : system) : system :=
  let g := gate s in
  match queue g with
  | [] =>
      {| gate := {| queue := []; processing := false;
                    lastRequestTime := lastRequestTime g;
                    requestInterval := requestInterval g |};
         loop := Idle; clock := now;
         submitted := submitted s; started := started s |}
  | t :: rest =>
      {| gate := {| queue := rest; processing := processing g;
                    lastRequestTime := now;
                    requestInterval := requestInterval g |};
         loop := Running t; clock := now;
         submitted := submitted s; started := (started s ++ [(t, now)])%list |}
  end.

(** [processQueue()] up to its first [await]; [now] and [now'] are the
    two readings of the clock. *)
Definition processQueue (now now' : Z) (s : system) : system :=
  let g := gate s in
  match queue g with
  | [] =>
      {| gate := {| queue := []; processing := false;
                    lastRequestTime := lastRequestTime g;
                    requestInterval := requestInterval g |};
         loop := Idle; clock := now;
         submitted := submitted s; started := started s |}
  | _ :: _ =>
      let g' := {| queue := queue g; processing := true;
                   lastRequestTime := lastRequestTime g;
                   requestInterval := requestInterval g |} in
      let timeSinceLastRequest := (now - lastRequestTime g)%Z in
      if before timeSinceLastRequest (requestInterval g)
      then
        {| gate := g';
           loop := Sleeping now (remaining (requestInterval g) timeSinceLastRequest);
           clock := now;
           submitted := submitted s; started := started s |}
      else
        resume now' {| gate := g'; loop := loop s; clock := now;
                       submitted := submitted s; started := started s |}
  end.

(** [execute(fn)]: the closure is pushed, and the loop is started unless
    it is running. *)
Definition execute (t : task) (now now' : Z) (s : system) : system :=
  let g := gate s in
  let s' := {| gate := {| queue := (queue g ++ [t])%list; processing := processing g;
                          lastRequestTime := lastRequestTime g;
                          requestInterval := requestInterval g |};
               loop := loop s; clock := now;
               submitted := (submitted s ++ [t])%list; started := started s |} in
  if processing g then s' else processQueue now now' s'.

Inductive event : Type :=
| Execute : task -> Z -> Z -> event
| TimerFired : Z -> event
| TaskSettled : Z -> Z -> event.

(** One event; [None] when the event cannot happen in this state: the
    clock never runs backwards, a timer does not fire before the
    earliest moment its delay allows, and only a running task settles. *)
Definition step (ev : event) (s : system) : option system :=
  match ev with
  | Execute t now now' =>
      if ((clock s <=? now) && (now <=? now'))%Z
      then Some (execute t now now' s) else None
  | TimerFired now =>
      match loop s with
      | Sleeping since ms =>
          if ((clock s <=? now) && (since + earliest ms <=? now))%Z
          then Some (resume now s) else None
      | _ => None
      end
  | TaskSettled now now' =>
      match loop s with
      | Running _ =>
          if ((clock s <=? now) && (now <=? now'))%Z
          then Some (processQueue now now' s) else None
      | _ => None
      end
  end.

Fixpoint run (evs : list event) (s : system) : option system :=
  match evs with
  | [] => Some s
  | ev :: rest =>
      match step ev s with
      | Some s' => run rest s'
      | None => None
      end
  end.




(** What has started, then the queue, is what was submitted. *)
Definition fifo (s : system) : Prop :=
  (List.map fst (started s) ++ queue (gate s))%list = submitted s.


End RateLimiter.

(** ** More of JavaScript's value semantics, as the handlers use it

    Properties are own properties; numeric strings are decimal integers. *)

Module JsOps.

Fixpoint nth_by_key (k : string) (i : Z) (items : list value) : value :=
  match items with
  | [] => VUndefined
  | x :: rest => if String.eqb k (of_Z i) then x else nth_by_key k (i + 1)%Z rest
  end.

Fixpoint chars (s : string) : list value :=
  match s with
  | EmptyString => []
  | String c r => VStr (String c "") :: chars r
  end.

(** [v[k]] for a [v] that is neither [null] nor [undefined] *)
Definition member (v : value) (k : string) : value :=
  match v with
  | VObj members =>
      match Js.lookup k members with Some x => x | None => VUndefined end
  | VArr items =>
      if String.eqb k "length" then VNum (Z.of_nat (List.length items))
      else nth_by_key k 0 items
  | VStr s =>
      if String.eqb k "length" then VNum (Z.of_nat (String.length s))
      else nth_by_key k 0 (chars s)
  | _ => VUndefined
  end.

Definition is_nullish (v : value) : bool :=
  match v with VUndefined | VNull => true | _ => false end.

Definition is_undefined (v : value) : bool :=
  match v with VUndefined => true | _ => false end.

Definition cannot_read (v : value) (k : string) : thrown :=
  TypeError ("Cannot read properties of " ++ Js.ToString v
             ++ " (reading '" ++ k ++ "')").

(** [v.k] *)
Definition get (v : value) (k : string) : completion value :=
  if is_nullish v then Abrupt (cannot_read v k) else Normal (member v k).

(** [v?.k] *)
Definition opt_get (v : value) (k : string) : value :=
  if is_nullish v then VUndefined else member v k.

(** [a || b] *)
Definition or (a b : value) : value := if Js.truthy a then a else b.

(** A destructuring default: [{ k = d }]. *)
Definition default (v d : value) : value :=
  match v with VUndefined => d | _ => v end.

Fixpoint digits_value (acc : Z) (s : string) : Z :=
  match s with
  | EmptyString => acc
  | String c r => digits_value (10 * acc + (Z.of_N (code c) - 48))%Z r
  end.

Definition parse_digits (s : string) : option Z :=
  if negb (is_empty s) && all is_digit s then Some (digits_value 0 s) else None.

(** [ToNumber] on a string; [None] is [NaN]. *)
Definition string_to_number (s : string) : option Z :=
  match trim s with
  | EmptyString => Some 0%Z
  | String "-" r => option_map Z.opp (parse_digits r)
  | String "+" r => parse_digits r
  | t => parse_digits t
  end.

(** [ToNumber]; [None] is [NaN]. *)
Definition ToNumber (v : value) : option Z :=
  match v with
  | VUndefined => None
  | VNull => Some 0%Z
  | VBool b => Some (if b then 1 else 0)%Z
  | VNum n => Some n
  | VStr s => string_to_number s
  | VArr _ => string_to_number (Js.ToString v)
  | VObj _ => None
  end.

(** [v > 0] *)
Definition positive (v : value) : bool :=
  match ToNumber v with
  | Some n => (0 <? n)%Z
  | None => false
  end.

(** [items.slice(0, e)] *)
Definition slice0 {A : Type} (items : list A) (e : value) : list A :=
  match e with
  | VUndefined => items
  | _ =>
      let len := Z.of_nat (List.length items) in
      let rel := match ToNumber e with Some n => n | None => 0%Z end in
      let final := if (rel <? 0)%Z then Z.max (len + rel) 0 else Z.min rel len in
      List.firstn (Z.to_nat final) items
  end.

(** [v === 'literal'] *)
Definition is_string (v : value) (s : string) : bool :=
  match v with VStr t => String.eqb t s | _ => false end.

End JsOps.

(** [chunkArray(array, size)] for a positive [size]; the loop runs at
    most once per element. *)
Fixpoint chunks_from {A : Type} (fuel size : nat) (array : list A) : list (list A) :=
  match fuel with
  | O => []
  | S fuel' =>
      match array with
      | [] => []
      | _ :: _ =>
          List.firstn size array :: chunks_from fuel' size (List.skipn size array)
      end
  end.

Definition chunkArray {A : Type} (array : list A) (size : nat) : list (list A) :=
  chunks_from (List.length array) size array.

(** ** Tool handlers ([index.ts])

    A handler runs against the two API clients.  A client method is the
    boundary of the model: everything behind it (rate limiter, retries,
    HTTP, parsing) is a transition of the remote world [W] that ends
    normally with a result of the declared type or abruptly.  Every call
    of a client method is recorded with its outcome, so that a handler
    that records nothing has reached neither a rate limiter nor the
    network. *)

Module Server.

(** [Author] and [PubMedArticle] of [types.ts], with the fields
    [parseArticle] fills in. *)
Record Author : Type := {
  lastName : string;
  foreName : option string;
  initials : option string;
  affiliation : option string;
  collectiveName : option string
}.

Record PubMedArticle : Type := {
  pmid : string;
  title : string;
  abstract : option string;
  authors : list Author;
  journal : string;
  publicationDate : string;
  doi : option string;
  pmcid : option string;
  articleIds : value;
  meshTerms : value;
  publicationTypes : value;
  keywords : value;
  volume : option string;
  issue : option string;
  pages : option string;
  language : option string;
  grantList : value
}.

(** [SearchResult] of [types.ts]. *)
Record SearchResult : Type := {
  count : value;
  retmax : value;
  retstart : value;
  pmids : list string;
  translationSet : value;
  queryTranslation : value
}.

Definition opt_str (o : option string) : value :=
  match o with Some s => VStr s | None => VUndefined end.

Definition author_value (a : Author) : value :=
  VObj [("lastName", VStr (lastName a)); ("foreName", opt_str (foreName a));
        ("initials", opt_str (initials a));
        ("affiliation", opt_str (affiliation a));
        ("collectiveName", opt_str (collectiveName a))].

(** The article as the object a handler serializes. *)
Definition article_value (a : PubMedArticle) : value :=
  VObj [("pmid", VStr (pmid a)); ("title", VStr (title a));
        ("abstract", opt_str (abstract a));
        ("authors", VArr (List.map author_value (authors a)));
        ("journal", VStr (journal a));
        ("publicationDate", VStr (publicationDate a));
        ("doi", opt_str (doi a)); ("pmcid", opt_str (pmcid a));
        ("articleIds", articleIds a); ("meshTerms", meshTerms a);
        ("publicationTypes", publicationTypes a); ("keywords", keywords a);
        ("volume", opt_str (volume a)); ("issue", opt_str (issue a));
        ("pages", opt_str (pages a)); ("language", opt_str (language a));
        ("grantList", grantList a)].

(** The article as [formatCitation] reads it. *)
Definition citation_article (a : PubMedArticle) : Citation.article :=
  {| Citation.authors :=
       List.map (fun x => {| Citation.lastName := lastName x;
                             Citation.foreName := foreName x;
                             Citation.initials := initials x |}) (authors a);
     Citation.title := title a;
     Citation.journal := journal a;
     Citation.publicationDate := publicationDate a;
     Citation.volume := volume a;
     Citation.issue := issue a;
     Citation.pages := pages a;
     Citation.doi := doi a |}.

Definition strings (l : list string) : value := VArr (List.map VStr l).

(** A call of a client method: its name and its arguments. *)
Inductive request : Type :=
| Request : string -> list value -> request.

(** The content block and the result of a tool call. *)
Record content_block : Type := { type : string; text : string }.
Record tool_result : Type := { content : list content_block }.

Section Handlers.

(** The remote world and what the runtime provides. *)
Variable W : Type.
(** [JSON.stringify(payload, null, 2)] *)
Variable JSON_stringify : value -> string.
(** [formatDateForAPI] of today moved back by [days] days, and of
    today; both read the system clock. *)
Variable trending_window : W -> value -> string * string.

(** The two clients, [api/eutils.ts] and [api/pmc.ts]. *)
Record EUtilsClient : Type := {
  search : value -> W -> completion SearchResult * W;
  summary : value -> W -> completion value * W;
  getArticleDetails : value -> W -> completion PubMedArticle * W;
  getArticlesBatch : list value -> W -> completion (list PubMedArticle) * W;
  getCitedBy : value -> W -> completion (list string) * W;
  getReferences : value -> W -> completion (list string) * W;
  getSimilarArticles : value -> value -> W -> completion (list string) * W
}.

Record PMCClient : Type := {
  getFullText : value -> W -> completion value * W
}.

Variable eutilsClient : EUtilsClient.
Variable pmcClient : PMCClient.

(** What a handler runs in: the remote world and the record of the
    client calls made so far, each with the error it ended with. *)
Record session : Type := {
  remote : W;
  requests : list (request * option thrown)
}.

Definition M (A : Type) : Type := session -> completion A * session.

Definition ret {A : Type} (a : A) : M A := fun st => (Normal a, st).

Definition throw {A : Type} (e : thrown) : M A := fun st => (Abrupt e, st).

Definition bind {A B : Type} (m : M A) (k : A -> M B) : M B :=
  fun st =>
    match m st with
    | (Normal a, st') => k a st'
    | (Abrupt e, st') => (Abrupt e, st')
    end.

(** [try { m } catch (error) { handler }] *)
Definition try_catch {A : Type} (m : M A) (handler : thrown -> M A) : M A :=
  fun st =>
    match m st with
    | (Normal a, st') => (Normal a, st')
    | (Abrupt e, st') => handler e st'
    end.

(** An expression that may throw. *)
Definition lift {A : Type} (c : completion A) : M A := fun st => (c, st).

Definition failure {A : Type} (c : completion A) : option thrown :=
  match c with Normal _ => None | Abrupt e => Some e end.

(** [await client.method(args)] *)
Definition await {R : Type} (req : request)
           (method : W -> completion R * W) : M R :=
  fun st =>
    let (r, w') := method (remote st) in
    (r, {| remote := w'; requests := (requests st ++ [(req, failure r)])%list |}).

Notation "x <- m ;; k" := (bind m (fun x => k))
  (at level 61, m at next level, right associativity).
Notation "m ;;; k" := (bind m (fun _ => k))
  (at level 61, right associativity).

Definition text_result (payload : value) : tool_result :=
  {| content := [{| type := "text"; text := JSON_stringify payload |}] |}.

(** [const { ... } = args] needs an [args] that is neither [null] nor
    [undefined]: otherwise a [TypeError] is raised.  The wording of its
    message is the runtime's own and names the first property; the text
    below stands for it. *)
Definition destructure (args : value) : M unit :=
  if JsOps.is_nullish args
  then throw (TypeError ("Cannot destructure '" ++ Js.ToString args
                         ++ "' as it is " ++ Js.ToString args ++ "."))
  else ret tt.

Definition arg (args : value) (k : string) : value := JsOps.member args k.
Definition arg_or (args : value) (k : string) (d : value) : value :=
  JsOps.default (JsOps.member args k) d.

(** [buildFieldQuery(term, field)] on an argument of any type: only a
    string has [replace]. *)
Definition field_query (term : value) (field : string) : completion string :=
  match term with
  | VStr s => Normal (buildFieldQuery s field)
  | VUndefined | VNull => Abrupt (JsOps.cannot_read term "replace")
  | _ => Abrupt (TypeError "term.replace is not a function")
  end.

(** [terms.map(term => buildFieldQuery(term, field))] *)
Definition field_queries (terms : value) (name field : string)
  : completion (list string) :=
  match terms with
  | VArr items => Js.map_throwing (fun term => field_query term field) items
  | VUndefined | VNull => Abrupt (JsOps.cannot_read terms "map")
  | _ => Abrupt (TypeError (name ++ ".map is not a function"))
  end.

(** *** Search and discovery *)

Definition eutils_search (params : value) : M SearchResult :=
  await (Request "eutilsClient.search" [params]) (search eutilsClient params).

(** One entry of [articles] in [handleSearchArticles]. *)
Definition summary_entry (result : value) (pmid : string) : completion value :=
  let summary := JsOps.member result pmid in
  let authors := JsOps.opt_get summary "authors" in
  match
    (if JsOps.is_nullish authors then Normal VUndefined
     else match authors with
          | VArr items =>
              match Js.map_throwing (fun a => JsOps.get a "name") items with
              | Normal names => Normal (VStr (Js.array_join ", " names))
              | Abrupt e => Abrupt e
              end
          | _ => Abrupt (TypeError "summary?.authors?.map is not a function")
          end)
  with
  | Abrupt e => Abrupt e
  | Normal names =>
      Normal (VObj [("pmid", VStr pmid);
                    ("title", JsOps.or (JsOps.opt_get summary "title") (VStr ""));
                    ("authors", JsOps.or names (VStr ""));
                    ("journal", JsOps.or (JsOps.opt_get summary "source") (VStr ""));
                    ("publicationDate",
                     JsOps.or (JsOps.opt_get summary "pubdate") (VStr ""));
                    ("doi", JsOps.or (JsOps.opt_get summary "elocationid") (VStr ""))])
  end.

Definition handleSearchArticles (args : value) : M tool_result :=
  destructure args ;;;
  let query := arg args "query" in
  let max_results := arg_or args "max_results" (VNum 20) in
  let start := arg_or args "start" (VNum 0) in
  let sort := arg args "sort" in
  let date_from := arg args "date_from" in
  let date_to := arg args "date_to" in
  searchResult <- eutils_search
    (VObj [("term", query); ("retmax", max_results); ("retstart", start);
           ("sort", if JsOps.is_string sort "pub_date" then VStr "pub+date" else sort);
           ("mindate", date_from); ("maxdate", date_to)]) ;;
  articles <-
    match pmids searchResult with
    | [] => ret []
    | _ :: _ =>
        summaries <- await
          (Request "eutilsClient.summary"
             [VObj [("db", VStr "pubmed");
                    ("id", strings (List.firstn 20 (pmids searchResult)))]])
          (summary eutilsClient
             (VObj [("db", VStr "pubmed");
                    ("id", strings (List.firstn 20 (pmids searchResult)))])) ;;
        result <- lift (JsOps.get summaries "result") ;;
        if Js.truthy result
        then lift (Js.map_throwing (summary_entry result)
                     (List.firstn 20 (pmids searchResult)))
        else ret []
    end ;;
  ret (text_result
         (VObj [("totalResults", count searchResult);
                ("returnedResults", VNum (Z.of_nat (List.length (pmids searchResult))));
                ("start", retstart searchResult);
                ("pmids", strings (pmids searchResult));
                ("articles", VArr articles);
                ("queryTranslation", queryTranslation searchResult)])).

(** [if (v) queryParts.push(buildFieldQuery(v, field))] *)
Definition push_field (v : value) (field : string) (queryParts : list string)
  : M (list string) :=
  if Js.truthy v
  then q <- lift (field_query v field) ;; ret (queryParts ++ [q])%list
  else ret queryParts.

(** [if (v && v.length > 0) queryParts.push(`(${v.map(...).join(' OR ')})`)] *)
Definition push_group (v : value) (name field : string) (queryParts : list string)
  : M (list string) :=
  if Js.truthy v && JsOps.positive (JsOps.member v "length")
  then qs <- lift (field_queries v name field) ;;
       ret (queryParts ++ [("(" ++ join " OR " qs ++ ")")%string])%list
  else ret queryParts.

Definition handleAdvancedSearch (args : value) : M tool_result :=
  destructure args ;;;
  let boolean_operator := arg_or args "boolean_operator" (VStr "AND") in
  let max_results := arg_or args "max_results" (VNum 20) in
  queryParts <- push_field (arg args "title") "Title" [] ;;
  queryParts <- push_field (arg args "abstract") "Abstract" queryParts ;;
  queryParts <- push_field (arg args "author") "Author" queryParts ;;
  queryParts <- push_field (arg args "journal") "Journal" queryParts ;;
  queryParts <- push_group (arg args "mesh_terms") "mesh_terms" "MeSH Terms"
                  queryParts ;;
  queryParts <- push_group (arg args "publication_types") "publication_types"
                  "Publication Type" queryParts ;;
  match queryParts with
  | [] => throw (Error "At least one search field must be provided")
  | _ :: _ =>
      let finalQuery :=
        combineSearchTerms queryParts (Js.ToString boolean_operator) in
      searchResult <- eutils_search
        (VObj [("term", VStr finalQuery); ("retmax", max_results)]) ;;
      ret (text_result
             (VObj [("query", VStr finalQuery);
                    ("totalResults", count searchResult);
                    ("pmids", strings (pmids searchResult))]))
  end.

Definition handleSearchByAuthor (args : value) : M tool_result :=
  destructure args ;;;
  let author_name := arg args "author_name" in
  let affiliation := arg args "affiliation" in
  let max_results := arg_or args "max_results" (VNum 50) in
  query <- lift (field_query author_name "Author") ;;
  query <- (if Js.truthy affiliation
            then q <- lift (field_query affiliation "Affiliation") ;;
                 ret (query ++ " AND " ++ q)
            else ret query) ;;
  searchResult <- eutils_search
    (VObj [("term", VStr query); ("retmax", max_results);
           ("sort", VStr "pub+date")]) ;;
  ret (text_result
         (VObj [("author", author_name); ("affiliation", affiliation);
                ("totalResults", count searchResult);
                ("pmids", strings (pmids searchResult))])).

Definition handleSearchByJournal (args : value) : M tool_result :=
  destructure args ;;;
  let journal_name := arg args "journal_name" in
  let keywords := arg args "keywords" in
  let date_from := arg args "date_from" in
  let date_to := arg args "date_to" in
  let max_results := arg_or args "max_results" (VNum 50) in
  query <- lift (field_query journal_name "Journal") ;;
  let query :=
    if Js.truthy keywords then query ++ " AND " ++ Js.ToString keywords
    else query in
  searchResult <- eutils_search
    (VObj [("term", VStr query); ("retmax", max_results);
           ("mindate", date_from); ("maxdate", date_to);
           ("sort", VStr "pub+date")]) ;;
  ret (text_result
         (VObj [("journal", journal_name); ("keywords", keywords);
                ("dateRange", VObj [("from", date_from); ("to", date_to)]);
                ("totalResults", count searchResult);
                ("pmids", strings (pmids searchResult))])).

Definition handleSearchByMeshTerms (args : value) : M tool_result :=
  destructure args ;;;
  let mesh_terms := arg args "mesh_terms" in
  let major_topic_only := arg_or args "major_topic_only" (VBool false) in
  let max_results := arg_or args "max_results" (VNum 50) in
  meshQueries <- lift
    (field_queries mesh_terms "mesh_terms"
       (if Js.truthy major_topic_only then "MeSH Major Topic" else "MeSH Terms")) ;;
  let query := combineSearchTerms meshQueries "AND" in
  searchResult <- eutils_search
    (VObj [("term", VStr query); ("retmax", max_results)]) ;;
  ret (text_result
         (VObj [("meshTerms", mesh_terms); ("majorTopicOnly", major_topic_only);
                ("totalResults", count searchResult);
                ("pmids", strings (pmids searchResult))])).

Definition handleGetTrendingArticles (args : value) : M tool_result :=
  destructure args ;;;
  let field := arg args "field" in
  let days := arg_or args "days" (VNum 30) in
  let max_results := arg_or args "max_results" (VNum 20) in
  window <- (fun st => (Normal (trending_window (remote st) days), st)) ;;
  searchResult <- eutils_search
    (VObj [("term", field); ("retmax", max_results);
           ("mindate", VStr (fst window)); ("maxdate", VStr (snd window));
           ("sort", VStr "pub+date")]) ;;
  ret (text_result
         (VObj [("field", field); ("days", days);
                ("dateRange", VObj [("from", VStr (fst window));
                                    ("to", VStr (snd window))]);
                ("totalResults", count searchResult);
                ("pmids", strings (pmids searchResult))])).

(** *** Article retrieval *)

Definition invalid_pmid (pmid : value) : thrown :=
  Error ("Invalid PMID format: " ++ Js.ToString pmid).

(** [if (!isValidPMID(pmid)) throw new Error(...)]; the pattern is
    tested against the argument converted to a string. *)
Definition require_pmid (pmid : value) : M unit :=
  if negb (isValidPMID (Js.ToString pmid)) then throw (invalid_pmid pmid)
  else ret tt.

Definition article_details (pmid : value) : M PubMedArticle :=
  await (Request "eutilsClient.getArticleDetails" [pmid])
        (getArticleDetails eutilsClient pmid).

Definition handleGetArticleDetails (args : value) : M tool_result :=
  destructure args ;;;
  let pmid := arg args "pmid" in
  require_pmid pmid ;;;
  article <- article_details pmid ;;
  ret (text_result (article_value article)).

Definition handleGetAbstract (args : value) : M tool_result :=
  destructure args ;;;
  let pmid := arg args "pmid" in
  require_pmid pmid ;;;
  article <- article_details pmid ;;
  ret (text_result
         (VObj [("pmid", VStr (Server.pmid article));
                ("title", VStr (title article));
                ("abstract",
                 JsOps.or (opt_str (abstract article)) (VStr "No abstract available"));
                ("authors", VArr (List.map author_value (authors article)));
                ("journal", VStr (journal article));
                ("publicationDate", VStr (publicationDate article))])).

Definition handleGetFullText (args : value) : M tool_result :=
  destructure args ;;;
  let pmcid := arg args "pmcid" in
  (if negb (isValidPMCID (Js.ToString pmcid))
   then throw (Error ("Invalid PMC ID format: " ++ Js.ToString pmcid))
   else ret tt) ;;;
  fullText <- await (Request "pmcClient.getFullText" [pmcid])
                    (getFullText pmcClient pmcid) ;;
  ret (text_result fullText).

(** The chunks are fetched in order, the articles accumulated. *)
Fixpoint fetch_chunks (chunks : list (list value))
         (allArticles : list PubMedArticle) : M (list PubMedArticle) :=
  match chunks with
  | [] => ret allArticles
  | chunk :: rest =>
      articles <- await (Request "eutilsClient.getArticlesBatch" [VArr chunk])
                        (getArticlesBatch eutilsClient chunk) ;;
      fetch_chunks rest (allArticles ++ articles)%list
  end.

(** The first element of the batch that is no PMID. *)
Definition first_invalid (pmids : list value) : option value :=
  List.find (fun pmid => negb (isValidPMID (Js.ToString pmid))) pmids.

Definition handleBatchArticleLookup (args : value) : M tool_result :=
  destructure args ;;;
  match arg args "pmids" with
  | VArr pmids =>
      match pmids with
      | [] => throw (Error "pmids must be a non-empty array")
      | _ :: _ =>
          if (200 <? List.length pmids)%nat
          then throw (Error "Maximum 200 PMIDs allowed per batch")
          else
            match first_invalid pmids with
            | Some pmid => throw (invalid_pmid pmid)
            | None =>
                allArticles <- fetch_chunks (chunkArray pmids 50) [] ;;
                ret (text_result
                       (VObj [("totalRequested",
                               VNum (Z.of_nat (List.length pmids)));
                              ("totalRetrieved",
                               VNum (Z.of_nat (List.length allArticles)));
                              ("articles",
                               VArr (List.map article_value allArticles))]))
            end
      end
  | _ => throw (Error "pmids must be a non-empty array")
  end.

(** *** Citations and references *)

Definition handleGetCitedBy (args : value) : M tool_result :=
  destructure args ;;;
  let pmid := arg args "pmid" in
  let max_results := arg_or args "max_results" (VNum 100) in
  require_pmid pmid ;;;
  citedByPmids <- await (Request "eutilsClient.getCitedBy" [pmid])
                        (getCitedBy eutilsClient pmid) ;;
  ret (text_result
         (VObj [("pmid", pmid);
                ("citationCount", VNum (Z.of_nat (List.length citedByPmids)));
                ("citedBy", strings (JsOps.slice0 citedByPmids max_results))])).

Definition handleGetReferences (args : value) : M tool_result :=
  destructure args ;;;
  let pmid := arg args "pmid" in
  let max_results := arg_or args "max_results" (VNum 100) in
  require_pmid pmid ;;;
  referencePmids <- await (Request "eutilsClient.getReferences" [pmid])
                          (getReferences eutilsClient pmid) ;;
  ret (text_result
         (VObj [("pmid", pmid);
                ("referenceCount", VNum (Z.of_nat (List.length referencePmids)));
                ("references", strings (JsOps.slice0 referencePmids max_results))])).

Definition handleGetSimilarArticles (args : value) : M tool_result :=
  destructure args ;;;
  let pmid := arg args "pmid" in
  let max_results := arg_or args "max_results" (VNum 20) in
  require_pmid pmid ;;;
  similarPmids <- await
    (Request "eutilsClient.getSimilarArticles" [pmid; max_results])
    (getSimilarArticles eutilsClient pmid max_results) ;;
  ret (text_result
         (VObj [("pmid", pmid); ("similarArticles", strings similarPmids)])).

(** The [switch] of [formatCitation] compares the style with string
    literals: a [format] that is no string takes the default branch,
    like an unknown string. *)
Definition citation_style (format : value) : string :=
  match format with VStr s => s | _ => "" end.

Definition handleExportCitation (args : value) : M tool_result :=
  destructure args ;;;
  let pmid := arg args "pmid" in
  let format := arg_or args "format" (VStr "apa") in
  require_pmid pmid ;;;
  article <- article_details pmid ;;
  let citation :=
    Citation.formatCitation (citation_article article) (citation_style format) in
  ret (text_result
         (VObj [("pmid", pmid); ("format", format); ("citation", VStr citation)])).

(** *** Utilities *)

(** The three answers of [handleValidatePMID]. *)
Definition pmid_malformed (pmid : value) : tool_result :=
text_result
  (VObj [("valid", VBool false); ("pmid", pmid);
         ("message", VStr "Invalid PMID format. PMID must contain only digits.")]).

Definition pmid_exists (pmid : value) : tool_result :=
text_result
  (VObj [("valid", VBool true); ("pmid", pmid); ("exists", VBool true);
         ("message", VStr "Valid PMID and article exists")]).

Definition pmid_not_found (pmid : value) : tool_result :=
text_result
  (VObj [("valid", VBool true); ("pmid", pmid); ("exists", VBool false);
         ("message", VStr "Valid PMID format but article not found")]).

Definition handleValidatePMID (args : value) : M tool_result :=
destructure args ;;;
let pmid := arg args "pmid" in
let valid := isValidPMID (Js.ToString pmid) in
if negb valid
then ret (pmid_malformed pmid)
else
  try_catch
    (article_details pmid ;;; ret (pmid_exists pmid))
    (fun error => ret (pmid_not_found pmid)).

(** [conversions] once an article was found. *)
Definition conversions_of (article : PubMedArticle) : value :=
  VObj [("pmid", VStr (pmid article)); ("doi", opt_str (doi article));
        ("pmcid", opt_str (pmcid article))].

(** The lookup of an article through a search for [term]. *)
Definition convert_by_search (term : string) : M value :=
  searchResult <- eutils_search (VObj [("term", VStr term); ("retmax", VNum 1)]) ;;
  match pmids searchResult with
  | first :: _ =>
      article <- article_details (VStr first) ;;
      ret (conversions_of article)
  | [] => ret (VObj [])
  end.

(** The auto-detection of [handleConvertIdentifiers]. *)
Definition detect_type (identifier identifier_type : value) : completion value :=
if JsOps.is_string identifier_type "auto" then
  if isValidPMID (Js.ToString identifier) then Normal (VStr "pmid")
  else if isValidDOI (Js.ToString identifier) then Normal (VStr "doi")
  else if isValidPMCID (Js.ToString identifier) then Normal (VStr "pmcid")
  else Abrupt (Error "Unable to auto-detect identifier type")
else Normal identifier_type.

(** What [handleConvertIdentifiers] answers when the lookup failed. *)
Definition conversion_failed (identifier inputType : value) (error : thrown)
  : tool_result :=
text_result
  (VObj [("inputId", identifier); ("inputType", inputType);
         ("conversions", VObj []);
         ("error", VStr (extractErrorMessage error))]).

Definition handleConvertIdentifiers (args : value) : M tool_result :=
  destructure args ;;;
  let identifier := arg args "identifier" in
  let identifier_type := arg_or args "identifier_type" (VStr "auto") in
  inputType <- lift (detect_type identifier identifier_type) ;;
  try_catch
    (conversions <-
       (if JsOps.is_string inputType "pmid" then
          article <- article_details identifier ;;
          ret (conversions_of article)
        else if JsOps.is_string inputType "doi" then
          convert_by_search (Js.ToString identifier ++ "[DOI]")
        else if JsOps.is_string inputType "pmcid" then
          match identifier with
          | VStr s => convert_by_search (normalizePMCID s ++ "[PMC ID]")
          | VUndefined | VNull => throw (JsOps.cannot_read identifier "trim")
          | _ => throw (TypeError "pmcid.trim is not a function")
          end
        else ret (VObj [])) ;;
     ret (text_result
            (VObj [("inputId", identifier); ("inputType", inputType);
                   ("conversions", conversions)])))
    (fun error =>
       ret (text_result
              (VObj [("inputId", identifier); ("inputType", inputType);
                     ("conversions", VObj []);
                     ("error", VStr (extractErrorMessage error))]))).

(** The [switch] of the tool-call handler: the handler of each tool. *)
Definition tool_handlers : list (string * (value -> M tool_result)) :=
  [("search_articles", handleSearchArticles);
   ("advanced_search", handleAdvancedSearch);
   ("search_by_author", handleSearchByAuthor);
   ("search_by_journal", handleSearchByJournal);
   ("search_by_mesh_terms", handleSearchByMeshTerms);
   ("get_trending_articles", handleGetTrendingArticles);
   ("get_article_details", handleGetArticleDetails);
   ("get_abstract", handleGetAbstract);
   ("get_full_text", handleGetFullText);
   ("batch_article_lookup", handleBatchArticleLookup);
   ("get_cited_by", handleGetCitedBy);
   ("get_references", handleGetReferences);
   ("get_similar_articles", handleGetSimilarArticles);
   ("export_citation", handleExportCitation);
   ("validate_pmid", handleValidatePMID);
   ("convert_identifiers", handleConvertIdentifiers)].

(** A session in which no client call was made yet. *)
Definition fresh (w : W) : session := {| remote := w; requests := [] |}.

(** The handlers that check a [pmid] argument before anything else. *)
Definition pmid_handlers : list (value -> M tool_result) :=
  [handleGetArticleDetails; handleGetAbstract; handleGetCitedBy;
   handleGetReferences; handleGetSimilarArticles; handleExportCitation].

(** [new] is what a computation added to the record of client calls. *)
Definition extends (st st' : session) (new : list (request * option thrown)) : Prop :=
  requests st' = (requests st ++ new)%list.

(** A computation rethrows upstream failures: whenever a client call it
    made has failed, it ends abruptly with the error of that call. *)
Definition rethrows {A : Type} (m : M A) : Prop :=
  forall st res st',
    m st = (res, st') ->
    exists new,
      extends st st' new
      /\ forall req e, In (req, Some e) new -> res = Abrupt e.

(** A computation catches upstream failures: it always ends normally, and
    whenever a client call it made has failed, with [answer] of the error
    of that call. *)
Definition catches {A : Type} (m : M A) (answer : thrown -> A) : Prop :=
  forall st res st',
    m st = (res, st') ->
    exists new,
      extends st st' new
      /\ (exists a, res = Normal a)
      /\ forall req e, In (req, Some e) new -> res = Normal (answer e).

End Handlers.

End Server.

(** ** The specification's wording

    Definitions that follow the words of the specification rather than the
    source, to be compared with the functions above. *)

Module Spec.

(** The class of the query builder's contract: letters, digits,
    underscore, whitespace, round and square brackets, the double quote
    and the apostrophe. *)
Definition query_char (c : ascii) : bool :=
  is_word c || is_space c
  || Ascii.eqb c "(" || Ascii.eqb c ")"
  || Ascii.eqb c "[" || Ascii.eqb c "]"
  || Ascii.eqb c dquote || Ascii.eqb c "'".

(** Every character outside the class becomes a space. *)
Definition blank_outside (allowed : ascii -> bool) (s : string) : string :=
  JsString.map (fun c => if allowed c then c else " "%char) s.

(** Whitespace is collapsed: a stretch of whitespace becomes one space. *)
Fixpoint collapse (s : string) : string :=
  match s with
  | EmptyString => EmptyString
  | String c r =>
      if is_space c then
        match r with
        | EmptyString => " "
        | String d _ => if is_space d then collapse r else String " " (collapse r)
        end
      else String c (collapse r)
  end.

(** Sanitize, then append the bracketed field tag. *)
Definition buildFieldQuery (allowed : ascii -> bool) (term field : string) : string :=
  trim (collapse (blank_outside allowed term)) ++ "[" ++ field ++ "]".

(** The strings the normalization of a PMC ID is specified on: ASCII
    characters only. *)
Definition ascii_only (s : string) : bool := all (fun c => (code c <? 128)%N) s.


(** The capital of a letter, by its place in the alphabet; any other
    character is its own capital. *)
Fixpoint capital_in (small capital : string) (c : ascii) : ascii :=
  match small, capital with
  | String a small', String b capital' =>
      if Ascii.eqb c a then b else capital_in small' capital' c
  | _, _ => c
  end.

Definition capital (c : ascii) : ascii :=
  capital_in "abcdefghijklmnopqrstuvwxyz" "ABCDEFGHIJKLMNOPQRSTUVWXYZ" c.




(** The field extractor's contract: strings pass through unchanged,
    sequences are extracted recursively and joined with a single space,
    objects are decomposed into their member values, each extracted
    recursively and joined with a single space, any other value yields
    the empty string. *)
Fixpoint flatten (v : value) : string :=
  match v with
  | VStr s => s
  | VArr items => join " " (List.map flatten items)
  | VObj members => join " " (List.map (fun member => flatten (snd member)) members)
  | _ => ""
  end.

(** An object carrying a text payload under the underscore key. *)
Definition payload_object (v : value) : Prop :=
  exists members s, v = VObj members /\ Js.lookup "_" members = Some (VStr s).

(** An array of strings. *)
Definition string_array (v : value) : Prop :=
  exists ss, v = VArr (List.map VStr ss).

(** An input shaped like the example of the specification: an object
    whose member values are payload objects or arrays of strings. *)
Definition shaped (v : value) : Prop :=
  exists members,
    v = VObj members
    /\ forall k m, In (k, m) members -> payload_object m \/ string_array m.

End Spec.

(** ** Predicates on values used by the statements *)

Module Shape.

(** No [null] anywhere in the value. *)
Fixpoint null_free (v : value) : bool :=
  match v with
  | VNull => false
  | VArr items => List.forallb null_free items
  | VObj members => List.forallb (fun member => null_free (snd member)) members
  | _ => true
  end.

(** The member value [m] is a payload object whose [_] is the string
    [t], non-empty or the only member; or it is an array of strings
    that, joined by single spaces, make [t]. *)
Definition member_has_text (m : value) (t : string) : Prop :=
  (exists members,
      m = VObj members
      /\ Js.lookup "_" members = Some (VStr t)
      /\ (t <> "" \/ members = [("_", VStr t)]))
  \/ (exists ss, m = VArr (List.map VStr ss) /\ t = join " " ss).

End Shape.

(** ** Sample inputs *)

Module Samples.

(** An object whose only member is named [_] and holds an array. *)
Definition underscore_member : value :=
  VObj [("_", VArr [VStr "y"; VStr "z"])].

(** A payload object that also has an attribute, beside an array. *)
Definition payload_with_attribute : value :=
  VObj [("a", VObj [("_", VStr "x"); ("lang", VStr "en")]);
        ("b", VArr [VStr "y"; VStr "z"])].

(** The article of the citation example. *)
Definition doe2024 : Citation.article :=
  {| Citation.authors :=
       [{| Citation.lastName := "Doe"; Citation.foreName := Some "Jane";
           Citation.initials := Some "J" |}];
     Citation.title := "T"; Citation.journal := "J";
     Citation.publicationDate := "2024-03-01";
     Citation.volume := Some "12"; Citation.issue := None;
     Citation.pages := Some "1-9"; Citation.doi := None |}.

(** An operation that rejects with the string [boom] on every call. *)
Definition always_boom (w : unit) : completion value * unit :=
  (Abrupt (Thrown (VStr "boom")), w).

(** An operation that rejects with an [Error] on every call, counting
    its calls. *)
Definition always_error (calls : nat) : completion value * nat :=
  (Abrupt (Error "timeout"), S calls).

(** Three tasks submitted at time 0 to a limiter of 3 requests per
    second, the timers firing one millisecond late, and where the run
    ends. *)
Definition burst : list RateLimiter.event :=
  [RateLimiter.Execute 0%nat 0 0; RateLimiter.Execute 1%nat 0 0;
   RateLimiter.Execute 2%nat 0 0; RateLimiter.TimerFired 334;
   RateLimiter.TaskSettled 400 400; RateLimiter.TimerFired 668;
   RateLimiter.TaskSettled 1100 1100; RateLimiter.TaskSettled 1200 1200]%Z.


Definition burst_end : RateLimiter.system :=
  {| RateLimiter.gate :=
       {| RateLimiter.queue := [];
          RateLimiter.processing := false;
          RateLimiter.lastRequestTime := 1100;
          RateLimiter.requestInterval := RateLimiter.Finite (1000 / 3) |};
     RateLimiter.loop := RateLimiter.Idle;
     RateLimiter.clock := 1200;
     RateLimiter.submitted := [0; 1; 2]%nat;
     RateLimiter.started := [(0%nat, 334%Z); (1%nat, 668%Z); (2%nat, 1100%Z)] |}.

(** Clients whose every call fails, over a world without state, and a
    stand-in for the serializer. *)
Definition offline {R : Type} (w : unit) : completion R * unit :=
  (Abrupt (Error "offline"), w).

Definition offline_eutils : Server.EUtilsClient unit :=
  {| Server.search := fun _ => offline;
     Server.summary := fun _ => offline;
     Server.getArticleDetails := fun _ => offline;
     Server.getArticlesBatch := fun _ => offline;
     Server.getCitedBy := fun _ => offline;
     Server.getReferences := fun _ => offline;
     Server.getSimilarArticles := fun _ _ => offline |}.

Definition offline_pmc : Server.PMCClient unit :=
  {| Server.getFullText := fun _ => offline |}.

(** A compact JSON rendering for the examples, standing for
    [JSON.stringify]: no indentation, no escapes; members that are
    [undefined] are left out, elements that are [undefined] print as
    [null]. *)
Fixpoint stringify (v : value) : string :=
  match v with
  | VUndefined | VNull => "null"
  | VBool true => "true"
  | VBool false => "false"
  | VNum n => of_Z n
  | VStr s => Citation.quote ++ s ++ Citation.quote
  | VArr items => "[" ++ join "," (List.map stringify items) ++ "]"
  | VObj members =>
      "{" ++ join ","
               (List.flat_map
                  (fun member =>
                     if JsOps.is_undefined (snd member) then []
                     else [(Citation.quote ++ fst member ++ Citation.quote ++ ":"
                            ++ stringify (snd member))%string]) members)
          ++ "}"
  end.

Definition today (w : unit) (days : value) : string * string :=
  ("2024/01/01", "2024/01/31").

(** Tool arguments of the examples. *)
Definition malformed_pmid : value :=
  VObj [("pmid", VStr "12a"); ("pmids", VArr [VStr "1"; VStr "12a"])].
Definition malformed_identifier : value :=
  VObj [("identifier", VStr "12a"); ("identifier_type", VStr "pmid")].
Definition valid_pmid : value := VObj [("pmid", VStr "123")].
Definition valid_identifier : value := VObj [("identifier", VStr "12345")].

End Samples.


(** ** Shapes of traces and of strings used by further statements *)

Module Expect.

(** The trace of [k] failed attempts, each followed by its backoff delay. *)
Definition backoffs (baseDelay : Z) (k : nat) : list Retry.event :=
  List.concat
    (List.map (fun i => [Retry.Invoked; Retry.Waited (baseDelay * 2 ^ Z.of_nat i)%Z])
              (List.seq 0 k)).

(** The number of calls of the task in a trace, and the time waited. *)
Definition calls (trace : list Retry.event) : nat :=
  List.length (List.filter (fun ev => match ev with
                                      | Retry.Invoked => true
                                      | Retry.Waited _ => false
                                      end) trace).

Definition waited (trace : list Retry.event) : Z :=
  List.fold_right (fun ev acc => match ev with
                                 | Retry.Invoked => acc
                                 | Retry.Waited d => (d + acc)%Z
                                 end) 0%Z trace.

(** [k] failed calls of [fn] in a row lead from world [w] to world [w']. *)
Inductive failures {T W : Type} (fn : W -> completion T * W)
  : nat -> W -> W -> Prop :=
| failures_none : forall w, failures fn 0 w w
| failures_more : forall k w e w1 w',
    fn w = (Abrupt e, w1) -> failures fn k w1 w' -> failures fn (S k) w w'.

(** No two spaces in a row. *)
Fixpoint single_spaced (s : string) : bool :=
  match s with
  | EmptyString => true
  | String c r =>
      match r with
      | String d _ => negb (is_space c && is_space d) && single_spaced r
      | EmptyString => true
      end
  end.

(** A sanitized search term: only characters of the kept class, the
    space being the only whitespace, never two in a row and none at
    either end. *)
Definition tidy (s : string) : Prop :=
  all (fun c => search_term_char c && (negb (is_space c) || Ascii.eqb c " ")) s = true
  /\ single_spaced s = true
  /\ trim s = s.

(** A state of the rate limiter reached from a fresh limiter. *)
Definition reachable (R : Q) (s : RateLimiter.system) : Prop :=
  exists now0 evs, RateLimiter.run evs (RateLimiter.init R now0) = Some s.

(** The flag of the limiter tells whether its loop is suspended
    somewhere, and a limiter that is not processing has nothing queued. *)
Definition flag_sound (s : RateLimiter.system) : Prop :=
  (RateLimiter.processing (RateLimiter.gate s) = false
   <-> RateLimiter.loop s = RateLimiter.Idle)
  /\ (RateLimiter.processing (RateLimiter.gate s) = false ->
      RateLimiter.queue (RateLimiter.gate s) = []).

(** The traversal of [extractText] meets a [null]: the value is [null],
    or it is an array with such an element, or an object without a truthy
    [_] member that has such a member. *)
Fixpoint meets_null (v : value) : bool :=
  match v with
  | VNull => true
  | VArr items => List.existsb meets_null items
  | VObj members =>
      negb (Js.truthy (Js.opt_member v "_"))
      && List.existsb (fun member => meets_null (snd member)) members
  | _ => false
  end.


(** The article with at most its first [n] authors. *)
Definition with_first_authors (n : nat) (art : Citation.article) : Citation.article :=
  {| Citation.authors := List.firstn n (Citation.authors art);
     Citation.title := Citation.title art;
     Citation.journal := Citation.journal art;
     Citation.publicationDate := Citation.publicationDate art;
     Citation.volume := Citation.volume art;
     Citation.issue := Citation.issue art;
     Citation.pages := Citation.pages art;
     Citation.doi := Citation.doi art |}.




End Expect.

(** ** The PMC client ([api/pmc.ts]): the record it asks for *)

Module PMC.

(** [s.slice(n)] *)
Fixpoint skip (n : nat) (s : string) : string :=
  match n, s with
  | O, _ => s
  | S k, String _ r => skip k r
  | S _, EmptyString => EmptyString
  end.

(** [s.replace(needle, rep)] for a string pattern: the first occurrence
    is replaced. *)
Fixpoint replace_first (needle rep s : string) : string :=
  match s with
  | EmptyString => if startsWith s needle then rep else EmptyString
  | String c r =>
      if startsWith s needle then rep ++ skip (String.length needle) s
      else String c (replace_first needle rep r)
  end.

(** The [identifier] parameter of the [GetRecord] request of
    [getFullText]:
    [`oai:pubmedcentral.nih.gov:${normalizedId.replace('PMC', '')}`]. *)
Definition oai_identifier (pmcid : string) : string :=
  "oai:pubmedcentral.nih.gov:" ++ replace_first "PMC" "" (normalizePMCID pmcid).

End PMC.

(** ** What a tool call costs upstream *)

Module Traffic.

Section Calls.
Variable W : Type.

(** A computation makes at most [n] client calls. *)
Definition at_most {A : Type} (n : nat) (m : Server.M W A) : Prop :=
  forall st res st',
    m st = (res, st') ->
    exists new, Server.extends W st st' new /\ (List.length new <= n)%nat.

End Calls.

(** The client calls of a batch lookup that runs to its end: one
    [getArticlesBatch] per chunk of 50, in order. *)
Definition batch_requests (pmids : list value) : list Server.request :=
  List.map (fun chunk => Server.Request "eutilsClient.getArticlesBatch" [VArr chunk])
           (chunkArray pmids 50).

End Traffic.

(** ** The request handlers of the server ([index.ts])

    The tool-call handler and the resource-read handler wrap what they do
    in a [try] whose [catch] raises an [McpError].  [McpError] comes from
    the SDK: how its constructor composes the message of the error from
    the code and the text is left to the SDK, as is
    [decodeURIComponent]. *)

Module Mcp.

(** The members of [ErrorCode] the server uses. *)
Inductive ErrorCode : Type :=
| MethodNotFound : ErrorCode
| InvalidRequest : ErrorCode
| InternalError : ErrorCode.

(** An [McpError] that leaves a request handler: the code and the text
    given to its constructor. *)
Record McpError : Type := { code : ErrorCode; reason : string }.

(** What a handler hands to the transport. *)
Inductive outcome (A : Type) : Type :=
| Returned : A -> outcome A
| Raised : McpError -> outcome A.
Arguments Returned {A} _.
Arguments Raised {A} _.

(** The result of a resource read. *)
Record resource_content : Type := { uri : string; mimeType : string; text : string }.
Record resource_result : Type := { contents : list resource_content }.

(** [SearchResult] as the object the resource handler serializes. *)
Definition search_result_value (r : Server.SearchResult) : value :=
  VObj [("count", Server.count r); ("retmax", Server.retmax r);
        ("retstart", Server.retstart r);
        ("pmids", Server.strings (Server.pmids r));
        ("translationSet", Server.translationSet r);
        ("queryTranslation", Server.queryTranslation r)].

Section Handlers.
Variable W : Type.
Variable JSON_stringify : value -> string.
Variable trending_window : W -> value -> string * string.
Variable eutilsClient : Server.EUtilsClient W.
Variable pmcClient : Server.PMCClient W.
(** The [message] of [new McpError(code, text)]. *)
Variable mcp_message : ErrorCode -> string -> string.
Variable decodeURIComponent : string -> completion string.

(** An [McpError] thrown inside a [try]: an [Error] with the message the
    SDK gave it. *)
Definition thrown_mcp (c : ErrorCode) (text : string) : thrown :=
  ErrorObj "McpError" (mcp_message c text).

(** The [switch] on the tool name. *)
Definition handler_of (name : string)
  : option (value -> Server.M W Server.tool_result) :=
  option_map snd
    (List.find (fun entry => String.eqb (fst entry) name)
       (Server.tool_handlers W JSON_stringify trending_window
          eutilsClient pmcClient)).

(** The body of the [try] of the tool-call handler. *)
Definition dispatch (name : string) (args : value) : Server.M W Server.tool_result :=
  match handler_of name with
  | Some handler => handler args
  | None => Server.throw W (thrown_mcp MethodNotFound ("Unknown tool: " ++ name))
  end.

(** The handler of [CallToolRequestSchema]. *)
Definition call_tool (name : string) (args : value)
  : Server.session W -> outcome Server.tool_result * Server.session W :=
  fun st =>
    match dispatch name args st with
    | (Normal result, st') => (Returned result, st')
    | (Abrupt error, st') =>
        (Raised {| code := InternalError;
                   reason := "Tool execution failed: " ++ extractErrorMessage error |},
         st')
    end.

Definition json_content (uri : string) (payload : value) : resource_result :=
  {| contents := [{| uri := uri; mimeType := "application/json";
                     text := JSON_stringify payload |}] |}.

(** The body of the [try] of the resource-read handler. *)
Definition read (uri : string) : Server.M W resource_result :=
  if startsWith uri "pubmed://article/" then
    let pmid := PMC.replace_first "pubmed://article/" "" uri in
    Server.bind W
      (Server.await W (Server.Request "eutilsClient.getArticleDetails" [VStr pmid])
         (Server.getArticleDetails W eutilsClient (VStr pmid)))
      (fun article =>
         Server.ret W (json_content uri (Server.article_value article)))
  else if startsWith uri "pubmed://fulltext/" then
    let pmcid := PMC.replace_first "pubmed://fulltext/" "" uri in
    Server.bind W
      (Server.await W (Server.Request "pmcClient.getFullText" [VStr pmcid])
         (Server.getFullText W pmcClient (VStr pmcid)))
      (fun fullText => Server.ret W (json_content uri fullText))
  else if startsWith uri "pubmed://search/" then
    Server.bind W
      (Server.lift W
         (decodeURIComponent (PMC.replace_first "pubmed://search/" "" uri)))
      (fun query =>
         let params := VObj [("term", VStr query); ("retmax", VNum 20)] in
         Server.bind W
           (Server.await W (Server.Request "eutilsClient.search" [params])
              (Server.search W eutilsClient params))
           (fun searchResult =>
              Server.ret W (json_content uri (search_result_value searchResult))))
  else
    Server.throw W (thrown_mcp InvalidRequest ("Unknown resource URI: " ++ uri)).

(** The handler of [ReadResourceRequestSchema]. *)
Definition read_resource (uri : string)
  : Server.session W -> outcome resource_result * Server.session W :=
  fun st =>
    match read uri st with
    | (Normal result, st') => (Returned result, st')
    | (Abrupt error, st') =>
        (Raised {| code := InternalError;
                   reason := "Failed to read resource: " ++ extractErrorMessage error |},
         st')
    end.

End Handlers.

End Mcp.

(** ** Link results ([eutils.ts], [getCitedBy], [getReferences],
    [getSimilarArticles])

    Each of the three methods awaits [this.link(...)] and then reads the
    identifiers out of the parsed answer.  The functions below are that
    second part: what the method returns once [this.link] has answered
    [result]. *)

Module Links.

(** The common part; [slice] is what is done to the array of links
    before the identifiers are extracted. *)
Definition ids_of (result : value) (slice : list value -> list value)
  : completion (list value) :=
  match JsOps.get result "eLinkResult" with
  | Abrupt e => Abrupt e
  | Normal eLinkResult =>
      let linkSet := JsOps.opt_get eLinkResult "LinkSet" in   (* ?.LinkSet *)
      if negb (Js.truthy linkSet) then Normal []
      else
        let linkSetDb := JsOps.member linkSet "LinkSetDb" in
        if negb (Js.truthy linkSetDb) then Normal []
        else
          let links := JsOps.member linkSetDb "Link" in
          if negb (Js.truthy links) then Normal []
          else
            let linkArray := match links with VArr items => items | _ => [links] end in
            Js.map_throwing
              (fun link =>
                 match JsOps.get link "Id" with
                 | Abrupt e => Abrupt e
                 | Normal id => extractText id
                 end)
              (slice linkArray)
  end.

Definition getCitedBy (result : value) : completion (list value) :=
  ids_of result (fun linkArray => linkArray).

Definition getReferences (result : value) : completion (list value) :=
  ids_of result (fun linkArray => linkArray).

(** [maxResults] has the default 20. *)
Definition getSimilarArticles (result maxResults : value) : completion (list value) :=
  ids_of result
    (fun linkArray => JsOps.slice0 linkArray (JsOps.default maxResults (VNum 20))).

(** [links] is what the parsed answer has under
    [eLinkResult.LinkSet.LinkSetDb.Link], each of the three being an
    object. *)
Definition at_path (result links : value) : Prop :=
  exists e s d,
    JsOps.is_nullish result = false
    /\ JsOps.member result "eLinkResult" = VObj e
    /\ Js.lookup "LinkSet" e = Some (VObj s)
    /\ Js.lookup "LinkSetDb" s = Some (VObj d)
    /\ Js.lookup "Link" d = Some links.

(** The link element [link] carries the identifier [id] as a string. *)
Definition carries (link : value) (id : string) : Prop :=
  JsOps.is_nullish link = false /\ JsOps.member link "Id" = VStr id.

(** The three methods return no identifier. *)
Definition none_found (result : value) : Prop :=
  getCitedBy result = Normal []
  /\ getReferences result = Normal []
  /\ forall maxResults, getSimilarArticles result maxResults = Normal [].

End Links.

(** ** Publication dates ([utils.ts], [parsePubMedDate])

    The three patterns are anchored and made of a four-digit year, runs
    of whitespace, a run of word characters and one or two digits.
    Whitespace and word characters being disjoint classes, a match is
    found by scanning: each run is the longest one.  [monthMap[month]]
    finds the twelve keys of the table; for any other name it gives what
    the name designates in [Object.prototype], [undefined] for most
    names, and the template renders it: that rendering is [inherited]. *)

Module Dates.

Definition monthMap : list (string * string) :=
  [("Jan", "01"); ("Feb", "02"); ("Mar", "03"); ("Apr", "04");
   ("May", "05"); ("Jun", "06"); ("Jul", "07"); ("Aug", "08");
   ("Sep", "09"); ("Oct", "10"); ("Nov", "11"); ("Dec", "12")].

Fixpoint own (k : string) (table : list (string * string)) : option string :=
  match table with
  | [] => None
  | (k', v) :: rest => if String.eqb k' k then Some v else own k rest
  end.

(** The longest prefix of characters of a class, and what follows. *)
Fixpoint span (p : ascii -> bool) (s : string) : string * string :=
  match s with
  | EmptyString => (EmptyString, EmptyString)
  | String c r =>
      if p c then (String c (fst (span p r)), snd (span p r))
      else (EmptyString, s)
  end.

(** [^(\d{4})]: the year and what follows. *)
Definition year_prefix (s : string) : option (string * string) :=
  match s with
  | String a (String b (String c (String d r))) =>
      if is_digit a && is_digit b && is_digit c && is_digit d
      then Some (String a (String b (String c (String d EmptyString))), r)
      else None
  | _ => None
  end.

(** [\s+(\w+)]: the word and what follows. *)
Definition spaced_word (s : string) : option (string * string) :=
  let gap := fst (span is_space s) in
  let word := fst (span is_word (snd (span is_space s))) in
  if is_empty gap || is_empty word then None
  else Some (word, snd (span is_word (snd (span is_space s)))).

(** [/^(\d{4})\s+(\w+)\s+(\d{1,2})$/] *)
Definition full_date (s : string) : option (string * string * string) :=
  match year_prefix s with
  | Some (year, r) =>
      match spaced_word r with
      | Some (month, r') =>
          let gap := fst (span is_space r') in
          let day := snd (span is_space r') in
          if negb (is_empty gap) && all is_digit day
             && ((String.length day =? 1)%nat || (String.length day =? 2)%nat)
          then Some (year, month, day)
          else None
      | None => None
      end
  | None => None
  end.

(** [/^(\d{4})\s+(\w+)$/] *)
Definition year_month (s : string) : option (string * string) :=
  match year_prefix s with
  | Some (year, r) =>
      match spaced_word r with
      | Some (month, EmptyString) => Some (year, month)
      | _ => None
      end
  | None => None
  end.

(** [/^(\d{4})$/] *)
Definition year_only (s : string) : option string :=
  match year_prefix s with
  | Some (year, EmptyString) => Some year
  | _ => None
  end.

(** [day.padStart(2, '0')] *)
Definition padStart2 (s : string) : string :=
  match s with
  | EmptyString => "00"
  | String c EmptyString => String "0" s
  | _ => s
  end.

Section Rendering.
Variable inherited : string -> string.

(** [monthMap[month]] inside a template literal *)
Definition month_text (month : string) : string :=
  match own month monthMap with
  | Some number => number
  | None => inherited month
  end.

Definition parsePubMedDate (dateStr : string) : string :=
  if is_empty dateStr then ""
  else
    match full_date dateStr with
    | Some (year, month, day) =>
        year ++ "-" ++ month_text month ++ "-" ++ padStart2 day
    | None =>
        match year_month dateStr with
        | Some (year, month) => year ++ "-" ++ month_text month ++ "-01"
        | None =>
            match year_only dateStr with
            | Some year => year ++ "-01-01"
            | None => dateStr
            end
        end
    end.

End Rendering.

(** What follows a run does not continue it. *)
Definition stops (p : ascii -> bool) (s : string) : Prop :=
  match s with
  | EmptyString => True
  | String c _ => p c = false
  end.

(** A word character or whitespace. *)
Definition plain (c : ascii) : bool := is_word c || is_space c.

(** A four-digit year, a run of whitespace, a word, and a day. *)
Definition four_digits (s : string) : Prop :=
  all is_digit s = true /\ String.length s = 4%nat.
Definition gap (s : string) : Prop := all is_space s = true /\ s <> "".
Definition word (s : string) : Prop := all is_word s = true /\ s <> "".
Definition day_digits (s : string) : Prop :=
  all is_digit s = true /\ (String.length s = 1%nat \/ String.length s = 2%nat).

End Dates.

(** ** Body text ([pmc.ts], [extractBodyText]) *)

Module Body.

(** [ArticleSection] of [types.ts]; [subsections] is optional. *)
Inductive ArticleSection : Type :=
| Section_ : string -> string -> option (list ArticleSection) -> ArticleSection.

Definition title (sec : ArticleSection) : string :=
  match sec with Section_ t _ _ => t end.
Definition content (sec : ArticleSection) : string :=
  match sec with Section_ _ c _ => c end.
Definition subsections (sec : ArticleSection) : option (list ArticleSection) :=
  match sec with Section_ _ _ s => s end.

(** Two line feeds. *)
Definition blank_line : string := Citation.nl ++ Citation.nl.

(** The callback of [sections.map] in [extractBodyText]. *)
Fixpoint section_text (sec : ArticleSection) : string :=
  match sec with
  | Section_ title content subsections =>
      (if is_empty title then "" else title ++ blank_line)
      ++ content
      ++ match subsections with
         | Some (first :: more) =>
             blank_line ++ join blank_line (List.map section_text (first :: more))
         | _ => ""
         end
  end.

Definition extractBodyText (sections : list ArticleSection) : string :=
  join blank_line (List.map section_text sections).

(** A section without its subsections: the title, when there is one,
    a blank line, and the content. *)
Definition own_text (sec : ArticleSection) : string :=
  (if is_empty (title sec) then "" else title sec ++ blank_line) ++ content sec.

(** The sections in document order: each one before its subsections. *)
Fixpoint outline (sec : ArticleSection) : list ArticleSection :=
  match sec with
  | Section_ _ _ subsections =>
      sec :: match subsections with
             | Some subs => List.flat_map outline subs
             | None => []
             end
  end.

End Body.

(** ** Further sample inputs *)

Module MoreSamples.

(** An operation that fails on its first two calls and succeeds on the
    third, counting its calls. *)
Definition flaky (calls : nat) : completion value * nat :=
  if (calls <? 2)%nat then (Abrupt (Error "busy"), S calls)
  else (Normal (VStr "ok"), S calls).

(** The limiter of [Samples.burst] after its three submissions and before
    any timer has fired. *)
Definition burst_queued : RateLimiter.system :=
  {| RateLimiter.gate :=
       {| RateLimiter.queue := [0%nat; 1%nat; 2%nat];
          RateLimiter.processing := true;
          RateLimiter.lastRequestTime := 0;
          RateLimiter.requestInterval := RateLimiter.Finite (1000 # 3) |};
     RateLimiter.loop := RateLimiter.Sleeping 0 (RateLimiter.Finite (1000 # 3));
     RateLimiter.clock := 0;
     RateLimiter.submitted := [0%nat; 1%nat; 2%nat];
     RateLimiter.started := [] |}.


(** An article whose only author is a collective one, as [parseArticle]
    leaves it: an empty last name. *)
Definition consortium : Citation.article :=
  {| Citation.authors :=
       [{| Citation.lastName := ""; Citation.foreName := None;
           Citation.initials := None |}];
     Citation.title := "T"; Citation.journal := "J";
     Citation.publicationDate := "2020-05-01";
     Citation.volume := None; Citation.issue := None;
     Citation.pages := Some "e100-e108"; Citation.doi := None |}.

(** Tool arguments of the further examples. *)
Definition two_pmids : value := VObj [("pmids", VArr [VStr "1"; VStr "2"])].
Definition bad_pmcid : value := VObj [("pmcid", VStr "12345")].
Definition no_field : value :=
  VObj [("title", VStr ""); ("mesh_terms", VArr []); ("max_results", VNum 5)].
Definition odd_identifier : value := VObj [("identifier", VStr "abc")].

(** A parsed link answer with the given value under
    [eLinkResult.LinkSet.LinkSetDb.Link]. *)
Definition link_answer (links : value) : value :=
  VObj [("eLinkResult",
         VObj [("LinkSet",
                VObj [("DbFrom", VStr "pubmed");
                      ("LinkSetDb",
                       VObj [("DbTo", VStr "pubmed"); ("Link", links)])])])].

(** A stand-in for the message the SDK gives an [McpError]. *)
Definition sdk_message (c : Mcp.ErrorCode) (text : string) : string :=
  "MCP error: " ++ text.

End MoreSamples.

(* ================================================================= *)
(** * Part II: properties *)
(* ================================================================= *)

(** ** Evaluations

    The functions of Part I on sample inputs. *)

Example isValidPMID_ex1 : isValidPMID "12345" = true.
Proof. reflexivity. Qed.

Example isValidPMID_ex2 : isValidPMID "" = false.
Proof. reflexivity. Qed.

Example isValidPMID_ex3 : isValidPMID "12a" = false.
Proof. reflexivity. Qed.

Example isValidDOI_ex : isValidDOI "10.1000/xyz" = true.
Proof. reflexivity. Qed.

Example isValidPMCID_ex : isValidPMCID "pmc123" = true.
Proof. reflexivity. Qed.

Example normalizePMCID_ex : normalizePMCID "  pmc12 " = "PMC12".
Proof. reflexivity. Qed.

Example normalizePMCID_ex2 : normalizePMCID " 12" = "PMC12".
Proof. reflexivity. Qed.

Example of_Z_ex : of_Z (-50) = "-50" /\ of_Z 0 = "0".
Proof. split; reflexivity. Qed.

Example split_ex : split "-" "2024-01-02" = ["2024"; "01"; "02"].
Proof. reflexivity. Qed.

Example extractText_ex1 :
  extractText (VObj [("a", VObj [("_", VStr "x")]); ("b", VArr [VStr "y"; VStr "z"])])
  = Normal (VStr "x y z").
Proof. reflexivity. Qed.

Example extractText_ex2 : extractText (VArr [VStr "a"; VNum 5; VObj [("_", VNum 7)]])
  = Normal (VStr "a  7").
Proof. reflexivity. Qed.

Example buildFieldQuery_ex :
  buildFieldQuery "cancer; treatment!" "Title" = "cancer treatment[Title]".
Proof. reflexivity. Qed.

Example buildFieldQuery_ex2 :
  buildFieldQuery "  stem-cell	 (therapy)  " "Title" = "stem-cell (therapy)[Title]".
Proof. reflexivity. Qed.

Example chunkArray_ex : chunkArray [1; 2; 3; 4; 5]%nat 2 = [[1; 2]; [3; 4]; [5]]%nat.
Proof. reflexivity. Qed.

Example slice0_ex :
  JsOps.slice0 [1; 2; 3]%nat (VNum 2) = [1; 2]%nat
  /\ JsOps.slice0 [1; 2; 3]%nat (VNum (-1)) = [1; 2]%nat
  /\ JsOps.slice0 [1; 2; 3]%nat (VStr "7") = [1; 2; 3]%nat.
Proof. repeat split. Qed.

Example member_ex :
  JsOps.member (VArr [VStr "a"; VStr "b"]) "1" = VStr "b"
  /\ JsOps.member (VStr "ab") "length" = VNum 2.
Proof. split; reflexivity. Qed.

(** ** Regular expressions: the matcher decides the language *)

Module RegexFacts.
Import Regex.

Lemma nullable_Lang (r : regex) : nullable r = true <-> Lang r "".
Proof.
  induction r as [| |p|a IHa b IHb|a IHa b IHb|a IHa]; simpl; split; intro H.
  - discriminate.
  - inversion H.
  - constructor.
  - reflexivity.
  - discriminate.
  - inversion H.
  - apply andb_true_iff in H as [Ha Hb].
    change "" with ("" ++ ""). constructor; [apply IHa | apply IHb]; assumption.
  - inversion H as [| |a' b' s t Hs Ht Heq| | | |]; subst.
    destruct s; [|discriminate]. simpl in *. subst.
    apply andb_true_iff. split; [apply IHa | apply IHb]; assumption.
  - apply orb_true_iff in H as [Ha | Hb].
    + apply LOrL, IHa, Ha.
    + apply LOrR, IHb, Hb.
  - apply orb_true_iff.
    inversion H; subst; [left; apply IHa | right; apply IHb]; assumption.
  - constructor.
  - reflexivity.
Qed.

Lemma deriv_sound (c : ascii) (r : regex) :
  forall s, Lang (deriv c r) s -> Lang r (String c s).
Proof.
  induction r; simpl; intros s H.
  - inversion H.
  - inversion H.
  - destruct (b c) eqn:E; inversion H; subst. constructor; assumption.
  - destruct (nullable r1) eqn:N.
    + inversion H as [| | |a b s' Hl|a b s' Hr| |]; subst.
      * inversion Hl as [| |a b s1 s2 H1 H2| | | |]; subst.
        change (String c (s1 ++ s2)) with (String c s1 ++ s2).
        constructor; auto.
      * change (String c s) with ("" ++ String c s).
        constructor; [apply nullable_Lang; assumption | auto].
    + inversion H as [| |a b s1 s2 H1 H2| | | |]; subst.
      change (String c (s1 ++ s2)) with (String c s1 ++ s2).
      constructor; auto.
  - inversion H; subst; [apply LOrL | apply LOrR]; auto.
  - inversion H as [| |a b s1 s2 H1 H2| | | |]; subst.
    change (String c (s1 ++ s2)) with (String c s1 ++ s2).
    constructor; auto.
Qed.

Lemma deriv_complete (r : regex) (w : string) :
  Lang r w -> forall c s, w = String c s -> Lang (deriv c r) s.
Proof.
  induction 1 as [|p d Hp|a b s t Hs IHs Ht IHt|a b s Hs IHs|a b s Hs IHs
                 |a|a s t Hs IHs Ht IHt]; intros c u E; simpl.
  - discriminate.
  - injection E as -> <-. rewrite Hp. constructor.
  - destruct s as [|d s'].
    + simpl in E. subst t.
      assert (N : nullable a = true) by (apply nullable_Lang; assumption).
      rewrite N. apply LOrR. apply IHt. reflexivity.
    + simpl in E. injection E as -> <-.
      destruct (nullable a).
      * apply LOrL. constructor; [apply IHs; reflexivity | assumption].
      * constructor; [apply IHs; reflexivity | assumption].
  - apply LOrL. apply IHs. assumption.
  - apply LOrR. apply IHs. assumption.
  - discriminate.
  - destruct s as [|d s'].
    + simpl in E. apply (IHt c u E).
    + simpl in E. injection E as -> <-.
      constructor; [apply IHs; reflexivity | assumption].
Qed.

Lemma test_Lang (s : string) : forall r, test r s = true <-> Lang r s.
Proof.
  induction s as [|c s IH]; intro r; simpl.
  - apply nullable_Lang.
  - rewrite IH. split.
    + apply deriv_sound.
    + intro H. apply (deriv_complete r _ H). reflexivity.
Qed.

(** The language of [[class]*] and of [[class]+]. *)
Lemma Lang_star_class (p : ascii -> bool) (s : string) :
  Lang (Star (Class p)) s <-> all p s = true.
Proof.
  split.
  - intro H. remember (Star (Class p)) as r eqn:Er.
    induction H as [| | | | |a|a s t Hs _ Ht IHt]; try discriminate.
    + reflexivity.
    + injection Er as ->. inversion Hs as [|p' c Hc| | | | |]; subst. simpl.
      rewrite (IHt eq_refl), Hc. reflexivity.
  - induction s as [|c s IH]; simpl; intro H.
    + constructor.
    + apply andb_true_iff in H as [Hc Hs].
      change (String c s) with (String c "" ++ s).
      constructor; [constructor; assumption | apply IH; assumption].
Qed.

Lemma Lang_plus_class (p : ascii -> bool) (s : string) :
  Lang (Plus (Class p)) s <-> is_empty s = false /\ all p s = true.
Proof.
  unfold Plus. split.
  - intro H. inversion H as [| |a b s1 s2 H1 H2| | | |]; subst.
    inversion H1 as [|p' c Hc| | | | |]; subst. simpl. split; [reflexivity|].
    apply Lang_star_class in H2. rewrite H2, Hc. reflexivity.
  - intros [Hne Hall]. destruct s as [|c s]; [discriminate|].
    simpl in Hall. apply andb_true_iff in Hall as [Hc Hs].
    change (String c s) with (String c "" ++ s).
    constructor; [constructor; assumption | apply Lang_star_class; assumption].
Qed.

End RegexFacts.

(** ** String facts *)

Module StringFacts.


Lemma is_empty_false (s : string) : is_empty s = false <-> s <> "".
Proof. destruct s; simpl; split; congruence. Qed.

Lemma is_digit_spec (c : ascii) :
  is_digit c = true <->
  In c ["0"; "1"; "2"; "3"; "4"; "5"; "6"; "7"; "8"; "9"]%char.
Proof.
  destruct c as [[] [] [] [] [] [] [] []]; vm_compute; split; intro H;
    try discriminate; try reflexivity;
    repeat (destruct H as [H | H]; [try discriminate H; try reflexivity|]);
    try contradiction; intuition (try discriminate; auto).
Qed.

End StringFacts.

(** *** C9 *)


(** ** Trimming and upper-casing *)

Module TrimFacts.

Ltac by_cases c :=
  destruct c as [[] [] [] [] [] [] [] []]; vm_compute; reflexivity.

Lemma is_space_upper (c : ascii) : is_space (upper_char c) = is_space c.
Proof. by_cases c. Qed.




Section Preserving.
Variable f : ascii -> ascii.
Hypothesis f_space : forall c, is_space (f c) = is_space c.



End Preserving.

Lemma trimEnd_idem (s : string) : trimEnd (trimEnd s) = trimEnd s.
Proof.
  induction s as [|c s IH]; simpl; [reflexivity|].
  destruct (is_space c && is_empty (trimEnd s)) eqn:E; simpl; [reflexivity|].
  rewrite IH, E. reflexivity.
Qed.

Lemma no_lead_trimStart (s : string) : no_lead (trimStart s).
Proof.
  induction s as [|c s IH]; simpl; [exact I|].
  destruct (is_space c) eqn:E; [assumption | exact E].
Qed.

Lemma trimStart_no_lead (s : string) : no_lead s -> trimStart s = s.
Proof. destruct s as [|c s]; simpl; [reflexivity|]. intros ->. reflexivity. Qed.

Lemma no_lead_trimEnd (s : string) : no_lead s -> no_lead (trimEnd s).
Proof.
  destruct s as [|c s]; simpl; [exact id|]. intro E. rewrite E. simpl. exact E.
Qed.

Lemma trim_idem (s : string) : trim (trim s) = trim s.
Proof.
  unfold trim.
  rewrite (trimStart_no_lead (trimEnd (trimStart s))).
  - apply trimEnd_idem.
  - apply no_lead_trimEnd, no_lead_trimStart.
Qed.

Lemma trimEnd_app_word (p s : string) :
  all (fun c => negb (is_space c)) p = true ->
  trimEnd (p ++ s) = p ++ trimEnd s.
Proof.
  induction p as [|c p IH]; simpl; intro H; [reflexivity|].
  apply andb_true_iff in H as [Hc Hp].
  apply negb_true_iff in Hc. rewrite Hc, (IH Hp). reflexivity.
Qed.











End TrimFacts.

(** *** C7 *)



(** ** The query builder against the wording of its contract *)

Module QueryFacts.

Lemma replace_each_blank (allowed : ascii -> bool) (s : string) :
  replace_each (fun c => negb (allowed c)) " " s = Spec.blank_outside allowed s.
Proof.
  unfold Spec.blank_outside.
  induction s as [|c s IH]; simpl; [reflexivity|].
  rewrite IH. destruct (allowed c); reflexivity.
Qed.

Lemma replace_runs_collapse (s : string) :
  replace_runs_from false is_space " " s = Spec.collapse s
  /\ forall c, is_space c = true ->
       String " " (replace_runs_from true is_space " " s) = Spec.collapse (String c s).
Proof.
  induction s as [|d r [IH1 IH2]].
  - split; [reflexivity|]. intros c Hc. simpl. rewrite Hc. reflexivity.
  - split.
    + change (Spec.collapse (String d r))
        with (if is_space d
              then match r with
                   | EmptyString => " "
                   | String e _ =>
                       if is_space e then Spec.collapse r
                       else String " " (Spec.collapse r)
                   end
              else String d (Spec.collapse r)).
      simpl replace_runs_from.
      destruct (is_space d) eqn:Ed.
      * rewrite (IH2 d Ed). simpl. rewrite Ed. reflexivity.
      * rewrite IH1. reflexivity.
    + intros c Hc.
      change (Spec.collapse (String c (String d r)))
        with (if is_space c
              then if is_space d then Spec.collapse (String d r)
                   else String " " (Spec.collapse (String d r))
              else String c (Spec.collapse (String d r))).
      rewrite Hc. simpl replace_runs_from.
      destruct (is_space d) eqn:Ed.
      * apply (IH2 d Ed).
      * simpl. rewrite Ed, IH1. reflexivity.
Qed.

Lemma search_term_char_spec (c : ascii) :
  search_term_char c = Spec.query_char c || Ascii.eqb c "-".
Proof. TrimFacts.by_cases c. Qed.

Lemma blank_outside_ext (p q : ascii -> bool) (s : string) :
  (forall c, p c = q c) -> Spec.blank_outside p s = Spec.blank_outside q s.
Proof.
  intro H. unfold Spec.blank_outside.
  induction s as [|c s IH]; simpl; [reflexivity|]. rewrite H, IH. reflexivity.
Qed.

End QueryFacts.

(** *** C6 *)

(** C6, as stated, fails: the hyphen is outside the class of the contract,
    yet the source keeps it; and the tag is appended without a space, the
    example giving [cancer treatment[Title]]. *)
Lemma buildFieldQuery_keeps_hyphen :
  buildFieldQuery "stem-cell" "Title" = "stem-cell[Title]"
  /\ Spec.buildFieldQuery Spec.query_char "stem-cell" "Title" = "stem cell[Title]"
  /\ buildFieldQuery "stem-cell" "Title"
     <> Spec.buildFieldQuery Spec.query_char "stem-cell" "Title"
  /\ buildFieldQuery "cancer; treatment!" "Title" <> "cancer  treatment [Title]".
Proof. repeat split; vm_compute; discriminate. Qed.

(** C6, amended. For every term and field, [buildFieldQuery term field] is
    the term with every character outside the class of the contract
    extended by the hyphen replaced by a space, whitespace collapsed to
    single spaces, the result trimmed, and [[field]] appended directly; for
    the example it is [cancer treatment[Title]]. *)
Theorem buildFieldQuery_contract (term field : string) :
  buildFieldQuery term field
  = Spec.buildFieldQuery (fun c => Spec.query_char c || Ascii.eqb c "-") term field
  /\ buildFieldQuery "cancer; treatment!" "Title" = "cancer treatment[Title]".
Proof.
  split; [|reflexivity].
  unfold buildFieldQuery, Spec.buildFieldQuery, sanitizeSearchTerm, replace_runs.
  rewrite QueryFacts.replace_each_blank.
  rewrite (proj1 (QueryFacts.replace_runs_collapse _)).
  rewrite (QueryFacts.blank_outside_ext _ _ _ QueryFacts.search_term_char_spec).
  reflexivity.
Qed.

(** ** Citation formatter *)

(** *** C8 *)

(** C8. In the [bibtex] style, an article whose only author is Doe, Jane,
    whose title is [T], whose journal is [J] and whose publication year
    (the part of the publication date before the first hyphen) is [2024]
    is rendered as a string that contains [@article{Doe2024,] and the line
    [  title = {T},]. *)
Theorem formatCitation_bibtex_Doe2024
        (art : Citation.article) (ini : option string) :
  Citation.authors art
  = [{| Citation.lastName := "Doe"; Citation.foreName := Some "Jane";
        Citation.initials := ini |}] ->
  Citation.title art = "T" ->
  Citation.journal art = "J" ->
  List.hd "" (split "-" (Citation.publicationDate art)) = "2024" ->
  contains (Citation.formatCitation art "bibtex") "@article{Doe2024,"
  /\ contains (Citation.formatCitation art "bibtex")
       (Citation.nl ++ "  title = {T}," ++ Citation.nl).
Proof.
  intros Ha Ht Hj Hy.
  unfold Citation.formatCitation. simpl String.eqb. cbv iota.
  rewrite Ha, Hy. simpl List.firstn.
  unfold Citation.formatBibTeXCitation. rewrite Ht, Hj.
  split.
  - exists "". eexists. simpl. reflexivity.
  - exists ("@article{Doe2024," ++ Citation.nl ++ "  author = {Doe, Jane},").
    eexists. simpl. reflexivity.
Qed.

Lemma formatCitation_bibtex_Doe2024_witness :
  contains (Citation.formatCitation Samples.doe2024 "bibtex") "@article{Doe2024,"
  /\ contains (Citation.formatCitation Samples.doe2024 "bibtex")
       (Citation.nl ++ "  title = {T}," ++ Citation.nl).
Proof.
  apply (formatCitation_bibtex_Doe2024 Samples.doe2024 (Some "J")); reflexivity.
Defined.

(** ** Field extractor *)

Module ExtractFacts.

(** Induction on values through the arrays and objects. *)
Lemma value_induction (P : value -> Prop) :
  P VUndefined -> P VNull ->
  (forall b, P (VBool b)) -> (forall n, P (VNum n)) -> (forall s, P (VStr s)) ->
  (forall items, Forall P items -> P (VArr items)) ->
  (forall members, Forall (fun member => P (snd member)) members -> P (VObj members)) ->
  forall v, P v.
Proof.
  intros Hundefined Hnull Hbool Hnum Hstr Harr Hobj.
  fix IH 1. intros [| |b|n|s|items|members].
  - exact Hundefined.
  - exact Hnull.
  - apply Hbool.
  - apply Hnum.
  - apply Hstr.
  - apply Harr. induction items as [|x rest IHrest]; constructor.
    + apply IH.
    + exact IHrest.
  - apply Hobj. induction members as [|m rest IHrest]; constructor.
    + apply IH.
    + exact IHrest.
Qed.

(** The equations of [extractText]. *)
Lemma extractText_arr (items : list value) :
  extractText (VArr items)
  = match Js.map_throwing extractText items with
    | Abrupt e => Abrupt e
    | Normal texts => Normal (VStr (Js.array_join " " texts))
    end.
Proof. reflexivity. Qed.

Lemma extractText_obj (members : list (string * value)) :
  extractText (VObj members)
  = if Js.truthy (Js.opt_member (VObj members) "_")
    then Normal (Js.opt_member (VObj members) "_")
    else match Js.map_throwing (fun member => extractText (snd member)) members with
         | Abrupt e => Abrupt e
         | Normal texts => Normal (VStr (Js.array_join " " texts))
         end.
Proof. reflexivity. Qed.

Lemma map_throwing_total {A B : Type} (f : A -> completion B) (l : list A) :
  Forall (fun x => exists y, f x = Normal y) l ->
  exists ys, Js.map_throwing f l = Normal ys.
Proof.
  induction 1 as [|x l [y Hy] _ [ys IH]]; simpl.
  - eexists; reflexivity.
  - rewrite Hy, IH. eexists; reflexivity.
Qed.

Lemma map_throwing_Forall2 {A B : Type} (f : A -> completion B)
      (l : list A) (ys : list B) :
  Forall2 (fun x y => f x = Normal y) l ys -> Js.map_throwing f l = Normal ys.
Proof.
  induction 1 as [|x y l ys Hxy _ IH]; simpl; [reflexivity|].
  rewrite Hxy, IH. reflexivity.
Qed.

(** Without [null], extraction ends normally. *)
Lemma extractText_total_null_free (v : value) :
  Shape.null_free v = true -> exists r, extractText v = Normal r.
Proof.
  induction v as [| |b|n|s|items IH|members IH] using value_induction;
    intro H; try (eexists; reflexivity); try discriminate.
  - rewrite extractText_arr.
    destruct (map_throwing_total extractText items) as [ys ->].
    + simpl in H. rewrite forallb_forall in H. rewrite Forall_forall in *.
      intros x Hx. apply (IH x Hx), H, Hx.
    + eexists; reflexivity.
  - rewrite extractText_obj.
    destruct (Js.truthy _); [eexists; reflexivity|].
    destruct (map_throwing_total (fun member => extractText (snd member)) members)
      as [ys ->].
    + simpl in H. rewrite forallb_forall in H. rewrite Forall_forall in *.
      intros x Hx. apply (IH x Hx), H, Hx.
    + eexists; reflexivity.
Qed.

(** On its own string output the extractor is the identity. *)
Lemma extractText_string_fixed (x : value) (s : string) :
  extractText x = Normal (VStr s) -> extractText (VStr s) = Normal (VStr s).
Proof. reflexivity. Qed.

Lemma array_join_strings (sep : string) (ss : list string) :
  Js.array_join sep (List.map VStr ss) = join sep ss.
Proof.
  unfold Js.array_join. rewrite List.map_map. simpl.
  rewrite List.map_id. reflexivity.
Qed.

Lemma extractText_string_array (ss : list string) :
  extractText (VArr (List.map VStr ss)) = Normal (VStr (join " " ss)).
Proof.
  rewrite extractText_arr.
  rewrite (map_throwing_Forall2 extractText _ (List.map VStr ss)).
  - rewrite array_join_strings. reflexivity.
  - induction ss; simpl; constructor; [reflexivity | assumption].
Qed.

Lemma extractText_member (m : value) (t : string) :
  Shape.member_has_text m t -> extractText m = Normal (VStr t).
Proof.
  intros [(members & -> & Hl & Ht) | (ss & -> & ->)].
  - rewrite extractText_obj. simpl Js.opt_member. rewrite Hl.
    destruct t as [|c t]; [|reflexivity].
    destruct Ht as [Ht | ->]; [congruence | reflexivity].
  - apply extractText_string_array.
Qed.

Lemma lookup_absent (k : string) (members : list (string * value)) :
  Forall (fun member => fst member <> k) members -> Js.lookup k members = None.
Proof.
  induction 1 as [|[k' v] l Hk _ IH]; simpl; [reflexivity|].
  simpl in Hk. destruct (String.eqb_spec k' k); [contradiction | assumption].
Qed.

End ExtractFacts.

(** *** C3 *)

(** C3, at the input the source misses: [null] has type [object], so the
    extractor hands it to [Object.values], which throws; an array or an
    object that holds a [null] fails the same way. *)
Theorem extractText_null_throws :
  extractText VNull = Abrupt null_to_object
  /\ extractText (VArr [VStr "a"; VNull]) = Abrupt null_to_object
  /\ extractText (VObj [("a", VNull)]) = Abrupt null_to_object.
Proof. repeat split. Qed.

(** *** C4 *)

(** C4, as stated, fails: an object that has a truthy member named [_] is
    not decomposed, that member is the result as it is, be it an array;
    and beside a non-empty payload the other members of a payload object
    are left out. *)
Lemma extractText_underscore_member :
  (Spec.shaped Samples.underscore_member
   /\ extractText Samples.underscore_member = Normal (VArr [VStr "y"; VStr "z"])
   /\ extractText Samples.underscore_member
      <> Normal (VStr (Spec.flatten Samples.underscore_member)))
  /\ (Spec.shaped Samples.payload_with_attribute
      /\ extractText Samples.payload_with_attribute = Normal (VStr "x y z")
      /\ Spec.flatten Samples.payload_with_attribute = "x en y z"
      /\ extractText Samples.payload_with_attribute
         <> Normal (VStr (Spec.flatten Samples.payload_with_attribute))).
Proof.
  split; split.
  - exists [("_", VArr [VStr "y"; VStr "z"])]. split; [reflexivity|].
    intros k m [E | []]. injection E as <- <-.
    right. exists ["y"; "z"]. reflexivity.
  - split; [reflexivity | discriminate].
  - eexists. split; [reflexivity|].
    intros k m [E | [E | []]]; injection E as <- <-.
    + left. do 2 eexists. split; reflexivity.
    + right. exists ["y"; "z"]. reflexivity.
  - split; [reflexivity | split; [reflexivity | discriminate]].
Qed.

(** C4, amended. For every object that has no member named [_] and whose
    member values are each a payload object (its [_] a string that is
    non-empty or the only member) or an array of strings, [extractText]
    returns the texts of the members joined by single spaces in member
    order, the text of a payload object being its payload alone and the
    text of an array its strings joined by single spaces; for the example
    of the specification that is [x y z]. *)
Theorem extractText_flattens_members
        (members : list (string * value)) (texts : list string) :
  Forall2 (fun member t => fst member <> "_" /\ Shape.member_has_text (snd member) t)
          members texts ->
  extractText (VObj members) = Normal (VStr (join " " texts)).
Proof.
  intro H.
  rewrite ExtractFacts.extractText_obj. simpl Js.opt_member.
  rewrite ExtractFacts.lookup_absent.
  - simpl Js.truthy. cbv iota.
    rewrite (ExtractFacts.map_throwing_Forall2 _ _ (List.map VStr texts)).
    + rewrite ExtractFacts.array_join_strings. reflexivity.
    + induction H as [|m t l ts [_ Hm] _ IH]; simpl; constructor.
      * apply ExtractFacts.extractText_member, Hm.
      * assumption.
  - induction H as [|m t l ts [Hk _] _ IH]; constructor; assumption.
Qed.

Lemma extractText_flattens_members_witness :
  extractText (VObj [("a", VObj [("_", VStr "x")]); ("b", VArr [VStr "y"; VStr "z"])])
  = Normal (VStr "x y z").
Proof.
  apply (extractText_flattens_members
           [("a", VObj [("_", VStr "x")]); ("b", VArr [VStr "y"; VStr "z"])]
           ["x"; "y z"]).
  constructor; [split | constructor; [split | constructor]].
  - discriminate.
  - left. exists [("_", VStr "x")].
    split; [reflexivity | split; [reflexivity | left; discriminate]].
  - discriminate.
  - right. exists ["y"; "z"]. split; reflexivity.
Defined.

(** ** Retry policy *)

(** *** C2 *)

(** C2, as stated, fails: what is raised after the last attempt is the
    task's error only when that is an instance of [Error]; a task that
    rejects with the string [boom] makes [retryWithBackoff] raise a new
    [Error] whose message is [boom], not the string. *)
Lemma retryWithBackoff_wraps_thrown_string :
  fst (fst (Retry.retryWithBackoff Samples.always_boom None None tt))
  = Abrupt (Error "boom")
  /\ fst (fst (Retry.retryWithBackoff Samples.always_boom None None tt))
     <> Abrupt (Thrown (VStr "boom")).
Proof. split; [reflexivity | discriminate]. Qed.

(** C2, amended. When [retryWithBackoff] runs with [maxRetries] 3 (given
    or by default) and the task fails on each of its first three calls,
    the task is called exactly three times, [baseDelay * 2^i] milliseconds
    are awaited after the failed call [i] for [i < 2] and nothing after
    the third, and the error raised is that of the third call if it is an
    instance of [Error], and otherwise a new [Error] whose message is the
    string conversion of what the third call threw. *)
Theorem retryWithBackoff_three_failures
        {T W : Type} (fn : W -> completion T * W)
        (maxRetries : option nat) (baseDelay : option Z)
        (w0 w1 w2 w3 : W) (e1 e2 e3 : thrown) :
  maxRetries = None \/ maxRetries = Some 3%nat ->
  fn w0 = (Abrupt e1, w1) ->
  fn w1 = (Abrupt e2, w2) ->
  fn w2 = (Abrupt e3, w3) ->
  let delay := match baseDelay with Some d => d | None => 1000%Z end in
  Retry.retryWithBackoff fn maxRetries baseDelay w0
  = (Abrupt (Retry.as_error e3), w3,
     [Retry.Invoked; Retry.Waited (delay * 2 ^ 0)%Z;
      Retry.Invoked; Retry.Waited (delay * 2 ^ 1)%Z;
      Retry.Invoked])
  /\ (forall name message, e3 = ErrorObj name message -> Retry.as_error e3 = e3)
  /\ (forall v, e3 = Thrown v -> Retry.as_error e3 = Error (Js.ToString v)).
Proof.
  intros Hm H1 H2 H3 delay. split; [|split].
  - assert (E : match maxRetries with Some n => n | None => 3%nat end = 3%nat)
      by (destruct Hm as [-> | ->]; reflexivity).
    unfold Retry.retryWithBackoff. rewrite E.
    cbn [Retry.attempts]. rewrite H1. cbn [Retry.attempts].
    rewrite H2. cbn [Retry.attempts]. rewrite H3. reflexivity.
  - intros name message ->. reflexivity.
  - intros v ->. reflexivity.
Qed.

Lemma retryWithBackoff_three_failures_witness :
  Retry.retryWithBackoff Samples.always_error None None 0%nat
  = (Abrupt (Retry.as_error (Error "timeout")), 3%nat,
     [Retry.Invoked; Retry.Waited (1000 * 2 ^ 0)%Z;
      Retry.Invoked; Retry.Waited (1000 * 2 ^ 1)%Z;
      Retry.Invoked])
  /\ (forall name message,
         Error "timeout" = ErrorObj name message ->
         Retry.as_error (Error "timeout") = Error "timeout")
  /\ (forall v, Error "timeout" = Thrown v ->
                Retry.as_error (Error "timeout") = Error (Js.ToString v)).
Proof.
  apply (retryWithBackoff_three_failures Samples.always_error None None
           0%nat 1%nat 2%nat 3%nat (Error "timeout") (Error "timeout")
           (Error "timeout")).
  - left. reflexivity.
  - reflexivity.
  - reflexivity.
  - reflexivity.
Defined.
(** ** Rate limiter *)

Module LimiterFacts.
Import RateLimiter.





Lemma interval_of_positive (R : Q) : 0 < R -> interval_of R = Finite (1000 / R).
Proof.
  intro H. unfold interval_of.
  destruct (Qeq_bool R 0) eqn:E; [|reflexivity].
  apply Qeq_bool_iff in E. rewrite E in H. discriminate H.
Qed.



(** *** First in, first out, whatever the interval *)

Lemma resume_fifo (now : Z) (s : system) : fifo s -> fifo (resume now s).
Proof.
  unfold fifo, resume. cbv zeta. intro H.
  destruct (queue (gate s)) as [|t rest] eqn:Eq; simpl.
  - try rewrite Eq in H. exact H.
  - rewrite List.map_app. simpl. rewrite <- List.app_assoc. simpl.
    try rewrite Eq in H. exact H.
Qed.

Lemma processQueue_fifo (now now' : Z) (s : system) :
  fifo s -> fifo (processQueue now now' s).
Proof.
  intro H. unfold processQueue. cbv zeta.
  destruct (queue (gate s)) as [|t rest] eqn:Eq.
  - unfold fifo in *. simpl. rewrite Eq in H. exact H.
  - destruct (before _ _).
    + unfold fifo in *. simpl. rewrite Eq in H. exact H.
    + apply resume_fifo. unfold fifo in *. simpl. rewrite Eq in H. exact H.
Qed.

Lemma execute_fifo (t : task) (now now' : Z) (s : system) :
  fifo s -> fifo (execute t now now' s).
Proof.
  intro H.
  assert (Hpush : fifo
    {| gate := {| queue := (queue (gate s) ++ [t])%list;
                  processing := processing (gate s);
                  lastRequestTime := lastRequestTime (gate s);
                  requestInterval := requestInterval (gate s) |};
       loop := loop s; clock := now;
       submitted := (submitted s ++ [t])%list; started := started s |}).
  { unfold fifo in *. simpl. rewrite List.app_assoc, H. reflexivity. }
  unfold execute. cbv zeta. destruct (processing (gate s)).
  - exact Hpush.
  - apply processQueue_fifo. exact Hpush.
Qed.

Lemma step_fifo (ev : event) (s s' : system) :
  fifo s -> step ev s = Some s' -> fifo s'.
Proof.
  intros H Hstep. destruct ev as [t now now'|now|now now']; simpl in Hstep.
  - destruct ((clock s <=? now)%Z && (now <=? now')%Z); [|discriminate].
    injection Hstep as <-. apply execute_fifo. exact H.
  - destruct (loop s) as [|since ms|]; try discriminate.
    destruct ((clock s <=? now)%Z && (since + earliest ms <=? now)%Z); [|discriminate].
    injection Hstep as <-. apply resume_fifo. exact H.
  - destruct (loop s); try discriminate.
    destruct ((clock s <=? now)%Z && (now <=? now')%Z); [|discriminate].
    injection Hstep as <-. apply processQueue_fifo. exact H.
Qed.

Lemma run_fifo (evs : list event) :
  forall s s', fifo s -> run evs s = Some s' -> fifo s'.
Proof.
  induction evs as [|ev evs IH]; simpl; intros s s' H Hrun.
  - injection Hrun as <-. exact H.
  - destruct (step ev s) as [s1|] eqn:Es; [|discriminate].
    apply (IH s1 s'); [apply (step_fifo ev s); assumption | assumption].
Qed.

(** *** The interval is never changed *)

Lemma step_interval (ev : event) (s s' : system) :
  step ev s = Some s' -> requestInterval (gate s') = requestInterval (gate s).
Proof.
  intro Hstep. destruct ev as [t now now'|now|now now']; simpl in Hstep.
  - destruct ((clock s <=? now)%Z && (now <=? now')%Z); [|discriminate].
    injection Hstep as <-. unfold execute, processQueue, resume. cbv zeta.
    destruct (processing (gate s)); [reflexivity|]. simpl.
    destruct (queue (gate s) ++ [t])%list; [reflexivity|].
    destruct (before _ _); [reflexivity|]. simpl. reflexivity.
  - destruct (loop s) as [|since ms|]; try discriminate.
    destruct ((clock s <=? now)%Z && (since + earliest ms <=? now)%Z); [|discriminate].
    injection Hstep as <-. unfold resume. cbv zeta.
    destruct (queue (gate s)); reflexivity.
  - destruct (loop s); try discriminate.
    destruct ((clock s <=? now)%Z && (now <=? now')%Z); [|discriminate].
    injection Hstep as <-. unfold processQueue, resume. cbv zeta.
    destruct (queue (gate s)); [reflexivity|].
    destruct (before _ _); reflexivity.
Qed.

Lemma run_interval (evs : list event) :
  forall s s', run evs s = Some s' ->
               requestInterval (gate s') = requestInterval (gate s).
Proof.
  induction evs as [|ev evs IH]; simpl; intros s s' Hrun.
  - injection Hrun as <-. reflexivity.
  - destruct (step ev s) as [s1|] eqn:Es; [|discriminate].
    rewrite (IH s1 s' Hrun). apply (step_interval ev). exact Es.
Qed.

(** *** Spacing, for an interval within the range of a timer *)









End LimiterFacts.

(** *** C1 *)




(** ** Tool handlers *)

Module HandlerFacts.
Import Server.

Section Facts.
Variable W : Type.
Variable JSON_stringify : value -> string.
Variable trending_window : W -> value -> string * string.
Variable eutilsClient : EUtilsClient W.
Variable pmcClient : PMCClient W.

Lemma rethrows_ret {A : Type} (a : A) : rethrows W (ret W a).
Proof.
  intros st res st' [= <- <-]. exists []. split.
  - unfold extends. rewrite List.app_nil_r. reflexivity.
  - intros req e [].
Qed.

Lemma rethrows_throw {A : Type} (e : thrown) : rethrows W (@throw W A e).
Proof.
  intros st res st' [= <- <-]. exists []. split.
  - unfold extends. rewrite List.app_nil_r. reflexivity.
  - intros req e' [].
Qed.

Lemma rethrows_lift {A : Type} (c : completion A) : rethrows W (lift W c).
Proof.
  intros st res st' [= <- <-]. exists []. split.
  - unfold extends. rewrite List.app_nil_r. reflexivity.
  - intros req e' [].
Qed.

Lemma rethrows_read {A : Type} (f : session W -> A) :
  rethrows W (fun st => (Normal (f st), st)).
Proof.
  intros st res st' [= <- <-]. exists []. split.
  - unfold extends. rewrite List.app_nil_r. reflexivity.
  - intros req e' [].
Qed.

Lemma rethrows_await {R : Type} (req : request) (method : W -> completion R * W) :
  rethrows W (await W req method).
Proof.
  intros st res st'. unfold await.
  destruct (method (remote W st)) as [r w'] eqn:E. intros [= <- <-].
  exists [(req, failure r)]. split; [reflexivity|].
  intros req' e [[= _ H] | []]. destruct r; simpl in H; [discriminate | congruence].
Qed.

Lemma rethrows_bind {A B : Type} (m : M W A) (k : A -> M W B) :
  rethrows W m -> (forall a, rethrows W (k a)) -> rethrows W (bind W m k).
Proof.
  intros Hm Hk st res st'. unfold bind.
  destruct (m st) as [[a | e1] st1] eqn:E1; intro H.
  - destruct (Hm _ _ _ E1) as (new1 & X1 & F1).
    destruct (Hk a _ _ _ H) as (new2 & X2 & F2).
    exists (new1 ++ new2)%list. split.
    + unfold extends in *. rewrite X2, X1, List.app_assoc. reflexivity.
    + intros req e Hin. apply in_app_or in Hin as [Hin | Hin].
      * specialize (F1 req e Hin). discriminate.
      * apply (F2 req e Hin).
  - injection H as <- <-. destruct (Hm _ _ _ E1) as (new & X & F).
    exists new. split; [exact X|].
    intros req e Hin. specialize (F req e Hin). congruence.
Qed.

Lemma rethrows_destructure (args : value) : rethrows W (destructure W args).
Proof.
  unfold destructure.
  destruct (JsOps.is_nullish args); [apply rethrows_throw | apply rethrows_ret].
Qed.

Lemma rethrows_fetch_chunks (chunks : list (list value)) :
  forall acc, rethrows W (fetch_chunks W eutilsClient chunks acc).
Proof.
  induction chunks as [|chunk rest IH]; intro acc; simpl.
  - apply rethrows_ret.
  - apply rethrows_bind; [apply rethrows_await | intro a; apply IH].
Qed.

(** The recurring steps of a proof that a handler rethrows. *)
Ltac rethrow :=
  repeat first
    [ apply rethrows_ret
    | apply rethrows_throw
    | apply rethrows_lift
    | apply rethrows_await
    | apply rethrows_read
    | apply rethrows_destructure
    | apply rethrows_fetch_chunks
    | apply rethrows_bind; [|intro]
    | match goal with
      | |- rethrows _ (if ?b then _ else _) => destruct b
      | |- rethrows _ (match ?x with _ => _ end) => destruct x
      end ].

Lemma rethrows_handleSearchArticles (args : value) :
  rethrows W (handleSearchArticles W JSON_stringify eutilsClient args).
Proof. unfold handleSearchArticles, eutils_search. rethrow. Qed.

Lemma rethrows_handleAdvancedSearch (args : value) :
  rethrows W (handleAdvancedSearch W JSON_stringify eutilsClient args).
Proof.
  unfold handleAdvancedSearch, eutils_search, push_field, push_group. rethrow.
Qed.

Lemma rethrows_handleSearchByAuthor (args : value) :
  rethrows W (handleSearchByAuthor W JSON_stringify eutilsClient args).
Proof. unfold handleSearchByAuthor, eutils_search. rethrow. Qed.

Lemma rethrows_handleSearchByJournal (args : value) :
  rethrows W (handleSearchByJournal W JSON_stringify eutilsClient args).
Proof. unfold handleSearchByJournal, eutils_search. rethrow. Qed.

Lemma rethrows_handleSearchByMeshTerms (args : value) :
  rethrows W (handleSearchByMeshTerms W JSON_stringify eutilsClient args).
Proof. unfold handleSearchByMeshTerms, eutils_search. rethrow. Qed.

Lemma rethrows_handleGetTrendingArticles (args : value) :
  rethrows W
    (handleGetTrendingArticles W JSON_stringify trending_window eutilsClient args).
Proof. unfold handleGetTrendingArticles, eutils_search. rethrow. Qed.

Lemma rethrows_handleGetArticleDetails (args : value) :
  rethrows W (handleGetArticleDetails W JSON_stringify eutilsClient args).
Proof. unfold handleGetArticleDetails, require_pmid, article_details. rethrow. Qed.

Lemma rethrows_handleGetAbstract (args : value) :
  rethrows W (handleGetAbstract W JSON_stringify eutilsClient args).
Proof. unfold handleGetAbstract, require_pmid, article_details. rethrow. Qed.

Lemma rethrows_handleGetFullText (args : value) :
  rethrows W (handleGetFullText W JSON_stringify pmcClient args).
Proof. unfold handleGetFullText. rethrow. Qed.

Lemma rethrows_handleBatchArticleLookup (args : value) :
  rethrows W (handleBatchArticleLookup W JSON_stringify eutilsClient args).
Proof. unfold handleBatchArticleLookup. rethrow. Qed.

Lemma rethrows_handleGetCitedBy (args : value) :
  rethrows W (handleGetCitedBy W JSON_stringify eutilsClient args).
Proof. unfold handleGetCitedBy, require_pmid. rethrow. Qed.

Lemma rethrows_handleGetReferences (args : value) :
  rethrows W (handleGetReferences W JSON_stringify eutilsClient args).
Proof. unfold handleGetReferences, require_pmid. rethrow. Qed.

Lemma rethrows_handleGetSimilarArticles (args : value) :
  rethrows W (handleGetSimilarArticles W JSON_stringify eutilsClient args).
Proof. unfold handleGetSimilarArticles, require_pmid. rethrow. Qed.

Lemma rethrows_handleExportCitation (args : value) :
  rethrows W (handleExportCitation W JSON_stringify eutilsClient args).
Proof. unfold handleExportCitation, require_pmid, article_details. rethrow. Qed.

(** A [try] whose body rethrows and whose [catch] only builds an answer
    catches. *)
Lemma catches_try_catch {A : Type} (m : M W A) (answer : thrown -> A) :
  rethrows W m -> catches W (try_catch W m (fun e => ret W (answer e))) answer.
Proof.
  intros Hm st res st'. unfold try_catch, ret.
  destruct (m st) as [[a | e0] st1] eqn:E; intros [= <- <-];
    destruct (Hm _ _ _ E) as (new & X & F); exists new;
    (split; [exact X | split; [eexists; reflexivity|]]);
    intros req e Hin; specialize (F req e Hin); congruence.
Qed.

Lemma rethrows_convert_by_search (term : string) :
  rethrows W (convert_by_search W eutilsClient term).
Proof. unfold convert_by_search, eutils_search, article_details. rethrow. Qed.

End Facts.

End HandlerFacts.

(** *** C5 *)

Module BatchFacts.

Lemma first_invalid_found (items : list value) :
  (exists p, In p items /\ isValidPMID (Js.ToString p) = false) ->
  exists pmid,
    Server.first_invalid items = Some pmid
    /\ In pmid items /\ isValidPMID (Js.ToString pmid) = false.
Proof.
  intros (p & Hin & Hp). unfold Server.first_invalid.
  destruct (List.find _ items) as [q|] eqn:E.
  - exists q. apply List.find_some in E as [Hq Hv].
    apply negb_true_iff in Hv. auto.
  - pose proof (List.find_none _ _ E p Hin) as H. simpl in H.
    rewrite Hp in H. discriminate.
Qed.

End BatchFacts.

(** C5, as stated, fails for [validate_pmid]: given a [pmid] that is no
    PMID, it raises nothing and answers with a result that says so (no
    client call is made).  Besides, [convert_identifiers] told that the
    identifier is a [pmid] does not check it and looks it up. *)
Lemma validate_pmid_answers_malformed_pmid :
  In ("validate_pmid",
      Server.handleValidatePMID unit Samples.stringify Samples.offline_eutils)
     (Server.tool_handlers unit Samples.stringify Samples.today
        Samples.offline_eutils Samples.offline_pmc)
  /\ isValidPMID (Js.ToString (Server.arg Samples.malformed_pmid "pmid")) = false
  /\ Server.handleValidatePMID unit Samples.stringify Samples.offline_eutils
       Samples.malformed_pmid (Server.fresh unit tt)
     = (Normal (Server.pmid_malformed Samples.stringify (VStr "12a")),
        Server.fresh unit tt)
  /\ Server.handleConvertIdentifiers unit Samples.stringify Samples.offline_eutils
       Samples.malformed_identifier (Server.fresh unit tt)
     = (Normal (Server.conversion_failed Samples.stringify (VStr "12a") (VStr "pmid")
                  (Error "offline")),
        {| Server.remote := tt;
           Server.requests :=
             [(Server.Request "eutilsClient.getArticleDetails" [VStr "12a"],
               Some (Error "offline"))] |}).
Proof.
  split; [|repeat split].
  simpl. do 14 right. left. reflexivity.
Qed.

(** C5, amended. For every tool call with arguments: if its [pmid] fails
    [isValidPMID], each of [get_article_details], [get_abstract],
    [get_cited_by], [get_references], [get_similar_articles] and
    [export_citation] raises [Invalid PMID format: <pmid>], while
    [validate_pmid] returns a result reporting the malformed PMID; and if
    its [pmids] is no array, is empty, has more than 200 elements or has
    an element that fails [isValidPMID], [batch_article_lookup] raises the
    matching error.  In every case no client method is called: the
    session is left as it was. *)
Theorem malformed_identifier_rejected_before_any_call
        (W : Type) (JSON_stringify : value -> string)
        (eutilsClient : Server.EUtilsClient W)
        (args : value) (st : Server.session W) :
  JsOps.is_nullish args = false ->
  (isValidPMID (Js.ToString (Server.arg args "pmid")) = false ->
   (forall h,
       In h (Server.pmid_handlers W JSON_stringify eutilsClient) ->
       h args st = (Abrupt (Server.invalid_pmid (Server.arg args "pmid")), st))
   /\ Server.handleValidatePMID W JSON_stringify eutilsClient args st
      = (Normal (Server.pmid_malformed JSON_stringify (Server.arg args "pmid")), st))
  /\ ((forall items, Server.arg args "pmids" <> VArr items) ->
      Server.handleBatchArticleLookup W JSON_stringify eutilsClient args st
      = (Abrupt (Error "pmids must be a non-empty array"), st))
  /\ (forall items,
         Server.arg args "pmids" = VArr items ->
         items = [] \/ (200 < List.length items)%nat
         \/ (exists p, In p items /\ isValidPMID (Js.ToString p) = false) ->
         exists message,
           Server.handleBatchArticleLookup W JSON_stringify eutilsClient args st
           = (Abrupt (Error message), st)
           /\ (message = "pmids must be a non-empty array" /\ items = []
               \/ message = "Maximum 200 PMIDs allowed per batch"
                  /\ (200 < List.length items)%nat
               \/ exists p, In p items /\ isValidPMID (Js.ToString p) = false
                            /\ message = "Invalid PMID format: " ++ Js.ToString p)).
Proof.
  intro Hargs. split; [|split].
  - intro Hpmid. split.
    + intros h Hin. simpl in Hin.
      repeat (destruct Hin as [<- | Hin]);
        try (cbv [Server.handleGetArticleDetails Server.handleGetAbstract
                  Server.handleGetCitedBy Server.handleGetReferences
                  Server.handleGetSimilarArticles Server.handleExportCitation
                  Server.destructure Server.require_pmid Server.bind
                  Server.throw Server.ret];
             rewrite Hargs, Hpmid; reflexivity).
      contradiction.
    + cbv [Server.handleValidatePMID Server.destructure Server.bind Server.ret].
      rewrite Hargs, Hpmid. reflexivity.
  - intro Hno.
    cbv [Server.handleBatchArticleLookup Server.destructure Server.bind
         Server.throw Server.ret].
    rewrite Hargs.
    destruct (Server.arg args "pmids") as [| | | | |items|] eqn:E; try reflexivity.
    exfalso. apply (Hno items). reflexivity.
  - intros items Hitems Hbad.
    cbv [Server.handleBatchArticleLookup Server.destructure Server.bind
         Server.throw Server.ret].
    rewrite Hargs, Hitems.
    destruct items as [|p0 rest].
    + eexists. split; [reflexivity|]. left. split; reflexivity.
    + destruct (200 <? List.length (p0 :: rest))%nat eqn:Elen.
      * eexists. split; [reflexivity|]. right. left.
        split; [reflexivity | apply Nat.ltb_lt; exact Elen].
      * destruct Hbad as [Hnil | [Hlen | Hinv]].
        -- discriminate.
        -- apply Nat.ltb_lt in Hlen. congruence.
        -- destruct (BatchFacts.first_invalid_found _ Hinv) as (q & Hq & Hin & Hv).
           rewrite Hq. eexists. split; [reflexivity|].
           right. right. exists q. repeat split; assumption.
Qed.

Lemma malformed_identifier_rejected_before_any_call_witness :
  (forall h,
      In h (Server.pmid_handlers unit Samples.stringify Samples.offline_eutils) ->
      h Samples.malformed_pmid (Server.fresh unit tt)
      = (Abrupt (Error "Invalid PMID format: 12a"), Server.fresh unit tt))
  /\ (exists message,
         Server.handleBatchArticleLookup unit Samples.stringify Samples.offline_eutils
           Samples.malformed_pmid (Server.fresh unit tt)
         = (Abrupt (Error message), Server.fresh unit tt)).
Proof.
  destruct (malformed_identifier_rejected_before_any_call
              unit Samples.stringify Samples.offline_eutils
              Samples.malformed_pmid (Server.fresh unit tt) eq_refl)
    as (Hpmid & _ & Hbatch).
  split.
  - exact (proj1 (Hpmid eq_refl)).
  - destruct (Hbatch [VStr "1"; VStr "12a"] eq_refl) as (message & Hm & _).
    + right. right. exists (VStr "12a"). split; [right; left; reflexivity | reflexivity].
    + exists message. exact Hm.
Defined.

(** *** C10 *)

(** C10, as stated, fails in its last clause: [validate_pmid] does not
    rethrow an upstream failure either, it answers that the article was
    not found. *)
Lemma validate_pmid_swallows_upstream_failure :
  Server.handleValidatePMID unit Samples.stringify Samples.offline_eutils
    Samples.valid_pmid (Server.fresh unit tt)
  = (Normal (Server.pmid_not_found Samples.stringify (VStr "123")),
     {| Server.remote := tt;
        Server.requests :=
          [(Server.Request "eutilsClient.getArticleDetails" [VStr "123"],
            Some (Error "offline"))] |})
  /\ ~ Server.rethrows unit
         (Server.handleValidatePMID unit Samples.stringify Samples.offline_eutils
            Samples.valid_pmid).
Proof.
  split; [reflexivity|].
  intro H. destruct (H (Server.fresh unit tt) _ _ eq_refl) as (new & X & F).
  unfold Server.extends in X. simpl in X. subst new.
  specialize (F _ _ (or_introl eq_refl)). discriminate.
Qed.

(** C10, amended. For every call of [convert_identifiers] with arguments
    whose identifier type is resolved (given, or detected by a
    validator), the handler ends normally, and if a client call it made
    has failed, with a success block that carries the input identifier,
    the type, an empty conversions object and the extracted message of
    that failure.  [validate_pmid] catches upstream failures as well (it
    answers that the article was not found); each of the other fourteen
    tool handlers rethrows them. *)
Theorem convert_identifiers_catches_upstream_failure
        (W : Type) (JSON_stringify : value -> string)
        (trending_window : W -> value -> string * string)
        (eutilsClient : Server.EUtilsClient W) (pmcClient : Server.PMCClient W)
        (args inputType : value) :
  JsOps.is_nullish args = false ->
  Server.detect_type (Server.arg args "identifier")
    (Server.arg_or args "identifier_type" (VStr "auto")) = Normal inputType ->
  Server.catches W
    (Server.handleConvertIdentifiers W JSON_stringify eutilsClient args)
    (Server.conversion_failed JSON_stringify (Server.arg args "identifier") inputType)
  /\ (forall args',
         JsOps.is_nullish args' = false ->
         isValidPMID (Js.ToString (Server.arg args' "pmid")) = true ->
         Server.catches W
           (Server.handleValidatePMID W JSON_stringify eutilsClient args')
           (fun _ => Server.pmid_not_found JSON_stringify (Server.arg args' "pmid")))
  /\ (forall name h,
         In (name, h)
            (Server.tool_handlers W JSON_stringify trending_window
               eutilsClient pmcClient) ->
         name <> "validate_pmid" -> name <> "convert_identifiers" ->
         forall args', Server.rethrows W (h args')).
Proof.
  intros Hargs Htype. split; [|split].
  - intros st res st'.
    cbv [Server.handleConvertIdentifiers Server.destructure].
    rewrite Hargs. cbv [Server.bind Server.ret Server.lift].
    rewrite Htype.
    apply (HandlerFacts.catches_try_catch W).
    apply HandlerFacts.rethrows_bind; [|intro; apply HandlerFacts.rethrows_ret].
    repeat match goal with
           | |- Server.rethrows _ (if ?b then _ else _) => destruct b
           | |- Server.rethrows _ (match ?x with _ => _ end) => destruct x
           end;
      try apply HandlerFacts.rethrows_convert_by_search;
      try apply HandlerFacts.rethrows_throw;
      try apply HandlerFacts.rethrows_ret.
    apply HandlerFacts.rethrows_bind;
      [apply HandlerFacts.rethrows_await | intro; apply HandlerFacts.rethrows_ret].
  - intros args' Hargs' Hvalid st res st'.
    cbv [Server.handleValidatePMID Server.destructure].
    rewrite Hargs'. cbv [Server.bind Server.ret]. rewrite Hvalid. cbv [negb].
    apply (HandlerFacts.catches_try_catch W _
             (fun _ => Server.pmid_not_found JSON_stringify (Server.arg args' "pmid"))).
    apply HandlerFacts.rethrows_bind;
      [apply HandlerFacts.rethrows_await | intro; apply HandlerFacts.rethrows_ret].
  - intros name h Hin Hv Hc args'. simpl in Hin.
    repeat (destruct Hin as [[= <- <-] | Hin]);
      try contradiction;
      try (exfalso; apply Hv; reflexivity);
      try (exfalso; apply Hc; reflexivity).
    + apply HandlerFacts.rethrows_handleSearchArticles.
    + apply HandlerFacts.rethrows_handleAdvancedSearch.
    + apply HandlerFacts.rethrows_handleSearchByAuthor.
    + apply HandlerFacts.rethrows_handleSearchByJournal.
    + apply HandlerFacts.rethrows_handleSearchByMeshTerms.
    + apply HandlerFacts.rethrows_handleGetTrendingArticles.
    + apply HandlerFacts.rethrows_handleGetArticleDetails.
    + apply HandlerFacts.rethrows_handleGetAbstract.
    + apply HandlerFacts.rethrows_handleGetFullText.
    + apply HandlerFacts.rethrows_handleBatchArticleLookup.
    + apply HandlerFacts.rethrows_handleGetCitedBy.
    + apply HandlerFacts.rethrows_handleGetReferences.
    + apply HandlerFacts.rethrows_handleGetSimilarArticles.
    + apply HandlerFacts.rethrows_handleExportCitation.
Qed.

Lemma convert_identifiers_catches_upstream_failure_witness :
  Server.catches unit
    (Server.handleConvertIdentifiers unit Samples.stringify Samples.offline_eutils
       Samples.valid_identifier)
    (Server.conversion_failed Samples.stringify (VStr "12345") (VStr "pmid"))
  /\ Server.handleConvertIdentifiers unit Samples.stringify Samples.offline_eutils
       Samples.valid_identifier (Server.fresh unit tt)
     = (Normal (Server.conversion_failed Samples.stringify (VStr "12345") (VStr "pmid")
                  (Error "offline")),
        {| Server.remote := tt;
           Server.requests :=
             [(Server.Request "eutilsClient.getArticleDetails" [VStr "12345"],
               Some (Error "offline"))] |}).
Proof.
  split; [|reflexivity].
  exact (proj1 (convert_identifiers_catches_upstream_failure
                  unit Samples.stringify Samples.today
                  Samples.offline_eutils Samples.offline_pmc
                  Samples.valid_identifier (VStr "pmid") eq_refl eq_refl)).
Defined.

(* ================================================================= *)
(** * Part III: further properties of the code *)
(* ================================================================= *)

(** ** [chunkArray] *)

Module ChunkFacts.

Lemma chunks_from_concat {A : Type} (size : nat) :
  forall fuel (l : list A),
    (0 < size)%nat -> (List.length l <= fuel)%nat ->
    List.concat (chunks_from fuel size l) = l.
Proof.
  induction fuel as [|fuel IH]; intros l Hs Hl.
  - destruct l; [reflexivity | simpl in Hl; lia].
  - destruct l as [|x l]; [reflexivity|].
    cbn [chunks_from List.concat]. rewrite IH.
    + apply List.firstn_skipn.
    + exact Hs.
    + rewrite List.length_skipn. simpl List.length in *. lia.
Qed.

Lemma chunks_from_sizes {A : Type} (size : nat) :
  forall fuel (l : list A),
    (0 < size)%nat -> (List.length l <= fuel)%nat ->
    Forall (fun c => (1 <= List.length c <= size)%nat) (chunks_from fuel size l).
Proof.
  induction fuel as [|fuel IH]; intros l Hs Hl.
  - constructor.
  - destruct l as [|x l]; [constructor|].
    cbn [chunks_from]. constructor.
    + rewrite List.length_firstn. simpl List.length in *. lia.
    + apply IH; [exact Hs|].
      rewrite List.length_skipn. simpl List.length in *. lia.
Qed.

Lemma chunks_from_count {A : Type} (size : nat) :
  forall fuel (l : list A),
    (0 < size)%nat -> (List.length l <= fuel)%nat ->
    List.length (chunks_from fuel size l) = ((List.length l + size - 1) / size)%nat.
Proof.
  induction fuel as [|fuel IH]; intros l Hs Hl.
  - destruct l; [|simpl in Hl; lia]. simpl.
    symmetry. apply Nat.div_small. lia.
  - destruct l as [|x l].
    + simpl. symmetry. apply Nat.div_small. lia.
    + cbn [chunks_from List.length]. rewrite IH.
      * rewrite List.length_skipn. cbn [List.length].
        destruct (Nat.le_gt_cases size (S (List.length l))) as [Hle | Hgt].
        -- replace (S (List.length l) + size - 1)%nat
             with ((S (List.length l) - size + size - 1) + 1 * size)%nat by lia.
           rewrite Nat.div_add by lia. lia.
        -- replace (S (List.length l) - size)%nat with 0%nat by lia.
           rewrite (Nat.div_small (0 + size - 1)) by lia.
           assert (H : ((S (List.length l) + size - 1) / size = 1)%nat).
           { replace (S (List.length l) + size - 1)%nat
               with (List.length l + 1 * size)%nat by lia.
             rewrite Nat.div_add by lia. rewrite Nat.div_small by lia. reflexivity. }
           rewrite H. reflexivity.
      * exact Hs.
      * rewrite List.length_skipn. simpl List.length in *. lia.
Qed.

Lemma chunks_from_full {A : Type} (size : nat) :
  forall fuel (l : list A),
    (0 < size)%nat -> (List.length l <= fuel)%nat ->
    Forall (fun c => List.length c = size)
           (List.removelast (chunks_from fuel size l)).
Proof.
  induction fuel as [|fuel IH]; intros l Hs Hl.
  - constructor.
  - destruct l as [|x l]; [constructor|].
    cbn [chunks_from].
    assert (Hk : (List.length (List.skipn size (x :: l)) <= fuel)%nat).
    { rewrite List.length_skipn. simpl List.length in *. lia. }
    destruct (chunks_from fuel size (List.skipn size (x :: l))) as [|c rest] eqn:E.
    + constructor.
    + change (List.removelast (List.firstn size (x :: l) :: c :: rest))
        with (List.firstn size (x :: l) :: List.removelast (c :: rest)).
      constructor.
      * rewrite List.length_firstn.
        assert (Hne : List.skipn size (x :: l) <> []).
        { intro Hnil. rewrite Hnil in E. destruct fuel; discriminate E. }
        assert (Hlen : List.length (List.skipn size (x :: l)) <> 0%nat).
        { intro H0. apply List.length_zero_iff_nil in H0. contradiction. }
        rewrite List.length_skipn in Hlen. lia.
      * rewrite <- E. apply IH; assumption.
Qed.

End ChunkFacts.

(** X1. For a positive size, [chunkArray] splits the array without
    losing, repeating or reordering anything: the chunks put end to end
    are the array, no chunk is empty, none is longer than the size, every
    chunk but the last has exactly the size, and there are as many chunks
    as the length of the array divided by the size, rounded up. *)
Theorem chunkArray_partitions {A : Type} (array : list A) (size : nat) :
  (0 < size)%nat ->
  List.concat (chunkArray array size) = array
  /\ Forall (fun c => (1 <= List.length c <= size)%nat) (chunkArray array size)
  /\ Forall (fun c => List.length c = size) (List.removelast (chunkArray array size))
  /\ List.length (chunkArray array size)
     = ((List.length array + size - 1) / size)%nat.
Proof.
  intro Hs. unfold chunkArray. repeat split.
  - apply ChunkFacts.chunks_from_concat; [exact Hs | lia].
  - apply ChunkFacts.chunks_from_sizes; [exact Hs | lia].
  - apply ChunkFacts.chunks_from_full; [exact Hs | lia].
  - apply ChunkFacts.chunks_from_count; [exact Hs | lia].
Qed.

Lemma chunkArray_partitions_witness :
  List.concat (chunkArray [1; 2; 3; 4; 5]%nat 2) = [1; 2; 3; 4; 5]%nat
  /\ Forall (fun c => (1 <= List.length c <= 2)%nat) (chunkArray [1; 2; 3; 4; 5]%nat 2)
  /\ Forall (fun c => List.length c = 2%nat)
       (List.removelast (chunkArray [1; 2; 3; 4; 5]%nat 2))
  /\ List.length (chunkArray [1; 2; 3; 4; 5]%nat 2) = ((5 + 2 - 1) / 2)%nat.
Proof. apply (chunkArray_partitions [1; 2; 3; 4; 5]%nat 2). lia. Defined.

(** ** [retryWithBackoff], any number of attempts *)

Module RetryFacts.

Lemma backoffs_succ (b : Z) (k : nat) :
  Expect.backoffs b (S k)
  = (Expect.backoffs b k
     ++ [Retry.Invoked; Retry.Waited (b * 2 ^ Z.of_nat k)%Z])%list.
Proof.
  unfold Expect.backoffs. rewrite List.seq_S, List.map_app, List.concat_app.
  simpl. reflexivity.
Qed.

Lemma calls_app (t u : list Retry.event) :
  Expect.calls (t ++ u) = (Expect.calls t + Expect.calls u)%nat.
Proof.
  unfold Expect.calls. rewrite List.filter_app, List.length_app. reflexivity.
Qed.

Lemma waited_app (t u : list Retry.event) :
  Expect.waited (t ++ u) = (Expect.waited t + Expect.waited u)%Z.
Proof.
  induction t as [|ev t IH]; [reflexivity|].
  change (Expect.waited ((ev :: t) ++ u))
    with (match ev with
          | Retry.Invoked => Expect.waited (t ++ u)
          | Retry.Waited d => (d + Expect.waited (t ++ u))%Z
          end).
  change (Expect.waited (ev :: t))
    with (match ev with
          | Retry.Invoked => Expect.waited t
          | Retry.Waited d => (d + Expect.waited t)%Z
          end).
  rewrite IH. destruct ev; lia.
Qed.

Lemma calls_backoffs (b : Z) (k : nat) : Expect.calls (Expect.backoffs b k) = k.
Proof.
  induction k as [|k IH]; [reflexivity|].
  rewrite backoffs_succ, calls_app, IH. unfold Expect.calls. simpl. lia.
Qed.

Lemma waited_backoffs (b : Z) (k : nat) :
  Expect.waited (Expect.backoffs b k) = (b * (2 ^ Z.of_nat k - 1))%Z.
Proof.
  induction k as [|k IH]; [simpl; lia|].
  rewrite backoffs_succ, waited_app, IH. simpl Expect.waited.
  rewrite Nat2Z.inj_succ, Z.pow_succ_r by lia. lia.
Qed.

Section Loop.
Context {T W : Type}.
Variable fn : W -> completion T * W.
Variable maxRetries : nat.
Variable baseDelay : Z.

(** The loop after [i] failed attempts, when the next [k] fail too and
    the one after succeeds within the budget. *)
Lemma attempts_success (k : nat) :
  forall remaining i lastError w w' w'' trace result,
    Expect.failures fn k w w' ->
    fn w' = (Normal result, w'') ->
    (k < remaining)%nat -> (i + remaining = maxRetries)%nat ->
    Retry.attempts fn maxRetries baseDelay remaining i lastError w trace
    = (Normal result, w'',
       (trace
        ++ List.concat
             (List.map
                (fun j => [Retry.Invoked; Retry.Waited (baseDelay * 2 ^ Z.of_nat j)%Z])
                (List.seq i k))
        ++ [Retry.Invoked])%list).
Proof.
  induction k as [|k IH]; intros remaining i lastError w w' w'' trace result Hf Hs Hk Hi.
  - revert Hi. inversion Hf; subst. intro Hi.
    destruct remaining as [|remaining]; [lia|].
    cbn [Retry.attempts]. rewrite Hs. reflexivity.
  - revert Hi. inversion Hf as [|k' w0 e w1 w2 He Hrest]; subst. intro Hi.
    destruct remaining as [|remaining]; [lia|].
    cbn [Retry.attempts]. rewrite He.
    assert (Hlt : (Z.of_nat i <? Z.of_nat maxRetries - 1)%Z = true)
      by (apply Z.ltb_lt; lia).
    rewrite Hlt.
    rewrite (IH remaining (S i) _ w1 w' w'' _ result Hrest Hs) by lia.
    cbn [List.seq List.map List.concat]. rewrite <- !List.app_assoc. reflexivity.
Qed.

(** The loop when every remaining attempt fails. *)
Lemma attempts_exhausted (k : nat) :
  forall i lastError w w' trace,
    Expect.failures fn (S k) w w' ->
    (i + S k = maxRetries)%nat ->
    exists e,
      Retry.attempts fn maxRetries baseDelay (S k) i lastError w trace
      = (Abrupt (Retry.as_error e), w',
         (trace
          ++ List.concat
               (List.map
                  (fun j => [Retry.Invoked; Retry.Waited (baseDelay * 2 ^ Z.of_nat j)%Z])
                  (List.seq i k))
          ++ [Retry.Invoked])%list).
Proof.
  induction k as [|k IH]; intros i lastError w w' trace Hf Hi.
  - revert Hi. inversion Hf as [|k' w0 e w1 w2 He Hrest]; subst.
    inversion Hrest; subst. intro Hi.
    exists e. cbn [Retry.attempts]. rewrite He.
    assert (Hlt : (Z.of_nat i <? Z.of_nat maxRetries - 1)%Z = false)
      by (apply Z.ltb_ge; lia).
    rewrite Hlt. reflexivity.
  - revert Hi. inversion Hf as [|k' w0 e w1 w2 He Hrest]; subst. intro Hi.
    destruct (IH (S i) (Some (Retry.as_error e)) w1 w'
                 (trace ++ [Retry.Invoked; Retry.Waited (baseDelay * 2 ^ Z.of_nat i)%Z])%list
                 Hrest ltac:(lia)) as [e' He'].
    exists e'. cbn [Retry.attempts] in *. rewrite He.
    assert (Hlt : (Z.of_nat i <? Z.of_nat maxRetries - 1)%Z = true)
      by (apply Z.ltb_lt; lia).
    rewrite Hlt, He'.
    cbn [List.seq List.map List.concat]. rewrite <- !List.app_assoc. reflexivity.
Qed.

(** Whatever the task does, the loop calls it at most [remaining] times. *)
Lemma attempts_calls :
  forall remaining i lastError w trace,
    (Expect.calls (snd (Retry.attempts fn maxRetries baseDelay remaining i lastError w trace))
     <= Expect.calls trace + remaining)%nat.
Proof.
  induction remaining as [|remaining IH]; intros i lastError w trace.
  - simpl. lia.
  - cbn [Retry.attempts]. destruct (fn w) as [[result | error] w1].
    + simpl. rewrite calls_app. unfold Expect.calls. simpl. lia.
    + eapply Nat.le_trans; [apply IH|].
      destruct (Z.of_nat i <? Z.of_nat maxRetries - 1)%Z; rewrite calls_app;
        unfold Expect.calls; simpl; lia.
Qed.

End Loop.

End RetryFacts.

(** X2. If the task fails [k] times and then succeeds, with [k] below
    [maxRetries], [retryWithBackoff] returns the result of that call; the
    task was called [k + 1] times, [baseDelay * 2^i] milliseconds were
    awaited after the failed call [i], [baseDelay * (2^k - 1)] in all, and
    nothing is awaited after the success. *)
Theorem retryWithBackoff_recovers
        {T W : Type} (fn : W -> completion T * W)
        (maxRetries k : nat) (baseDelay : Z) (w w' w'' : W) (result : T) :
  Expect.failures fn k w w' ->
  fn w' = (Normal result, w'') ->
  (k < maxRetries)%nat ->
  Retry.retryWithBackoff fn (Some maxRetries) (Some baseDelay) w
  = (Normal result, w'', (Expect.backoffs baseDelay k ++ [Retry.Invoked])%list)
  /\ Expect.calls (Expect.backoffs baseDelay k ++ [Retry.Invoked]) = S k
  /\ Expect.waited (Expect.backoffs baseDelay k ++ [Retry.Invoked])
     = (baseDelay * (2 ^ Z.of_nat k - 1))%Z.
Proof.
  intros Hf Hs Hk. split; [|split].
  - unfold Retry.retryWithBackoff.
    rewrite (RetryFacts.attempts_success fn maxRetries baseDelay k
               maxRetries 0 None w w' w'' [] result Hf Hs Hk eq_refl).
    reflexivity.
  - rewrite RetryFacts.calls_app, RetryFacts.calls_backoffs.
    unfold Expect.calls. simpl. lia.
  - rewrite RetryFacts.waited_app, RetryFacts.waited_backoffs.
    unfold Expect.waited. simpl. lia.
Qed.

(** X3. If the task fails on each of its first [n] calls, [n] being a
    positive [maxRetries], [retryWithBackoff] raises an [Error] after
    exactly [n] calls, having awaited [baseDelay * 2^i] milliseconds after
    the failed call [i] for [i < n - 1], [baseDelay * (2^(n-1) - 1)] in
    all, and nothing after the last call. *)
Theorem retryWithBackoff_exhausts
        {T W : Type} (fn : W -> completion T * W)
        (n : nat) (baseDelay : Z) (w w' : W) :
  Expect.failures fn (S n) w w' ->
  exists e,
    @Retry.retryWithBackoff T W fn (Some (S n)) (Some baseDelay) w
    = (Abrupt (Retry.as_error e), w',
       (Expect.backoffs baseDelay n ++ [Retry.Invoked])%list)
    /\ Expect.calls (Expect.backoffs baseDelay n ++ [Retry.Invoked]) = S n
    /\ Expect.waited (Expect.backoffs baseDelay n ++ [Retry.Invoked])
       = (baseDelay * (2 ^ Z.of_nat n - 1))%Z.
Proof.
  intro Hf.
  destruct (RetryFacts.attempts_exhausted fn (S n) baseDelay n 0 None w w' [] Hf eq_refl)
    as [e He].
  exists e. split; [|split].
  - unfold Retry.retryWithBackoff. rewrite He. reflexivity.
  - rewrite RetryFacts.calls_app, RetryFacts.calls_backoffs.
    unfold Expect.calls. simpl. lia.
  - rewrite RetryFacts.waited_app, RetryFacts.waited_backoffs.
    unfold Expect.waited. simpl. lia.
Qed.

(** X4. Whatever the task does, [retryWithBackoff] never calls it more
    than [maxRetries] times; with [maxRetries] 0 it does not call it at
    all and raises [Max retries exceeded]. *)
Theorem retryWithBackoff_bounded
        {T W : Type} (fn : W -> completion T * W)
        (maxRetries : nat) (baseDelay : option Z) (w : W) :
  (Expect.calls (snd (Retry.retryWithBackoff fn (Some maxRetries) baseDelay w))
   <= maxRetries)%nat
  /\ Retry.retryWithBackoff fn (Some 0%nat) baseDelay w
     = (Abrupt (Error "Max retries exceeded"), w, []).
Proof.
  split; [|reflexivity].
  unfold Retry.retryWithBackoff.
  apply (RetryFacts.attempts_calls fn maxRetries _ maxRetries 0 None w []).
Qed.

Lemma retryWithBackoff_recovers_witness :
  Retry.retryWithBackoff MoreSamples.flaky (Some 3%nat) (Some 1000%Z) 0%nat
  = (Normal (VStr "ok"), 3%nat, (Expect.backoffs 1000 2 ++ [Retry.Invoked])%list)
  /\ Expect.calls (Expect.backoffs 1000 2 ++ [Retry.Invoked]) = 3%nat
  /\ Expect.waited (Expect.backoffs 1000 2 ++ [Retry.Invoked])
     = (1000 * (2 ^ Z.of_nat 2 - 1))%Z.
Proof.
  apply (retryWithBackoff_recovers MoreSamples.flaky 3 2 1000 0%nat 2%nat 3%nat (VStr "ok")).
  - apply (Expect.failures_more _ 1 0%nat (Error "busy") 1%nat 2%nat); [reflexivity|].
    apply (Expect.failures_more _ 0 1%nat (Error "busy") 2%nat 2%nat); [reflexivity|].
    apply Expect.failures_none.
  - reflexivity.
  - lia.
Defined.

Lemma retryWithBackoff_exhausts_witness :
  exists e,
    Retry.retryWithBackoff Samples.always_error (Some 2%nat) (Some 1000%Z) 0%nat
    = (Abrupt (Retry.as_error e), 2%nat,
       (Expect.backoffs 1000 1 ++ [Retry.Invoked])%list)
    /\ Expect.calls (Expect.backoffs 1000 1 ++ [Retry.Invoked]) = 2%nat
    /\ Expect.waited (Expect.backoffs 1000 1 ++ [Retry.Invoked])
       = (1000 * (2 ^ Z.of_nat 1 - 1))%Z.
Proof.
  apply (retryWithBackoff_exhausts Samples.always_error 1 1000 0%nat 2%nat).
  apply (Expect.failures_more _ 1 0%nat (Error "timeout") 1%nat 2%nat); [reflexivity|].
  apply (Expect.failures_more _ 0 1%nat (Error "timeout") 2%nat 2%nat); [reflexivity|].
  apply Expect.failures_none.
Defined.

(** ** [sanitizeSearchTerm] *)

Module SanitizeFacts.

Definition kept (c : ascii) : bool :=
  search_term_char c && (negb (is_space c) || Ascii.eqb c " ").

Lemma single_cons (c d : ascii) (r : string) :
  Expect.single_spaced (String c (String d r))
  = negb (is_space c && is_space d) && Expect.single_spaced (String d r).
Proof. reflexivity. Qed.

Lemma all_imp (p q : ascii -> bool) (s : string) :
  (forall c, p c = true -> q c = true) -> all p s = true -> all q s = true.
Proof.
  intro H. induction s as [|c s IH]; simpl; [reflexivity|].
  intro E. apply andb_true_iff in E as [Ec Es].
  rewrite (H c Ec), (IH Es). reflexivity.
Qed.

(** After the first replacement every character is of the kept class. *)
Lemma replace_each_class (t : string) :
  all search_term_char (replace_each (fun c => negb (search_term_char c)) " " t) = true.
Proof.
  induction t as [|c t IH]; simpl; [reflexivity|].
  destruct (search_term_char c) eqn:E; simpl; rewrite ?E, IH; reflexivity.
Qed.

(** After the second, whitespace is single spaces. *)
Lemma replace_runs_kept (s : string) :
  all search_term_char s = true ->
  forall b, all kept (replace_runs_from b is_space " " s) = true.
Proof.
  induction s as [|c s IH]; simpl; intros H b; [reflexivity|].
  apply andb_true_iff in H as [Hc Hs].
  destruct (is_space c) eqn:E.
  - destruct b; simpl; rewrite (IH Hs); reflexivity.
  - simpl. rewrite (IH Hs). unfold kept. rewrite Hc, E. reflexivity.
Qed.

Lemma replace_runs_single (s : string) :
  forall b,
    Expect.single_spaced (replace_runs_from b is_space " " s) = true
    /\ (b = true -> no_lead (replace_runs_from b is_space " " s)).
Proof.
  induction s as [|c s IH]; intro b; [split; [reflexivity | intros _; exact I]|].
  cbn [replace_runs_from]. destruct (is_space c) eqn:E.
  - destruct b.
    + apply IH.
    + split; [|discriminate].
      destruct (IH true) as [H1 H2]. specialize (H2 eq_refl).
      change (" " ++ replace_runs_from true is_space " " s)
        with (String " " (replace_runs_from true is_space " " s)).
      destruct (replace_runs_from true is_space " " s) as [|d r] eqn:Er; [reflexivity|].
      rewrite single_cons. simpl in H2. rewrite H2.
      rewrite andb_false_r. simpl. exact H1.
  - destruct (IH false) as [H1 _]. split.
    + destruct (replace_runs_from false is_space " " s) as [|d r] eqn:Er; [reflexivity|].
      rewrite single_cons, E. simpl. exact H1.
    + intros _. exact E.
Qed.

(** Trimming keeps both. *)
Lemma all_trimStart (p : ascii -> bool) (s : string) :
  all p s = true -> all p (trimStart s) = true.
Proof.
  induction s as [|c s IH]; simpl; [reflexivity|]. intro H.
  destruct (is_space c); [|exact H].
  apply andb_true_iff in H as [_ H]. apply IH, H.
Qed.

Lemma all_trimEnd (p : ascii -> bool) (s : string) :
  all p s = true -> all p (trimEnd s) = true.
Proof.
  induction s as [|c s IH]; simpl; [reflexivity|]. intro H.
  apply andb_true_iff in H as [Hc Hs].
  destruct (is_space c && is_empty (trimEnd s)); [reflexivity|].
  simpl. rewrite Hc, (IH Hs). reflexivity.
Qed.

Lemma single_tail (c : ascii) (s : string) :
  Expect.single_spaced (String c s) = true -> Expect.single_spaced s = true.
Proof.
  destruct s as [|d r]; [reflexivity|]. rewrite single_cons.
  intro H. apply andb_true_iff in H as [_ H]. exact H.
Qed.

Lemma single_trimStart (s : string) :
  Expect.single_spaced s = true -> Expect.single_spaced (trimStart s) = true.
Proof.
  induction s as [|c s IH]; [reflexivity|]. intro H. cbn [trimStart].
  destruct (is_space c); [|exact H]. apply IH, (single_tail c), H.
Qed.

Lemma trimEnd_head (s : string) (d : ascii) (r : string) :
  trimEnd s = String d r -> exists r0, s = String d r0.
Proof.
  destruct s as [|c s]; simpl; [discriminate|].
  destruct (is_space c && is_empty (trimEnd s)); [discriminate|].
  intros [= -> _]. eexists; reflexivity.
Qed.

Lemma single_trimEnd (s : string) :
  Expect.single_spaced s = true -> Expect.single_spaced (trimEnd s) = true.
Proof.
  induction s as [|c s IH]; [reflexivity|]. intro H. cbn [trimEnd].
  destruct (is_space c && is_empty (trimEnd s)); [reflexivity|].
  destruct (trimEnd s) as [|d r] eqn:Et; [reflexivity|].
  destruct (trimEnd_head s d r Et) as [r0 ->].
  rewrite single_cons in *.
  apply andb_true_iff in H as [Hcd Hs]. rewrite Hcd. simpl.
  apply IH. exact Hs.
Qed.

(** A tidy string is left as it is by each step. *)
Lemma replace_each_fixed (s : string) :
  all search_term_char s = true ->
  replace_each (fun c => negb (search_term_char c)) " " s = s.
Proof.
  induction s as [|c s IH]; simpl; [reflexivity|]. intro H.
  apply andb_true_iff in H as [Hc Hs]. rewrite Hc, (IH Hs). reflexivity.
Qed.

Lemma replace_runs_fixed (s : string) :
  all kept s = true -> Expect.single_spaced s = true ->
  replace_runs_from false is_space " " s = s
  /\ (no_lead s -> replace_runs_from true is_space " " s = s).
Proof.
  induction s as [|c s IH]; [split; reflexivity|]. intros Hk Hs.
  cbn [all] in Hk. apply andb_true_iff in Hk as [Hc Hk].
  destruct (IH Hk (single_tail c s Hs)) as [IH1 IH2].
  cbn [replace_runs_from]. destruct (is_space c) eqn:E.
  - split; [|intro Hn; simpl in Hn; congruence].
    unfold kept in Hc. rewrite E in Hc. simpl in Hc.
    apply andb_true_iff in Hc as [_ Hc]. apply Ascii.eqb_eq in Hc. subst c.
    change (" " ++ replace_runs_from true is_space " " s)
      with (String " " (replace_runs_from true is_space " " s)).
    rewrite IH2; [reflexivity|].
    destruct s as [|d r]; [exact I|]. rewrite single_cons in Hs.
    apply andb_true_iff in Hs as [Hs _]. simpl in Hs.
    simpl. destruct (is_space d); [discriminate | reflexivity].
  - split; [|intros _]; rewrite IH1; reflexivity.
Qed.

Lemma sanitize_tidy (term : string) : Expect.tidy (sanitizeSearchTerm term).
Proof.
  unfold Expect.tidy, sanitizeSearchTerm, replace_runs.
  set (b := replace_each (fun c => negb (search_term_char c)) " " term).
  pose proof (replace_each_class term) as Hb. fold b in Hb.
  pose proof (replace_runs_kept b Hb false) as Hk.
  pose proof (proj1 (replace_runs_single b false)) as Hs.
  split; [|split].
  - unfold trim. apply all_trimEnd, all_trimStart. exact Hk.
  - unfold trim. apply single_trimEnd, single_trimStart. exact Hs.
  - apply TrimFacts.trim_idem.
Qed.

Lemma sanitize_fixed (s : string) : Expect.tidy s -> sanitizeSearchTerm s = s.
Proof.
  intros (Hk & Hs & Ht). unfold sanitizeSearchTerm, replace_runs.
  rewrite replace_each_fixed.
  - rewrite (proj1 (replace_runs_fixed s Hk Hs)). exact Ht.
  - apply (all_imp _ _ _ (fun c H => proj1 (andb_prop _ _ H)) Hk).
Qed.

End SanitizeFacts.


(** X6. [sanitizeSearchTerm] leaves a tidy term as it is, brackets and
    quotes included; hence it is idempotent. *)
Theorem sanitizeSearchTerm_idempotent (term : string) :
  (Expect.tidy term -> sanitizeSearchTerm term = term)
  /\ sanitizeSearchTerm (sanitizeSearchTerm term) = sanitizeSearchTerm term.
Proof.
  split.
  - apply SanitizeFacts.sanitize_fixed.
  - apply SanitizeFacts.sanitize_fixed, SanitizeFacts.sanitize_tidy.
Qed.

Lemma sanitizeSearchTerm_idempotent_witness :
  sanitizeSearchTerm "stem-cell [Title] (mouse)" = "stem-cell [Title] (mouse)".
Proof.
  apply (proj1 (sanitizeSearchTerm_idempotent "stem-cell [Title] (mouse)")).
  repeat split.
Defined.

(** ** The identifier validators *)

Module ValidatorFacts.
Import Regex.

Lemma Lang_seq (a b : regex) (s : string) :
  Lang (Seq a b) s <-> exists s1 s2, s = s1 ++ s2 /\ Lang a s1 /\ Lang b s2.
Proof.
  split.
  - intro H. inversion H; subst. eauto.
  - intros (s1 & s2 & -> & H1 & H2). constructor; assumption.
Qed.

Lemma Lang_class (p : ascii -> bool) (s : string) :
  Lang (Class p) s <-> exists c, s = String c "" /\ p c = true.
Proof.
  split.
  - intro H. inversion H; subst. eauto.
  - intros (c & -> & H). constructor. exact H.
Qed.

Lemma Lang_atleast_class (p : ascii -> bool) (n : nat) :
  forall s, Lang (AtLeast n (Class p)) s
            <-> (n <= String.length s)%nat /\ all p s = true.
Proof.
  induction n as [|n IH]; intro s; cbn [AtLeast].
  - rewrite RegexFacts.Lang_star_class. split; [intro H; split; [lia | exact H] | tauto].
  - rewrite Lang_seq. split.
    + intros (s1 & s2 & -> & H1 & H2). apply Lang_class in H1 as (c & -> & Hc).
      apply IH in H2 as [Hn Ha]. simpl. rewrite Hc, Ha. split; [lia | reflexivity].
    + intros [Hn Ha]. destruct s as [|c s]; [simpl in Hn; lia|].
      simpl in Ha, Hn. apply andb_true_iff in Ha as [Hc Ha].
      exists (String c ""), s. split; [reflexivity|]. split.
      * constructor. exact Hc.
      * apply IH. split; [lia | exact Ha].
Qed.

Lemma Lang_lit_seq (c : ascii) (r : regex) (s : string) :
  Lang (Seq (Lit c) r) s <-> exists t, s = String c t /\ Lang r t.
Proof.
  rewrite Lang_seq. split.
  - intros (s1 & s2 & -> & H1 & H2). apply Lang_class in H1 as (d & -> & Hd).
    apply Ascii.eqb_eq in Hd. subst d. exists s2. split; [reflexivity | exact H2].
  - intros (t & -> & H). exists (String c ""), t.
    split; [reflexivity|]. split; [|exact H].
    constructor. apply Ascii.eqb_refl.
Qed.

Lemma Lang_litI_seq (c : ascii) (r : regex) (s : string) :
  Lang (Seq (LitI c) r) s
  <-> exists d t, s = String d t /\ upper_char d = upper_char c /\ Lang r t.
Proof.
  rewrite Lang_seq. split.
  - intros (s1 & s2 & -> & H1 & H2). apply Lang_class in H1 as (d & -> & Hd).
    apply Ascii.eqb_eq in Hd. exists d, s2.
    split; [reflexivity | split; [exact Hd | exact H2]].
  - intros (d & t & -> & Hd & H). exists (String d ""), t.
    split; [reflexivity|]. split; [|exact H].
    constructor. apply Ascii.eqb_eq. exact Hd.
Qed.

(** What a DOI is to [isValidDOI]. *)
Lemma isValidDOI_shape (s : string) :
  isValidDOI s = true <->
  exists registrant suffix,
    s = "10." ++ registrant ++ "/" ++ suffix
    /\ (4 <= String.length registrant)%nat /\ all is_digit registrant = true
    /\ suffix <> "" /\ all (fun c => negb (is_space c)) suffix = true.
Proof.
  unfold isValidDOI. rewrite RegexFacts.test_Lang.
  rewrite Lang_lit_seq. split.
  - intros (t1 & -> & H). apply Lang_lit_seq in H as (t2 & -> & H).
    apply Lang_lit_seq in H as (t3 & -> & H).
    apply Lang_seq in H as (ds & t4 & -> & Hd & H).
    apply Lang_atleast_class in Hd as [Hn Hd].
    apply Lang_lit_seq in H as (suffix & -> & H).
    apply RegexFacts.Lang_plus_class in H as [Hne Hs].
    exists ds, suffix. repeat split; try assumption.
    apply StringFacts.is_empty_false. exact Hne.
  - intros (ds & suffix & -> & Hn & Hd & Hne & Hs).
    exists ("0." ++ ds ++ "/" ++ suffix). split; [reflexivity|].
    apply Lang_lit_seq. exists ("." ++ ds ++ "/" ++ suffix). split; [reflexivity|].
    apply Lang_lit_seq. exists (ds ++ "/" ++ suffix). split; [reflexivity|].
    apply Lang_seq. exists ds, ("/" ++ suffix). split; [reflexivity|]. split.
    + apply Lang_atleast_class. split; assumption.
    + apply Lang_lit_seq. exists suffix. split; [reflexivity|].
      apply RegexFacts.Lang_plus_class. split; [|exact Hs].
      apply StringFacts.is_empty_false. exact Hne.
Qed.

(** What a PMC ID is to [isValidPMCID]. *)
Lemma isValidPMCID_shape (s : string) :
  isValidPMCID s = true <->
  exists p m c digits,
    s = String p (String m (String c digits))
    /\ upper_char p = "P"%char /\ upper_char m = "M"%char /\ upper_char c = "C"%char
    /\ digits <> "" /\ all is_digit digits = true.
Proof.
  unfold isValidPMCID. rewrite RegexFacts.test_Lang.
  rewrite Lang_litI_seq. split.
  - intros (p & t1 & -> & Hp & H). apply Lang_litI_seq in H as (m & t2 & -> & Hm & H).
    apply Lang_litI_seq in H as (c & t3 & -> & Hc & H).
    apply RegexFacts.Lang_plus_class in H as [Hne Hd].
    exists p, m, c, t3. repeat split; try assumption.
    apply StringFacts.is_empty_false. exact Hne.
  - intros (p & m & c & ds & -> & Hp & Hm & Hc & Hne & Hd).
    exists p, (String m (String c ds)). split; [reflexivity|]. split; [exact Hp|].
    apply Lang_litI_seq. exists m, (String c ds). split; [reflexivity|].
    split; [exact Hm|].
    apply Lang_litI_seq. exists c, ds. split; [reflexivity|]. split; [exact Hc|].
    apply RegexFacts.Lang_plus_class. split; [|exact Hd].
    apply StringFacts.is_empty_false. exact Hne.
Qed.

Lemma isValidPMID_shape (s : string) :
  isValidPMID s = true <-> s <> "" /\ all is_digit s = true.
Proof.
  unfold isValidPMID.
  rewrite RegexFacts.test_Lang, RegexFacts.Lang_plus_class, StringFacts.is_empty_false.
  reflexivity.
Qed.

Lemma upper_P_not_digit (c : ascii) : upper_char c = "P"%char -> is_digit c = false.
Proof.
  destruct c as [[] [] [] [] [] [] [] []]; vm_compute; intro H;
    try reflexivity; discriminate H.
Qed.

Lemma digit_plain (c : ascii) :
  is_digit c = true -> is_space c = false /\ upper_char c = c.
Proof.
  destruct c as [[] [] [] [] [] [] [] []]; vm_compute; intro H;
    try discriminate H; split; reflexivity.
Qed.

Lemma upper_letter_not_space (c d : ascii) :
  upper_char c = d -> is_space d = false -> is_space c = false.
Proof. intros <- H. rewrite TrimFacts.is_space_upper in H. exact H. Qed.

Lemma digits_plain (s : string) :
  all is_digit s = true ->
  all (fun c => negb (is_space c)) s = true /\ toUpperCase s = s.
Proof.
  unfold toUpperCase. induction s as [|c s IH]; simpl; [split; reflexivity|].
  intro H. apply andb_true_iff in H as [Hc Hs].
  destruct (digit_plain c Hc) as [Hsp Hup]. destruct (IH Hs) as [IH1 IH2].
  rewrite Hsp, IH1, Hup, IH2. split; reflexivity.
Qed.

Lemma append_nil_r (s : string) : s ++ "" = s.
Proof. induction s as [|c s IH]; simpl; [reflexivity | rewrite IH; reflexivity]. Qed.

(** A string without whitespace is left as it is by [trim]. *)
Lemma trim_no_space (s : string) :
  all (fun c => negb (is_space c)) s = true -> trim s = s.
Proof.
  intro H. unfold trim.
  rewrite TrimFacts.trimStart_no_lead.
  - pose proof (TrimFacts.trimEnd_app_word s "" H) as E.
    simpl trimEnd in E. rewrite append_nil_r in E. exact E.
  - destruct s as [|c s]; [exact I|]. simpl in *.
    apply andb_true_iff in H as [H _]. apply negb_true_iff in H. exact H.
Qed.

Lemma normalizePMCID_prefixed (x : string) :
  startsWith (normalizePMCID x) "PMC" = true.
Proof.
  unfold normalizePMCID.
  destruct (startsWith (toUpperCase (trim x)) "PMC") eqn:E; [exact E | reflexivity].
Qed.

Lemma normalizePMCID_of_valid (s : string) :
  isValidPMCID s = true ->
  normalizePMCID s = "PMC" ++ PMC.skip 3 s
  /\ isValidPMCID (normalizePMCID s) = true.
Proof.
  intro H. apply isValidPMCID_shape in H
    as (p & m & c & ds & -> & Hp & Hm & Hc & Hne & Hd).
  destruct (digits_plain ds Hd) as [Hsp Hup].
  assert (E : normalizePMCID (String p (String m (String c ds))) = "PMC" ++ ds).
  { unfold normalizePMCID. rewrite trim_no_space.
    - unfold toUpperCase in *. simpl JsString.map. rewrite Hp, Hm, Hc, Hup.
      reflexivity.
    - simpl. rewrite Hsp.
      rewrite (upper_letter_not_space p "P" Hp eq_refl).
      rewrite (upper_letter_not_space m "M" Hm eq_refl).
      rewrite (upper_letter_not_space c "C" Hc eq_refl).
      reflexivity. }
  split; [exact E|]. rewrite E.
  apply isValidPMCID_shape.
  exists "P"%char, "M"%char, "C"%char, ds. repeat split; assumption.
Qed.

End ValidatorFacts.

(** X7. No string is valid for two of [isValidPMID], [isValidDOI] and
    [isValidPMCID]; so the auto-detection of [convert_identifiers] does
    not depend on the order of its tests: it answers [pmid], [doi] or
    [pmcid] exactly when the validator of that name accepts the
    identifier, and fails exactly when none does. *)
Theorem detect_type_unambiguous (identifier : value) :
  let s := Js.ToString identifier in
  (isValidPMID s = true -> isValidDOI s = false /\ isValidPMCID s = false)
  /\ (isValidDOI s = true -> isValidPMCID s = false)
  /\ (Server.detect_type identifier (VStr "auto") = Normal (VStr "pmid")
      <-> isValidPMID s = true)
  /\ (Server.detect_type identifier (VStr "auto") = Normal (VStr "doi")
      <-> isValidDOI s = true)
  /\ (Server.detect_type identifier (VStr "auto") = Normal (VStr "pmcid")
      <-> isValidPMCID s = true)
  /\ (Server.detect_type identifier (VStr "auto")
      = Abrupt (Error "Unable to auto-detect identifier type")
      <-> isValidPMID s = false /\ isValidDOI s = false /\ isValidPMCID s = false).
Proof.
  intro s.
  assert (H1 : isValidPMID s = true -> isValidDOI s = false /\ isValidPMCID s = false).
  { intro Hp. apply ValidatorFacts.isValidPMID_shape in Hp as [_ Hd]. split.
    - destruct (isValidDOI s) eqn:E; [|reflexivity].
      apply ValidatorFacts.isValidDOI_shape in E as (r & x & E & _).
      rewrite E in Hd. simpl in Hd. discriminate Hd.
    - destruct (isValidPMCID s) eqn:E; [|reflexivity].
      apply ValidatorFacts.isValidPMCID_shape in E as (p & m & c & ds & E & Hp & _).
      rewrite E in Hd. simpl in Hd.
      rewrite (ValidatorFacts.upper_P_not_digit p Hp) in Hd. discriminate Hd. }
  assert (H2 : isValidDOI s = true -> isValidPMCID s = false).
  { intro Hd. destruct (isValidPMCID s) eqn:E; [|reflexivity].
    apply ValidatorFacts.isValidPMCID_shape in E as (p & m & c & ds & E & Hp & _).
    apply ValidatorFacts.isValidDOI_shape in Hd as (r & x & E' & _).
    rewrite E in E'. injection E' as -> _. vm_compute in Hp. discriminate Hp. }
  split; [exact H1|]. split; [exact H2|].
  unfold Server.detect_type. simpl JsOps.is_string. fold s.
  destruct (isValidPMID s) eqn:Ep.
  - destruct (H1 eq_refl) as [Ed Ec]. rewrite Ed, Ec.
    repeat split; intros; try discriminate; try reflexivity;
      try (destruct H as (? & ? & ?); discriminate).
  - destruct (isValidDOI s) eqn:Ed.
    + rewrite (H2 eq_refl).
      repeat split; intros; try discriminate; try reflexivity;
        try (destruct H as (? & ? & ?); discriminate).
    + destruct (isValidPMCID s) eqn:Ec;
        repeat split; intros; try discriminate; try reflexivity;
          try (destruct H as (? & ? & ?); discriminate).
Qed.

(** X8. [normalizePMCID] makes a valid PMC ID of every valid PMC ID,
    whatever its case, and of every PMID: the result is [PMC] followed by
    the digits, and [isValidPMCID] accepts it. *)
Theorem normalizePMCID_valid (s : string) :
  (isValidPMID s = true ->
   normalizePMCID s = "PMC" ++ s /\ isValidPMCID (normalizePMCID s) = true)
  /\ (isValidPMCID s = true ->
      normalizePMCID s = "PMC" ++ PMC.skip 3 s
      /\ isValidPMCID (normalizePMCID s) = true).
Proof.
  split.
  - intro H. apply ValidatorFacts.isValidPMID_shape in H as [Hne Hd].
    destruct (ValidatorFacts.digits_plain s Hd) as [Hsp Hup].
    assert (E : normalizePMCID s = "PMC" ++ s).
    { unfold normalizePMCID. rewrite (ValidatorFacts.trim_no_space s Hsp), Hup.
      destruct s as [|c s]; [congruence|]. simpl in Hd.
      apply andb_true_iff in Hd as [Hc _].
      destruct (startsWith (String c s) "PMC") eqn:Es; [|reflexivity].
      cbn [startsWith] in Es. apply andb_true_iff in Es as [Es _].
      apply Ascii.eqb_eq in Es. subst c. discriminate Hc. }
    split; [exact E|]. rewrite E.
    apply ValidatorFacts.isValidPMCID_shape.
    exists "P"%char, "M"%char, "C"%char, s. repeat split; assumption.
  - apply ValidatorFacts.normalizePMCID_of_valid.
Qed.

Lemma normalizePMCID_valid_witness :
  (normalizePMCID "12345" = "PMC" ++ "12345"
   /\ isValidPMCID (normalizePMCID "12345") = true)
  /\ (normalizePMCID "pmc777" = "PMC" ++ PMC.skip 3 "pmc777"
      /\ isValidPMCID (normalizePMCID "pmc777") = true).
Proof.
  split.
  - apply (proj1 (normalizePMCID_valid "12345")). reflexivity.
  - apply (proj2 (normalizePMCID_valid "pmc777")). reflexivity.
Defined.

(** X9. For every string, the record [getFullText] asks for is
    [oai:pubmedcentral.nih.gov:] followed by the normalized identifier
    without its [PMC] prefix; for a valid PMC ID, whatever its case, that
    is the digits of the identifier. *)
Theorem oai_identifier_digits (pmcid : string) :
  PMC.oai_identifier pmcid
  = "oai:pubmedcentral.nih.gov:" ++ PMC.skip 3 (normalizePMCID pmcid)
  /\ (isValidPMCID pmcid = true ->
      PMC.oai_identifier pmcid = "oai:pubmedcentral.nih.gov:" ++ PMC.skip 3 pmcid
      /\ all is_digit (PMC.skip 3 pmcid) = true).
Proof.
  assert (G : forall x, PMC.replace_first "PMC" "" (normalizePMCID x)
                        = PMC.skip 3 (normalizePMCID x)).
  { intro x. pose proof (ValidatorFacts.normalizePMCID_prefixed x) as Hs.
    destruct (normalizePMCID x) as [|c r]; [discriminate Hs|].
    cbn [PMC.replace_first]. rewrite Hs. reflexivity. }
  split.
  - unfold PMC.oai_identifier. rewrite G. reflexivity.
  - intro H. unfold PMC.oai_identifier. rewrite G.
    destruct (ValidatorFacts.normalizePMCID_of_valid pmcid H) as [E _]. rewrite E.
    apply ValidatorFacts.isValidPMCID_shape in H as (p & m & c & ds & -> & _ & _ & _ & _ & Hd).
    split; [reflexivity | exact Hd].
Qed.

Lemma oai_identifier_digits_witness :
  PMC.oai_identifier "pmc777" = "oai:pubmedcentral.nih.gov:" ++ PMC.skip 3 "pmc777"
  /\ all is_digit (PMC.skip 3 "pmc777") = true.
Proof. apply (proj2 (oai_identifier_digits "pmc777")). reflexivity. Defined.

(** ** The rate limiter: its flag, and progress *)

Module DrainFacts.
Import RateLimiter.

Lemma resume_flag (now : Z) (s : system) :
  processing (gate s) = true -> Expect.flag_sound (resume now s).
Proof.
  intro Hp. unfold resume, Expect.flag_sound. cbv zeta.
  destruct (queue (gate s)); simpl.
  - split; [split; reflexivity | reflexivity].
  - rewrite Hp. split; [split; discriminate | discriminate].
Qed.

Lemma processQueue_flag (now now' : Z) (s : system) :
  Expect.flag_sound (processQueue now now' s).
Proof.
  unfold processQueue. cbv zeta. destruct (queue (gate s)) eqn:Eq.
  - simpl. split; [split; reflexivity | reflexivity].
  - destruct (before _ _).
    + unfold Expect.flag_sound. simpl. split; [split; discriminate | discriminate].
    + apply resume_flag. reflexivity.
Qed.

Lemma step_flag (ev : event) (s s' : system) :
  Expect.flag_sound s -> step ev s = Some s' -> Expect.flag_sound s'.
Proof.
  intros [Hf Hq] Hstep. destruct ev as [t now now'|now|now now']; simpl in Hstep.
  - destruct ((clock s <=? now)%Z && (now <=? now')%Z); [|discriminate].
    injection Hstep as <-. unfold execute. cbv zeta.
    destruct (processing (gate s)) eqn:Ep.
    + unfold Expect.flag_sound. simpl.
      split; [|discriminate]. split; [discriminate|].
      intro Hl. apply Hf in Hl. congruence.
    + apply processQueue_flag.
  - destruct (loop s) as [|since ms|] eqn:El; try discriminate.
    destruct ((clock s <=? now)%Z && (since + earliest ms <=? now)%Z);
      [|discriminate].
    injection Hstep as <-. apply resume_flag.
    destruct (processing (gate s)) eqn:Ep; [reflexivity|].
    first [ apply Hf in Ep; congruence
          | pose proof (proj1 Hf eq_refl) as X; discriminate X ].
  - destruct (loop s) eqn:El; try discriminate.
    destruct ((clock s <=? now)%Z && (now <=? now')%Z); [|discriminate].
    injection Hstep as <-. apply processQueue_flag.
Qed.

Lemma run_flag (evs : list event) :
  forall s s', Expect.flag_sound s -> run evs s = Some s' -> Expect.flag_sound s'.
Proof.
  induction evs as [|ev evs IH]; simpl; intros s s' Hs Hrun.
  - injection Hrun as <-. exact Hs.
  - destruct (step ev s) as [s1|] eqn:Es; [|discriminate].
    apply (IH s1 s'); [apply (step_flag ev s); assumption | assumption].
Qed.

Lemma init_flag (R : Q) (now : Z) : Expect.flag_sound (init R now).
Proof. split; [split; reflexivity | reflexivity]. Qed.

Lemma reachable_flag (R : Q) (s : system) : Expect.reachable R s -> Expect.flag_sound s.
Proof.
  intros (now0 & evs & Hrun). apply (run_flag evs _ _ (init_flag R now0) Hrun).
Qed.

Lemma reachable_fifo (R : Q) (s : system) : Expect.reachable R s -> fifo s.
Proof.
  intros (now0 & evs & Hrun).
  apply (LimiterFacts.run_fifo evs _ _ (eq_refl : fifo (init R now0)) Hrun).
Qed.

Lemma reachable_interval (R : Q) (s : system) :
  Expect.reachable R s -> requestInterval (gate s) = interval_of R.
Proof.
  intros (now0 & evs & Hrun). apply (LimiterFacts.run_interval evs _ _ Hrun).
Qed.

Lemma run_app (evs1 evs2 : list event) :
  forall s s1, run evs1 s = Some s1 -> run (evs1 ++ evs2) s = run evs2 s1.
Proof.
  induction evs1 as [|ev evs1 IH]; simpl; intros s s1 H.
  - injection H as <-. reflexivity.
  - destruct (step ev s) as [s'|]; [|discriminate]. apply (IH s' s1 H).
Qed.

Lemma run_cons (ev : event) (evs : list event) (s s1 : system) :
  step ev s = Some s1 -> run (ev :: evs) s = run evs s1.
Proof. intro H. cbn [run]. rewrite H. reflexivity. Qed.

(** How far the loop is from being done. *)
Definition distance (s : system) : nat :=
  2 * List.length (queue (gate s))
  + match loop s with Running _ => 1 | _ => 0 end.

(** With no further submission, the loop can always run to its end. *)
Lemma drains (n : nat) :
  forall s,
    (distance s < n)%nat -> Expect.flag_sound s ->
    exists evs s',
      run evs s = Some s'
      /\ loop s' = Idle /\ queue (gate s') = []
      /\ submitted s' = submitted s.
Proof.
  induction n as [|n IH]; intros s Hd Hf; [lia|].
  destruct (loop s) as [|since ms|t] eqn:El.
  - exists [], s. split; [reflexivity|]. split; [exact El|]. split; [|reflexivity].
    apply (proj2 Hf). apply (proj1 Hf). exact El.
  - (* the timer fires *)
    set (now := Z.max (clock s) (since + earliest ms)).
    assert (Hstep : step (TimerFired now) s = Some (resume now s)).
    { simpl. rewrite El.
      assert (Hc : (clock s <=? now)%Z = true) by (apply Z.leb_le; unfold now; lia).
      assert (Hq : (since + earliest ms <=? now)%Z = true)
        by (apply Z.leb_le; unfold now; lia).
      rewrite Hc, Hq. reflexivity. }
    assert (Hp : processing (gate s) = true).
    { destruct (processing (gate s)) eqn:Ep; [reflexivity|].
      apply (proj1 Hf) in Ep. congruence. }
    destruct (queue (gate s)) as [|t rest] eqn:Eq.
    + exists [TimerFired now], (resume now s).
      split; [rewrite (run_cons _ _ _ _ Hstep); reflexivity|].
      unfold resume. cbv zeta. rewrite Eq. simpl. repeat split.
    + destruct (IH (resume now s)) as (evs & s' & Hrun & Hl & Hq & Hs).
      * unfold distance in *. rewrite El, Eq in Hd. unfold resume. cbv zeta.
        rewrite Eq. simpl in *. lia.
      * apply resume_flag. exact Hp.
      * exists (TimerFired now :: evs), s'.
        split; [rewrite (run_cons _ _ _ _ Hstep); exact Hrun|].
        split; [exact Hl|]. split; [exact Hq|].
        rewrite Hs. unfold resume. cbv zeta. rewrite Eq. reflexivity.
  - (* the running task settles *)
    assert (Hstep : step (TaskSettled (clock s) (clock s)) s
                    = Some (processQueue (clock s) (clock s) s)).
    { simpl. rewrite El. rewrite Z.leb_refl. reflexivity. }
    destruct (IH (processQueue (clock s) (clock s) s)) as (evs & s' & Hrun & Hl & Hq & Hs).
    + unfold distance in *. rewrite El in Hd. unfold processQueue, resume. cbv zeta.
      destruct (queue (gate s)) as [|t' rest] eqn:Eq; simpl in *; [lia|].
      destruct (before _ _); simpl; lia.
    + apply processQueue_flag.
    + exists (TaskSettled (clock s) (clock s) :: evs), s'.
      split; [rewrite (run_cons _ _ _ _ Hstep); exact Hrun|].
      split; [exact Hl|]. split; [exact Hq|].
      rewrite Hs. unfold processQueue, resume. cbv zeta.
      destruct (queue (gate s)); [reflexivity|]. destruct (before _ _); reflexivity.
Qed.

End DrainFacts.

(** X10. In every state a limiter reaches, [processing] is false exactly
    when its loop is not suspended anywhere, and then nothing is queued:
    every task submitted so far has begun executing. *)
Theorem rate_limiter_idle_means_done (R : Q) (s : RateLimiter.system) :
  Expect.reachable R s ->
  Expect.flag_sound s
  /\ (RateLimiter.processing (RateLimiter.gate s) = false ->
      List.map fst (RateLimiter.started s) = RateLimiter.submitted s).
Proof.
  intro Hr. pose proof (DrainFacts.reachable_flag R s Hr) as Hf.
  split; [exact Hf|]. intro Hp.
  pose proof (DrainFacts.reachable_fifo R s Hr) as H.
  unfold RateLimiter.fifo in H.
  rewrite (proj2 Hf Hp), List.app_nil_r in H. exact H.
Qed.

(** X11. A limiter never gets stuck: from every state it reaches there
    is a continuation, without further submissions, in which the timers
    fire and the running tasks settle until the loop stops, and by then
    every submitted task has begun executing, in submission order. *)
Theorem rate_limiter_drains (R : Q) (s : RateLimiter.system) :
  Expect.reachable R s ->
  exists evs s',
    RateLimiter.run evs s = Some s'
    /\ RateLimiter.processing (RateLimiter.gate s') = false
    /\ RateLimiter.queue (RateLimiter.gate s') = []
    /\ RateLimiter.submitted s' = RateLimiter.submitted s
    /\ List.map fst (RateLimiter.started s') = RateLimiter.submitted s.
Proof.
  intro Hr. pose proof (DrainFacts.reachable_flag R s Hr) as Hf.
  destruct (DrainFacts.drains (S (DrainFacts.distance s)) s (Nat.lt_succ_diag_r _) Hf)
    as (evs & s' & Hrun & Hl & Hq & Hs).
  exists evs, s'. split; [exact Hrun|].
  assert (Hr' : Expect.reachable R s').
  { destruct Hr as (now0 & evs0 & H0). exists now0, (evs0 ++ evs)%list.
    rewrite (DrainFacts.run_app evs0 evs _ _ H0). exact Hrun. }
  pose proof (DrainFacts.reachable_flag R s' Hr') as Hf'.
  split; [apply (proj1 Hf'); exact Hl|]. split; [exact Hq|]. split; [exact Hs|].
  pose proof (DrainFacts.reachable_fifo R s' Hr') as H.
  unfold RateLimiter.fifo in H.
  rewrite Hq, List.app_nil_r, Hs in H. exact H.
Qed.

Lemma rate_limiter_idle_means_done_witness :
  Expect.flag_sound Samples.burst_end
  /\ (RateLimiter.processing (RateLimiter.gate Samples.burst_end) = false ->
      List.map fst (RateLimiter.started Samples.burst_end)
      = RateLimiter.submitted Samples.burst_end).
Proof.
  apply (rate_limiter_idle_means_done 3 Samples.burst_end).
  exists 0%Z, Samples.burst. vm_compute. reflexivity.
Defined.

Lemma rate_limiter_drains_witness :
  exists evs s',
    RateLimiter.run evs MoreSamples.burst_queued = Some s'
    /\ RateLimiter.processing (RateLimiter.gate s') = false
    /\ RateLimiter.queue (RateLimiter.gate s') = []
    /\ RateLimiter.submitted s' = RateLimiter.submitted MoreSamples.burst_queued
    /\ List.map fst (RateLimiter.started s')
       = RateLimiter.submitted MoreSamples.burst_queued.
Proof.
  apply (rate_limiter_drains 3 MoreSamples.burst_queued).
  exists 0%Z, (List.firstn 3 Samples.burst). vm_compute. reflexivity.
Defined.

(** X12. A request submitted to a limiter that is not processing.  For
    [R > 0] it starts at once if a full interval has passed since the
    last start (the queue is empty then); otherwise it waits alone in the
    queue while the loop sleeps for exactly what is left of the interval.
    For [R = 0] the interval is [Infinity]: the request never starts at
    once, it waits in the queue while the loop sleeps. *)
Theorem rate_limiter_lone_request
        (R : Q) (s : RateLimiter.system) (t : RateLimiter.task) (now now' : Z) :
  Expect.reachable R s ->
  RateLimiter.processing (RateLimiter.gate s) = false ->
  (0 < R ->
   (inject_Z (RateLimiter.lastRequestTime (RateLimiter.gate s)) + 1000 / R
    <= inject_Z now ->
    RateLimiter.started (RateLimiter.execute t now now' s)
    = (RateLimiter.started s ++ [(t, now')])%list
    /\ RateLimiter.loop (RateLimiter.execute t now now' s) = RateLimiter.Running t
    /\ RateLimiter.queue (RateLimiter.gate (RateLimiter.execute t now now' s)) = [])
   /\ (inject_Z now
       < inject_Z (RateLimiter.lastRequestTime (RateLimiter.gate s)) + 1000 / R ->
       RateLimiter.started (RateLimiter.execute t now now' s) = RateLimiter.started s
       /\ RateLimiter.loop (RateLimiter.execute t now now' s)
          = RateLimiter.Sleeping now
              (RateLimiter.Finite
                 (1000 / R
                  - inject_Z (now - RateLimiter.lastRequestTime (RateLimiter.gate s))))
       /\ RateLimiter.queue (RateLimiter.gate (RateLimiter.execute t now now' s))
          = [t]))
  /\ (R == 0 ->
      RateLimiter.started (RateLimiter.execute t now now' s) = RateLimiter.started s
      /\ RateLimiter.loop (RateLimiter.execute t now now' s)
         = RateLimiter.Sleeping now RateLimiter.Infinity
      /\ RateLimiter.queue (RateLimiter.gate (RateLimiter.execute t now now' s)) = [t]).
Proof.
  intros Hr Hp.
  pose proof (proj2 (DrainFacts.reachable_flag R s Hr) Hp) as Hq.
  pose proof (DrainFacts.reachable_interval R s Hr) as Hi.
  unfold RateLimiter.execute, RateLimiter.processQueue, RateLimiter.resume. cbv zeta.
  rewrite Hp. cbn [RateLimiter.gate RateLimiter.queue RateLimiter.lastRequestTime
                   RateLimiter.requestInterval].
  rewrite Hq, Hi. cbn [List.app].
  split.
  - intro HR. rewrite (LimiterFacts.interval_of_positive R HR).
    unfold RateLimiter.before, RateLimiter.remaining.
    split; intro H.
    + assert (E : RateLimiter.Qltb
                    (inject_Z (now - RateLimiter.lastRequestTime (RateLimiter.gate s)))
                    (1000 / R) = false).
      { unfold RateLimiter.Qltb. apply negb_false_iff. apply Qle_bool_iff.
        unfold Z.sub. rewrite inject_Z_plus, inject_Z_opp. lra. }
      rewrite E. simpl. repeat split.
    + assert (E : RateLimiter.Qltb
                    (inject_Z (now - RateLimiter.lastRequestTime (RateLimiter.gate s)))
                    (1000 / R) = true).
      { unfold RateLimiter.Qltb. apply negb_true_iff.
        destruct (Qle_bool _ _) eqn:Eb; [|reflexivity].
        apply Qle_bool_iff in Eb.
        unfold Z.sub in Eb. rewrite inject_Z_plus, inject_Z_opp in Eb. lra. }
      rewrite E. simpl. repeat split.
  - intro H0. unfold RateLimiter.interval_of.
    assert (E : Qeq_bool R 0 = true) by (apply Qeq_bool_iff; exact H0).
    rewrite E. simpl. repeat split.
Qed.

Lemma rate_limiter_lone_request_witness :
  (inject_Z (RateLimiter.lastRequestTime (RateLimiter.gate Samples.burst_end)) + 1000 / 3
   <= inject_Z 1500 ->
   RateLimiter.started (RateLimiter.execute 7%nat 1500 1501 Samples.burst_end)
   = (RateLimiter.started Samples.burst_end ++ [(7%nat, 1501%Z)])%list
   /\ RateLimiter.loop (RateLimiter.execute 7%nat 1500 1501 Samples.burst_end)
      = RateLimiter.Running 7%nat
   /\ RateLimiter.queue
        (RateLimiter.gate (RateLimiter.execute 7%nat 1500 1501 Samples.burst_end)) = [])
  /\ (inject_Z 1500
      < inject_Z (RateLimiter.lastRequestTime (RateLimiter.gate Samples.burst_end))
        + 1000 / 3 ->
      RateLimiter.started (RateLimiter.execute 7%nat 1500 1501 Samples.burst_end)
      = RateLimiter.started Samples.burst_end
      /\ RateLimiter.loop (RateLimiter.execute 7%nat 1500 1501 Samples.burst_end)
         = RateLimiter.Sleeping 1500
             (RateLimiter.Finite
                (1000 / 3
                 - inject_Z (1500 - RateLimiter.lastRequestTime
                                      (RateLimiter.gate Samples.burst_end))))
      /\ RateLimiter.queue
           (RateLimiter.gate (RateLimiter.execute 7%nat 1500 1501 Samples.burst_end))
         = [7%nat]).
Proof.
  apply (proj1 (rate_limiter_lone_request 3 Samples.burst_end 7%nat 1500 1501
                  ltac:(exists 0%Z, Samples.burst; vm_compute; reflexivity)
                  eq_refl)).
  reflexivity.
Defined.

(** ** [retryWithBackoff]: what it raises *)

Module RaiseFacts.

Section Loop.
Context {T W : Type}.
Variable fn : W -> completion T * W.
Variable maxRetries : nat.
Variable baseDelay : Z.

(** What the loop raises is the error it was entered with, the default
    one, or the converted error of a call of the task. *)
Lemma attempts_raise :
  forall remaining i lastError w trace e w' trace',
    Retry.attempts fn maxRetries baseDelay remaining i lastError w trace
    = (Abrupt e, w', trace') ->
    (remaining = 0%nat /\ w' = w
     /\ e = match lastError with
            | Some e0 => e0
            | None => Error "Max retries exceeded"
            end)
    \/ exists w0 e0, fn w0 = (Abrupt e0, w') /\ e = Retry.as_error e0.
Proof.
  induction remaining as [|remaining IH]; intros i lastError w trace e w' trace' H.
  - left. cbn [Retry.attempts] in H. inversion H; subst. auto.
  - right. cbn [Retry.attempts] in H.
    destruct (fn w) as [[result | error] w1] eqn:E; [discriminate|].
    cbv zeta in H. apply IH in H. destruct H as [(Hr & Hw & He) | H].
    + subst. exists w, error. split; [exact E | reflexivity].
    + exact H.
Qed.

End Loop.

Lemma as_error_is_error (e : thrown) :
  exists name message, Retry.as_error e = ErrorObj name message.
Proof.
  destruct e as [name message | v]; simpl.
  - exists name, message. reflexivity.
  - exists "Error", (Js.ToString v). reflexivity.
Qed.

End RaiseFacts.

(** X13. Whatever the task raises, what [retryWithBackoff] raises is an
    [Error] object: the error of a call of the task, the one that left
    the world as [retryWithBackoff] leaves it, converted by
    [new Error(String(error))] unless it is an [Error] already; or
    [Max retries exceeded] when [maxRetries] is 0 and the task was never
    called. *)
Theorem retryWithBackoff_raises_error
        {T W : Type} (fn : W -> completion T * W)
        (maxRetries : option nat) (baseDelay : option Z)
        (w w' : W) (e : thrown) (trace : list Retry.event) :
  Retry.retryWithBackoff fn maxRetries baseDelay w = (Abrupt e, w', trace) ->
  (exists name message, e = ErrorObj name message)
  /\ (maxRetries = Some 0%nat /\ w' = w /\ e = Error "Max retries exceeded"
      \/ exists w0 e0, fn w0 = (Abrupt e0, w') /\ e = Retry.as_error e0).
Proof.
  unfold Retry.retryWithBackoff. cbv zeta. intro H.
  apply RaiseFacts.attempts_raise in H.
  destruct H as [(Hr & Hw & He) | (w0 & e0 & Hf & He)].
  - subst. split; [exists "Error", "Max retries exceeded"; reflexivity|]. left.
    destruct maxRetries as [[|n]|]; try discriminate. auto.
  - subst. split; [apply RaiseFacts.as_error_is_error|]. right. eauto.
Qed.

Lemma retryWithBackoff_raises_error_witness :
  (exists name message, Error "boom" = ErrorObj name message)
  /\ (Some 2%nat = Some 0%nat /\ tt = tt /\ Error "boom" = Error "Max retries exceeded"
      \/ exists w0 e0,
           Samples.always_boom w0 = (Abrupt e0, tt)
           /\ Error "boom" = Retry.as_error e0).
Proof.
  apply (retryWithBackoff_raises_error Samples.always_boom (Some 2%nat) None tt tt
           (Error "boom") [Retry.Invoked; Retry.Waited 1000; Retry.Invoked]).
  reflexivity.
Defined.

(** ** [extractText] on any value *)

Module TraverseFacts.

Lemma map_throwing_meets {A : Type} (f : A -> completion value) (g : A -> bool)
      (l : list A) :
  List.Forall
    (fun x => match f x with
              | Abrupt e => g x = true /\ e = null_to_object
              | Normal _ => g x = false
              end) l ->
  match Js.map_throwing f l with
  | Abrupt e => List.existsb g l = true /\ e = null_to_object
  | Normal _ => List.existsb g l = false
  end.
Proof.
  induction 1 as [|x l Hx Hl IH]; [reflexivity|].
  cbn [Js.map_throwing List.existsb].
  destruct (f x) as [y | e].
  - rewrite Hx. cbn [orb].
    change ((fix go (l0 : list A) : completion (list value) :=
               match l0 with
               | [] => Normal []
               | x0 :: rest =>
                   match f x0 with
                   | Normal y0 =>
                       match go rest with
                       | Normal ys => Normal (y0 :: ys)
                       | Abrupt e => Abrupt e
                       end
                   | Abrupt e => Abrupt e
                   end
               end) l) with (Js.map_throwing f l).
    destruct (Js.map_throwing f l); exact IH.
  - destruct Hx as [-> ->]. auto.
Qed.



End TraverseFacts.

(** X14. [extractText] raises exactly when its traversal meets a [null]
    (the value itself, an element of an array, or a member of an object
    that has no truthy [_] member), and what it raises then is always the
    [TypeError] of [Object.values(null)]; on every other value it
    returns. *)
Theorem extractText_raises_iff_null (v : value) :
  match extractText v with
  | Abrupt e => Expect.meets_null v = true /\ e = null_to_object
  | Normal _ => Expect.meets_null v = false
  end.
Proof.
  induction v as [| | b | n | s | items IH | members IH]
    using ExtractFacts.value_induction; try reflexivity.
  - simpl. auto.
  - rewrite ExtractFacts.extractText_arr.
    pose proof (TraverseFacts.map_throwing_meets extractText Expect.meets_null items IH) as H.
    change (Expect.meets_null (VArr items))
      with (List.existsb Expect.meets_null items).
    destruct (Js.map_throwing extractText items); exact H.
  - change (Expect.meets_null (VObj members))
      with (negb (Js.truthy (Js.opt_member (VObj members) "_"))
            && List.existsb (fun member => Expect.meets_null (snd member)) members).
    rewrite ExtractFacts.extractText_obj.
    destruct (Js.truthy (Js.opt_member (VObj members) "_")); [reflexivity|].
    cbn [negb andb].
    pose proof (TraverseFacts.map_throwing_meets (fun member => extractText (snd member))
                  (fun member => Expect.meets_null (snd member)) members) as H.
    destruct (Js.map_throwing (fun member => extractText (snd member)) members);
      apply H; exact IH.
Qed.

(** X15. What [extractText] returns is a string, with one exception: for
    an object that has a truthy [_] member it is that member as it is,
    of whatever type. *)
Theorem extractText_returns_string_or_underscore (v r : value) :
  extractText v = Normal r ->
  (exists s, r = VStr s)
  \/ (exists members,
         v = VObj members /\ Js.lookup "_" members = Some r /\ Js.truthy r = true).
Proof.
  destruct v as [| | b | n | s | items | members]; intro H.
  - inversion H. left. eauto.
  - discriminate.
  - inversion H. left. eauto.
  - inversion H. left. eauto.
  - inversion H. left. eauto.
  - rewrite ExtractFacts.extractText_arr in H.
    destruct (Js.map_throwing extractText items); inversion H. left. eauto.
  - rewrite ExtractFacts.extractText_obj in H.
    destruct (Js.truthy (Js.opt_member (VObj members) "_")) eqn:Et.
    + right. exists members. inversion H; subst. split; [reflexivity|].
      cbn [Js.opt_member] in *.
      destruct (Js.lookup "_" members) as [x|]; [auto | discriminate].
    + destruct (Js.map_throwing _ members); inversion H. left. eauto.
Qed.

Lemma extractText_returns_string_or_underscore_witness :
  (exists s, VArr [VStr "y"; VStr "z"] = VStr s)
  \/ (exists members,
         Samples.underscore_member = VObj members
         /\ Js.lookup "_" members = Some (VArr [VStr "y"; VStr "z"])
         /\ Js.truthy (VArr [VStr "y"; VStr "z"]) = true).
Proof.
  apply (extractText_returns_string_or_underscore Samples.underscore_member
           (VArr [VStr "y"; VStr "z"])).
  reflexivity.
Defined.



(** ** [formatCitation] *)

Module CitationFacts.

Lemma append_assoc (a b c : string) : (a ++ b) ++ c = a ++ b ++ c.
Proof. induction a as [|x a IH]; simpl; [reflexivity | rewrite IH; reflexivity]. Qed.

(** The formatters read the authors from their second argument only. *)
Lemma formatters_ignore_authors (art : Citation.article) (n : nat)
      (l : list Citation.author) (year : string) :
  Citation.formatAPACitation (Expect.with_first_authors n art) l year
  = Citation.formatAPACitation art l year
  /\ Citation.formatMLACitation (Expect.with_first_authors n art) l year
     = Citation.formatMLACitation art l year
  /\ Citation.formatChicagoCitation (Expect.with_first_authors n art) l year
     = Citation.formatChicagoCitation art l year
  /\ Citation.formatBibTeXCitation (Expect.with_first_authors n art) l year
     = Citation.formatBibTeXCitation art l year
  /\ Citation.formatRISCitation (Expect.with_first_authors n art) l year
     = Citation.formatRISCitation art l year.
Proof. repeat split. Qed.

Lemma split_before (c : ascii) (a b : string) :
  includes c a = false ->
  split c (a ++ String c b) = a :: split c b.
Proof.
  induction a as [|x a IH]; intro H.
  - simpl. rewrite Ascii.eqb_refl. reflexivity.
  - simpl in H. apply orb_false_iff in H as [Hx Ha].
    simpl. rewrite Hx, (IH Ha). reflexivity.
Qed.

Lemma split_none (c : ascii) (a : string) :
  includes c a = false -> split c a = [a].
Proof.
  induction a as [|x a IH]; intro H; [reflexivity|].
  simpl in H. apply orb_false_iff in H as [Hx Ha].
  simpl. rewrite Hx, (IH Ha). reflexivity.
Qed.

Lemma includes_app (c : ascii) (a b : string) :
  includes c (a ++ String c b) = true.
Proof.
  induction a as [|x a IH]; simpl.
  - rewrite Ascii.eqb_refl. reflexivity.
  - rewrite IH. apply orb_true_r.
Qed.

Lemma is_empty_app (a : string) (c : ascii) (b : string) :
  is_empty (a ++ String c b) = false.
Proof. destruct a; reflexivity. Qed.

Lemma contains_skip (x t needle : string) :
  contains t needle -> contains (x ++ t) needle.
Proof.
  intros (pre & post & ->). exists (x ++ pre), post.
  rewrite append_assoc. reflexivity.
Qed.

(** A needle of six pieces at the head. *)
Lemma contains_here (x1 x2 x3 x4 x5 x6 post : string) :
  contains (x1 ++ x2 ++ x3 ++ x4 ++ x5 ++ x6 ++ post)
           (x1 ++ x2 ++ x3 ++ x4 ++ x5 ++ x6).
Proof.
  exists "", post. cbn [append]. rewrite !append_assoc. reflexivity.
Qed.



End CitationFacts.

(** X17. Only the first 20 authors of an article reach a citation: in
    every style, the citation of an article is the citation of the same
    article with its list of authors cut after any number of authors
    from 20 on. *)
Theorem formatCitation_first_20_authors
        (art : Citation.article) (style : string) (k : nat) :
  Citation.formatCitation (Expect.with_first_authors (20 + k) art) style
  = Citation.formatCitation art style.
Proof.
  unfold Citation.formatCitation. cbv zeta.
  change (Citation.publicationDate (Expect.with_first_authors (20 + k) art))
    with (Citation.publicationDate art).
  change (Citation.authors (Expect.with_first_authors (20 + k) art))
    with (List.firstn (20 + k) (Citation.authors art)).
  rewrite List.firstn_firstn.
  replace (Nat.min 20 (20 + k)) with 20%nat by lia.
  destruct (CitationFacts.formatters_ignore_authors art (20 + k)
              (List.firstn 20 (Citation.authors art))
              (List.hd "" (split "-" (Citation.publicationDate art))))
    as (-> & -> & -> & -> & ->).
  reflexivity.
Qed.


(** X19. For an article whose [pages] is a range [a-b], neither part
    holding a hyphen, the RIS record has the start page [a] and the end
    page [b], on consecutive lines. *)
Theorem formatCitation_ris_page_range (art : Citation.article) (a b : string) :
  Citation.pages art = Some (a ++ String "-" b) ->
  includes "-" a = false ->
  includes "-" b = false ->
  contains (Citation.formatCitation art "ris")
    ("SP  - " ++ a ++ Citation.nl ++ "EP  - " ++ b ++ Citation.nl).
Proof.
  intros Hp Ha Hb.
  unfold Citation.formatCitation, Citation.formatRISCitation. cbv zeta.
  cbn [String.eqb Ascii.eqb Bool.eqb].
  rewrite Hp. unfold Citation.when at 3 4. cbn [Citation.present].
  rewrite CitationFacts.is_empty_app, CitationFacts.includes_app.
  rewrite (CitationFacts.split_before _ a b Ha), (CitationFacts.split_none _ b Hb).
  cbn [List.hd List.nth].
  rewrite !CitationFacts.append_assoc.
  repeat first [ apply CitationFacts.contains_here | apply CitationFacts.contains_skip ].
Qed.

Lemma formatCitation_ris_page_range_witness :
  contains (Citation.formatCitation MoreSamples.consortium "ris")
    ("SP  - " ++ "e100" ++ Citation.nl ++ "EP  - " ++ "e108" ++ Citation.nl).
Proof.
  apply (formatCitation_ris_page_range MoreSamples.consortium "e100" "e108");
    reflexivity.
Defined.

(** ** What a tool call costs upstream *)

Module TrafficFacts.
Import Server.

Section Facts.
Variable W : Type.
Variable JSON_stringify : value -> string.
Variable trending_window : W -> value -> string * string.
Variable eutilsClient : EUtilsClient W.
Variable pmcClient : PMCClient W.

Lemma extends_nil (st : session W) : extends W st st [].
Proof. unfold extends. rewrite List.app_nil_r. reflexivity. Qed.

Lemma at_most_ret {A : Type} (n : nat) (a : A) : Traffic.at_most W n (ret W a).
Proof. intros st res st' [= <- <-]. exists []. split; [apply extends_nil | simpl; lia]. Qed.

Lemma at_most_throw {A : Type} (n : nat) (e : thrown) :
  Traffic.at_most W n (@throw W A e).
Proof. intros st res st' [= <- <-]. exists []. split; [apply extends_nil | simpl; lia]. Qed.

Lemma at_most_lift {A : Type} (n : nat) (c : completion A) :
  Traffic.at_most W n (lift W c).
Proof. intros st res st' [= <- <-]. exists []. split; [apply extends_nil | simpl; lia]. Qed.

Lemma at_most_read {A : Type} (n : nat) (f : session W -> A) :
  Traffic.at_most W n (fun st => (Normal (f st), st)).
Proof. intros st res st' [= <- <-]. exists []. split; [apply extends_nil | simpl; lia]. Qed.

Lemma at_most_destructure (n : nat) (args : value) :
  Traffic.at_most W n (destructure W args).
Proof.
  unfold destructure.
  destruct (JsOps.is_nullish args); [apply at_most_throw | apply at_most_ret].
Qed.

Lemma at_most_await {R : Type} (n : nat) (req : request)
      (method : W -> completion R * W) :
  Traffic.at_most W (S n) (await W req method).
Proof.
  intros st res st'. unfold await.
  destruct (method (remote W st)) as [r w']. intros [= <- <-].
  exists [(req, failure r)]. split; [reflexivity | simpl; lia].
Qed.

Lemma at_most_bind {A B : Type} (n1 n2 : nat) (m : M W A) (k : A -> M W B) :
  Traffic.at_most W n1 m -> (forall a, Traffic.at_most W n2 (k a)) ->
  Traffic.at_most W (n1 + n2) (bind W m k).
Proof.
  intros Hm Hk st res st'. unfold bind.
  destruct (m st) as [[a | e1] st1] eqn:E1; intro H.
  - destruct (Hm _ _ _ E1) as (new1 & X1 & L1).
    destruct (Hk a _ _ _ H) as (new2 & X2 & L2).
    exists (new1 ++ new2)%list. split.
    + unfold extends in *. rewrite X2, X1, List.app_assoc. reflexivity.
    + rewrite List.length_app. lia.
  - injection H as <- <-. destruct (Hm _ _ _ E1) as (new & X & L).
    exists new. split; [exact X | lia].
Qed.

Lemma at_most_bind0 {A B : Type} (n : nat) (m : M W A) (k : A -> M W B) :
  Traffic.at_most W 0 m -> (forall a, Traffic.at_most W n (k a)) ->
  Traffic.at_most W n (bind W m k).
Proof. exact (at_most_bind 0 n m k). Qed.

Lemma at_most_bind1 {A B : Type} (n : nat) (m : M W A) (k : A -> M W B) :
  Traffic.at_most W 1 m -> (forall a, Traffic.at_most W n (k a)) ->
  Traffic.at_most W (S n) (bind W m k).
Proof. exact (at_most_bind 1 n m k). Qed.

Lemma at_most_bind_last {A B : Type} (n : nat) (m : M W A) (k : A -> M W B) :
  Traffic.at_most W n m -> (forall a, Traffic.at_most W 0 (k a)) ->
  Traffic.at_most W n (bind W m k).
Proof.
  intros Hm Hk st res st' H.
  destruct (at_most_bind n 0 m k Hm Hk st res st' H) as (new & X & L).
  exists new. split; [exact X | lia].
Qed.

Lemma at_most_try_catch {A : Type} (n : nat) (m : M W A) (handler : thrown -> M W A) :
  Traffic.at_most W n m -> (forall e, Traffic.at_most W 0 (handler e)) ->
  Traffic.at_most W n (try_catch W m handler).
Proof.
  intros Hm Hh st res st'. unfold try_catch.
  destruct (m st) as [[a | e1] st1] eqn:E1; intro H.
  - injection H as <- <-. apply (Hm _ _ _ E1).
  - destruct (Hm _ _ _ E1) as (new1 & X1 & L1).
    destruct (Hh e1 _ _ _ H) as (new2 & X2 & L2).
    exists (new1 ++ new2)%list. split.
    + unfold extends in *. rewrite X2, X1, List.app_assoc. reflexivity.
    + rewrite List.length_app. lia.
Qed.

Lemma at_most_fetch_chunks (chunks : list (list value)) :
  forall acc,
    Traffic.at_most W (List.length chunks) (fetch_chunks W eutilsClient chunks acc).
Proof.
  induction chunks as [|chunk rest IH]; intro acc; cbn [fetch_chunks List.length].
  - apply at_most_ret.
  - apply at_most_bind1; [apply at_most_await | intro a; apply IH].
Qed.

(** The recurring steps of a proof that bounds the calls of a handler. *)
Ltac bound :=
  solve
    [ apply at_most_ret
    | apply at_most_throw
    | apply at_most_lift
    | apply at_most_read
    | apply at_most_destructure
    | apply at_most_await
    | apply at_most_bind0; [bound | intro; bound]
    | apply at_most_bind1; [bound | intro; bound]
    | apply at_most_bind_last; [bound | intro; bound]
    | apply at_most_try_catch; [bound | intro; bound]
    | match goal with
      | |- Traffic.at_most _ _ (if ?b then _ else _) => destruct b; bound
      | |- Traffic.at_most _ _ (match ?x with _ => _ end) => destruct x; bound
      end ].

Lemma first_invalid_none (items : list value) :
  (forall p, In p items -> isValidPMID (Js.ToString p) = true) ->
  first_invalid items = None.
Proof.
  intro H. unfold first_invalid.
  destruct (List.find _ items) as [q|] eqn:E; [|reflexivity].
  apply List.find_some in E as [Hin Hq]. rewrite (H q Hin) in Hq. discriminate.
Qed.

Lemma chunks_of_200 (items : list value) :
  (List.length items <= 200)%nat ->
  (List.length (chunkArray items 50) <= 4)%nat.
Proof.
  intro H. unfold chunkArray.
  rewrite ChunkFacts.chunks_from_count by lia.
  apply Nat.lt_succ_r. apply Nat.Div0.div_lt_upper_bound. lia.
Qed.

Lemma at_most_handleBatchArticleLookup (args : value) :
  Traffic.at_most W 4 (handleBatchArticleLookup W JSON_stringify eutilsClient args).
Proof.
  unfold handleBatchArticleLookup.
  apply at_most_bind0; [apply at_most_destructure | intros _].
  destruct (arg args "pmids") as [| | | | |items|]; try apply at_most_throw.
  destruct items as [|p0 rest]; [apply at_most_throw|].
  destruct (200 <? List.length (p0 :: rest))%nat eqn:Elen; [apply at_most_throw|].
  destruct (first_invalid (p0 :: rest)); [apply at_most_throw|].
  apply Nat.ltb_ge in Elen. apply chunks_of_200 in Elen.
  intros st res st' H.
  destruct (at_most_bind (List.length (chunkArray (p0 :: rest) 50)) 0 _ _
              (at_most_fetch_chunks _ [])
              (fun a => at_most_ret 0 _) st res st' H) as (new & X & L).
  exists new. split; [exact X | lia].
Qed.

(** Every tool but the batch lookup makes at most two client calls. *)
Lemma at_most_two (name : string) (h : value -> M W tool_result) (args : value) :
  In (name, h)
     (tool_handlers W JSON_stringify trending_window eutilsClient pmcClient) ->
  name <> "batch_article_lookup" ->
  Traffic.at_most W 2 (h args).
Proof.
  intros Hin Hname. simpl in Hin.
  repeat (destruct Hin as [[= <- <-] | Hin]); try contradiction;
    try (exfalso; apply Hname; reflexivity);
    cbv [handleSearchArticles handleAdvancedSearch handleSearchByAuthor
         handleSearchByJournal handleSearchByMeshTerms handleGetTrendingArticles
         handleGetArticleDetails handleGetAbstract handleGetFullText
         handleGetCitedBy handleGetReferences handleGetSimilarArticles
         handleExportCitation handleValidatePMID handleConvertIdentifiers
         eutils_search push_field push_group require_pmid article_details
         convert_by_search];
    bound.
Qed.

(** The calls of [fetch_chunks] are the requests of the chunks, in
    order, up to the first that fails. *)
Lemma fetch_chunks_requests (chunks : list (list value)) :
  forall acc st res st',
    fetch_chunks W eutilsClient chunks acc st = (res, st') ->
    exists new rest,
      extends W st st' new
      /\ List.map (fun chunk => Request "eutilsClient.getArticlesBatch" [VArr chunk])
           chunks
         = (List.map fst new ++ rest)%list
      /\ ((exists r, res = Normal r) -> rest = [])
      /\ (forall e, res = Abrupt e ->
          exists before req, new = (before ++ [(req, Some e)])%list).
Proof.
  induction chunks as [|chunk more IH]; intros acc st res st' H.
  - injection H as <- <-. exists [], []. repeat split.
    + apply extends_nil.
    + intros e [=].
  - cbn [fetch_chunks] in H. unfold bind, await in H.
    destruct (getArticlesBatch W eutilsClient chunk (remote W st)) as [[arts | e] w'] eqn:E.
    + apply IH in H. destruct H as (new & rest & X & Hmap & Hok & Hfail).
      exists ((Request "eutilsClient.getArticlesBatch" [VArr chunk], None) :: new), rest.
      repeat split.
      * unfold extends in *. rewrite X. cbn [requests].
        rewrite <- List.app_assoc. reflexivity.
      * cbn [List.map fst List.app]. rewrite Hmap. reflexivity.
      * exact Hok.
      * intros e He. destruct (Hfail e He) as (before & req & ->).
        exists ((Request "eutilsClient.getArticlesBatch" [VArr chunk], None) :: before), req.
        reflexivity.
    + injection H as <- <-.
      exists [(Request "eutilsClient.getArticlesBatch" [VArr chunk], Some e)],
             (List.map (fun chunk => Request "eutilsClient.getArticlesBatch" [VArr chunk])
                       more).
      repeat split.
      * intros [r [=]].
      * intros e' [= <-]. exists [], (Request "eutilsClient.getArticlesBatch" [VArr chunk]).
        reflexivity.
Qed.

End Facts.

End TrafficFacts.

(** X20. A tool call makes at most four client calls, and at most two
    unless the tool is [batch_article_lookup]: no tool handler loops over
    upstream requests beyond the chunks of a batch. *)
Theorem tool_call_makes_few_requests
        (W : Type) (JSON_stringify : value -> string)
        (trending_window : W -> value -> string * string)
        (eutilsClient : Server.EUtilsClient W) (pmcClient : Server.PMCClient W)
        (name : string) (h : value -> Server.M W Server.tool_result)
        (args : value) :
  In (name, h)
     (Server.tool_handlers W JSON_stringify trending_window eutilsClient pmcClient) ->
  Traffic.at_most W (if String.eqb name "batch_article_lookup" then 4 else 2) (h args).
Proof.
  intro Hin. destruct (String.eqb name "batch_article_lookup") eqn:E.
  - apply String.eqb_eq in E. subst name. simpl in Hin.
    repeat (destruct Hin as [[= <-] | Hin]); try contradiction.
    apply TrafficFacts.at_most_handleBatchArticleLookup.
  - apply String.eqb_neq in E.
    apply (TrafficFacts.at_most_two W JSON_stringify trending_window
             eutilsClient pmcClient name h args Hin E).
Qed.

Lemma tool_call_makes_few_requests_witness :
  Traffic.at_most unit 2
    (Server.handleSearchArticles unit Samples.stringify Samples.offline_eutils
       Samples.valid_pmid).
Proof.
  apply (tool_call_makes_few_requests unit Samples.stringify Samples.today
           Samples.offline_eutils Samples.offline_pmc "search_articles"
           (Server.handleSearchArticles unit Samples.stringify Samples.offline_eutils)
           Samples.valid_pmid).
  simpl. left. reflexivity.
Defined.

(** X21. A batch lookup whose [pmids] pass the checks (a non-empty array
    of at most 200 valid PMIDs) calls [getArticlesBatch] once per chunk
    of 50, in order, at most four times, and stops at the first call that
    fails: what it has requested is a prefix of the chunk requests, the
    whole of them when it ends normally, and when it ends abruptly its
    last call is the one that failed, with the error it raises. *)
Theorem batch_lookup_requests_chunks
        (W : Type) (JSON_stringify : value -> string)
        (eutilsClient : Server.EUtilsClient W)
        (args : value) (items : list value)
        (st st' : Server.session W) (res : completion Server.tool_result) :
  JsOps.is_nullish args = false ->
  Server.arg args "pmids" = VArr items ->
  items <> [] ->
  (List.length items <= 200)%nat ->
  (forall p, In p items -> isValidPMID (Js.ToString p) = true) ->
  Server.handleBatchArticleLookup W JSON_stringify eutilsClient args st = (res, st') ->
  exists new rest,
    Server.extends W st st' new
    /\ Traffic.batch_requests items = (List.map fst new ++ rest)%list
    /\ (List.length (Traffic.batch_requests items) <= 4)%nat
    /\ ((exists r, res = Normal r) -> rest = [])
    /\ (forall e, res = Abrupt e ->
        exists before req, new = (before ++ [(req, Some e)])%list).
Proof.
  intros Hargs Hitems Hne Hlen Hvalid.
  unfold Server.handleBatchArticleLookup, Server.destructure.
  rewrite Hargs, Hitems. unfold Server.bind at 1. unfold Server.ret at 1.
  destruct items as [|p0 rest0]; [congruence|].
  assert (Elen : (200 <? List.length (p0 :: rest0))%nat = false)
    by (apply Nat.ltb_ge; exact Hlen).
  rewrite Elen, (TrafficFacts.first_invalid_none _ Hvalid).
  unfold Server.bind.
  destruct (Server.fetch_chunks W eutilsClient (chunkArray (p0 :: rest0) 50) [] st)
    as [[arts | e] st1] eqn:E; intro H.
  - injection H as <- <-.
    destruct (TrafficFacts.fetch_chunks_requests W eutilsClient _ _ _ _ _ E)
      as (new & rest & X & Hmap & Hok & Hfail).
    exists new, rest. repeat split; try assumption.
    + unfold Traffic.batch_requests. rewrite List.length_map.
      apply TrafficFacts.chunks_of_200. exact Hlen.
    + intros _. apply Hok. eauto.
    + intros e [=].
  - injection H as <- <-.
    destruct (TrafficFacts.fetch_chunks_requests W eutilsClient _ _ _ _ _ E)
      as (new & rest & X & Hmap & Hok & Hfail).
    exists new, rest. repeat split; try assumption.
    + unfold Traffic.batch_requests. rewrite List.length_map.
      apply TrafficFacts.chunks_of_200. exact Hlen.
    + intros [r [=]].
    + intros e0 [= <-]. apply (Hfail e eq_refl).
Qed.

Lemma batch_lookup_requests_chunks_witness :
  exists new rest,
    Server.extends unit (Server.fresh unit tt)
      {| Server.remote := tt;
         Server.requests :=
           [(Server.Request "eutilsClient.getArticlesBatch" [VArr [VStr "1"; VStr "2"]],
             Some (Error "offline"))] |} new
    /\ Traffic.batch_requests [VStr "1"; VStr "2"] = (List.map fst new ++ rest)%list
    /\ (List.length (Traffic.batch_requests [VStr "1"; VStr "2"]) <= 4)%nat
    /\ ((exists r, @Abrupt Server.tool_result (Error "offline") = Normal r) -> rest = [])
    /\ (forall e, @Abrupt Server.tool_result (Error "offline") = Abrupt e ->
        exists before req, new = (before ++ [(req, Some e)])%list).
Proof.
  apply (batch_lookup_requests_chunks unit Samples.stringify Samples.offline_eutils
           MoreSamples.two_pmids [VStr "1"; VStr "2"]).
  - reflexivity.
  - reflexivity.
  - discriminate.
  - simpl. lia.
  - intros p [<- | [<- | []]]; reflexivity.
  - reflexivity.
Defined.

(** ** Checks made before any client call *)

(** X22. Three more checks are made before any client call.
    [get_full_text] given a [pmcid] that fails [isValidPMCID] raises
    [Invalid PMC ID format: <pmcid>]; [advanced_search] given no usable
    field (no truthy [title], [abstract], [author] or [journal], and no
    [mesh_terms] or [publication_types] of positive length) raises
    [At least one search field must be provided]; [convert_identifiers]
    left to detect the type of an identifier that none of the three
    validators accepts raises [Unable to auto-detect identifier type]
    (the detection is outside the [try], so this failure is not turned
    into an answer).  In each case the session is left as it was. *)
Theorem input_checks_before_any_call
        (W : Type) (JSON_stringify : value -> string)
        (eutilsClient : Server.EUtilsClient W) (pmcClient : Server.PMCClient W)
        (args : value) (st : Server.session W) :
  JsOps.is_nullish args = false ->
  (isValidPMCID (Js.ToString (Server.arg args "pmcid")) = false ->
   Server.handleGetFullText W JSON_stringify pmcClient args st
   = (Abrupt (Error ("Invalid PMC ID format: "
                     ++ Js.ToString (Server.arg args "pmcid"))), st))
  /\ (Js.truthy (Server.arg args "title") = false ->
      Js.truthy (Server.arg args "abstract") = false ->
      Js.truthy (Server.arg args "author") = false ->
      Js.truthy (Server.arg args "journal") = false ->
      Js.truthy (Server.arg args "mesh_terms")
      && JsOps.positive (JsOps.member (Server.arg args "mesh_terms") "length")
      = false ->
      Js.truthy (Server.arg args "publication_types")
      && JsOps.positive (JsOps.member (Server.arg args "publication_types") "length")
      = false ->
      Server.handleAdvancedSearch W JSON_stringify eutilsClient args st
      = (Abrupt (Error "At least one search field must be provided"), st))
  /\ (Server.arg_or args "identifier_type" (VStr "auto") = VStr "auto" ->
      isValidPMID (Js.ToString (Server.arg args "identifier")) = false ->
      isValidDOI (Js.ToString (Server.arg args "identifier")) = false ->
      isValidPMCID (Js.ToString (Server.arg args "identifier")) = false ->
      Server.handleConvertIdentifiers W JSON_stringify eutilsClient args st
      = (Abrupt (Error "Unable to auto-detect identifier type"), st)).
Proof.
  intro Hargs. split; [|split].
  - intro Hv.
    cbv [Server.handleGetFullText Server.destructure Server.bind Server.throw
         Server.ret].
    rewrite Hargs, Hv. reflexivity.
  - intros Ht Ha Hau Hj Hm Hp.
    cbv [Server.handleAdvancedSearch Server.destructure Server.push_field
         Server.push_group Server.bind Server.throw Server.ret].
    rewrite Hargs, Ht, Ha, Hau, Hj, Hm, Hp. reflexivity.
  - intros Hauto Hp Hd Hc.
    cbv [Server.handleConvertIdentifiers Server.destructure Server.detect_type
         Server.bind Server.throw Server.ret Server.lift].
    rewrite Hargs, Hauto, Hp, Hd, Hc. reflexivity.
Qed.

Lemma input_checks_before_any_call_witness :
  Server.handleGetFullText unit Samples.stringify Samples.offline_pmc
    MoreSamples.bad_pmcid (Server.fresh unit tt)
  = (Abrupt (Error ("Invalid PMC ID format: "
                    ++ Js.ToString (Server.arg MoreSamples.bad_pmcid "pmcid"))),
     Server.fresh unit tt)
  /\ Server.handleAdvancedSearch unit Samples.stringify Samples.offline_eutils
       MoreSamples.no_field (Server.fresh unit tt)
     = (Abrupt (Error "At least one search field must be provided"),
        Server.fresh unit tt)
  /\ Server.handleConvertIdentifiers unit Samples.stringify Samples.offline_eutils
       MoreSamples.odd_identifier (Server.fresh unit tt)
     = (Abrupt (Error "Unable to auto-detect identifier type"), Server.fresh unit tt).
Proof.
  split; [|split].
  - apply (proj1 (input_checks_before_any_call unit Samples.stringify
                    Samples.offline_eutils Samples.offline_pmc
                    MoreSamples.bad_pmcid (Server.fresh unit tt) eq_refl)).
    reflexivity.
  - apply (proj1 (proj2 (input_checks_before_any_call unit Samples.stringify
                           Samples.offline_eutils Samples.offline_pmc
                           MoreSamples.no_field (Server.fresh unit tt) eq_refl)));
      reflexivity.
  - apply (proj2 (proj2 (input_checks_before_any_call unit Samples.stringify
                           Samples.offline_eutils Samples.offline_pmc
                           MoreSamples.odd_identifier (Server.fresh unit tt) eq_refl)));
      reflexivity.
Defined.

(** ** The request handlers *)

Module McpFacts.

Lemma find_absent {A : Type} (name : string) (entries : list (string * A)) :
  ~ In name (List.map fst entries) ->
  List.find (fun entry => String.eqb (fst entry) name) entries = None.
Proof.
  induction entries as [|[k v] rest IH]; intro H; [reflexivity|].
  cbn [List.find fst]. destruct (String.eqb k name) eqn:E.
  - apply String.eqb_eq in E. exfalso. apply H. left. exact E.
  - apply IH. intro Hin. apply H. right. exact Hin.
Qed.

Lemma replace_first_prefix (prefix rest : string) :
  prefix <> "" ->
  PMC.replace_first prefix "" (prefix ++ rest) = rest.
Proof.
  intro Hne. destruct prefix as [|c p]; [congruence|].
  assert (Hs : forall q r, startsWith (q ++ r) q = true).
  { induction q as [|x q IH]; intro r; [destruct r; reflexivity|].
    cbn [append startsWith]. rewrite Ascii.eqb_refl. apply IH. }
  assert (Hk : forall q r, PMC.skip (String.length q) (q ++ r) = r).
  { induction q as [|x q IH]; intro r; [reflexivity|]. cbn. apply IH. }
  change (String c p ++ rest) with (String c (p ++ rest)).
  cbn [PMC.replace_first].
  change (String c (p ++ rest)) with (String c p ++ rest).
  rewrite Hs, Hk. reflexivity.
Qed.

End McpFacts.

(** X23. Whatever goes wrong in a tool call reaches the caller as an
    [McpError] with code [InternalError].  That holds for an unknown tool
    name: its [MethodNotFound] error is caught by the handler's own
    [catch], only its message is kept, inside the text of the
    [InternalError], and no client call is made.  And a malformed [pmid]
    given to one of the six tools that check it comes back as
    [Tool execution failed: Invalid PMID format: <pmid>], the session
    left as it was. *)
Theorem call_tool_raises_internal_error
        (W : Type) (JSON_stringify : value -> string)
        (trending_window : W -> value -> string * string)
        (eutilsClient : Server.EUtilsClient W) (pmcClient : Server.PMCClient W)
        (mcp_message : Mcp.ErrorCode -> string -> string)
        (name : string) (args : value) (st : Server.session W) :
  (forall err st',
      Mcp.call_tool W JSON_stringify trending_window eutilsClient pmcClient
        mcp_message name args st = (Mcp.Raised err, st') ->
      Mcp.code err = Mcp.InternalError)
  /\ (~ In name
        (List.map fst
           (Server.tool_handlers W JSON_stringify trending_window
              eutilsClient pmcClient)) ->
      Mcp.call_tool W JSON_stringify trending_window eutilsClient pmcClient
        mcp_message name args st
      = (Mcp.Raised
           {| Mcp.code := Mcp.InternalError;
              Mcp.reason :=
                "Tool execution failed: "
                ++ mcp_message Mcp.MethodNotFound ("Unknown tool: " ++ name) |},
         st))
  /\ (In name ["get_article_details"; "get_abstract"; "get_cited_by";
               "get_references"; "get_similar_articles"; "export_citation"] ->
      JsOps.is_nullish args = false ->
      isValidPMID (Js.ToString (Server.arg args "pmid")) = false ->
      Mcp.call_tool W JSON_stringify trending_window eutilsClient pmcClient
        mcp_message name args st
      = (Mcp.Raised
           {| Mcp.code := Mcp.InternalError;
              Mcp.reason := "Tool execution failed: Invalid PMID format: "
                            ++ Js.ToString (Server.arg args "pmid") |},
         st)).
Proof.
  split; [|split].
  - intros err st'. unfold Mcp.call_tool.
    destruct (Mcp.dispatch _ _ _ _ _ _ _ _ _) as [[result | error] st1];
      intros [= <- <-]. reflexivity.
  - intro Hname. unfold Mcp.call_tool, Mcp.dispatch, Mcp.handler_of.
    rewrite (McpFacts.find_absent name _ Hname). reflexivity.
  - intros Hname Hargs Hpmid. simpl in Hname.
    repeat (destruct Hname as [<- | Hname]); try contradiction;
      unfold Mcp.call_tool, Mcp.dispatch, Mcp.handler_of;
      cbn [List.find Server.tool_handlers fst snd String.eqb Ascii.eqb Bool.eqb
           option_map];
      cbv [Server.handleGetArticleDetails Server.handleGetAbstract
           Server.handleGetCitedBy Server.handleGetReferences
           Server.handleGetSimilarArticles Server.handleExportCitation
           Server.destructure Server.require_pmid Server.bind
           Server.throw Server.ret Server.invalid_pmid];
      rewrite Hargs, Hpmid; reflexivity.
Qed.

Lemma call_tool_raises_internal_error_witness :
  Mcp.call_tool unit Samples.stringify Samples.today Samples.offline_eutils
    Samples.offline_pmc MoreSamples.sdk_message "summarize"
    Samples.valid_pmid (Server.fresh unit tt)
  = (Mcp.Raised
       {| Mcp.code := Mcp.InternalError;
          Mcp.reason :=
            "Tool execution failed: "
            ++ MoreSamples.sdk_message Mcp.MethodNotFound
                 ("Unknown tool: " ++ "summarize") |},
     Server.fresh unit tt)
  /\ Mcp.call_tool unit Samples.stringify Samples.today Samples.offline_eutils
       Samples.offline_pmc MoreSamples.sdk_message "get_abstract"
       Samples.malformed_pmid (Server.fresh unit tt)
     = (Mcp.Raised
          {| Mcp.code := Mcp.InternalError;
             Mcp.reason := "Tool execution failed: Invalid PMID format: "
                           ++ Js.ToString (Server.arg Samples.malformed_pmid "pmid") |},
        Server.fresh unit tt).
Proof.
  split.
  - apply (proj1 (proj2 (call_tool_raises_internal_error unit Samples.stringify
                           Samples.today Samples.offline_eutils Samples.offline_pmc
                           MoreSamples.sdk_message "summarize" Samples.valid_pmid
                           (Server.fresh unit tt)))).
    simpl. intuition discriminate.
  - apply (proj2 (proj2 (call_tool_raises_internal_error unit Samples.stringify
                           Samples.today Samples.offline_eutils Samples.offline_pmc
                           MoreSamples.sdk_message "get_abstract"
                           Samples.malformed_pmid (Server.fresh unit tt)))).
    + simpl. right. left. reflexivity.
    + reflexivity.
    + reflexivity.
Defined.

(** X24. Reading the resource [pubmed://article/<id>] calls
    [getArticleDetails] with [<id>] whatever it is: unlike the tools, the
    resource handler makes no [isValidPMID] check; what the client raises
    comes back as an [InternalError] whose text is
    [Failed to read resource: ] followed by the extracted message.  A URI
    of none of the three kinds comes back as an [InternalError] too, its
    [InvalidRequest] error being caught by the handler's own [catch]. *)
Theorem read_resource_article_unchecked
        (W : Type) (JSON_stringify : value -> string)
        (eutilsClient : Server.EUtilsClient W) (pmcClient : Server.PMCClient W)
        (mcp_message : Mcp.ErrorCode -> string -> string)
        (decodeURIComponent : string -> completion string)
        (id uri : string) (st : Server.session W) :
  (Mcp.read_resource W JSON_stringify eutilsClient pmcClient mcp_message
     decodeURIComponent ("pubmed://article/" ++ id) st
   = match Server.getArticleDetails W eutilsClient (VStr id) (Server.remote W st) with
     | (r, w') =>
         (match r with
          | Normal article =>
              Mcp.Returned
                (Mcp.json_content JSON_stringify ("pubmed://article/" ++ id)
                   (Server.article_value article))
          | Abrupt error =>
              Mcp.Raised
                {| Mcp.code := Mcp.InternalError;
                   Mcp.reason := "Failed to read resource: "
                                 ++ extractErrorMessage error |}
          end,
          {| Server.remote := w';
             Server.requests :=
               (Server.requests W st
                ++ [(Server.Request "eutilsClient.getArticleDetails" [VStr id],
                     Server.failure r)])%list |})
     end)
  /\ (startsWith uri "pubmed://article/" = false ->
      startsWith uri "pubmed://fulltext/" = false ->
      startsWith uri "pubmed://search/" = false ->
      Mcp.read_resource W JSON_stringify eutilsClient pmcClient mcp_message
        decodeURIComponent uri st
      = (Mcp.Raised
           {| Mcp.code := Mcp.InternalError;
              Mcp.reason :=
                "Failed to read resource: "
                ++ mcp_message Mcp.InvalidRequest ("Unknown resource URI: " ++ uri) |},
         st)).
Proof.
  split.
  - unfold Mcp.read_resource, Mcp.read.
    change (startsWith ("pubmed://article/" ++ id) "pubmed://article/") with true.
    cbv iota zeta.
    rewrite (McpFacts.replace_first_prefix "pubmed://article/" id) by discriminate.
    unfold Server.bind, Server.await, Server.ret.
    destruct (Server.getArticleDetails W eutilsClient (VStr id) (Server.remote W st))
      as [[article | error] w']; reflexivity.
  - intros Ha Hf Hs. unfold Mcp.read_resource, Mcp.read.
    rewrite Ha, Hf, Hs. reflexivity.
Qed.

Lemma read_resource_article_unchecked_witness :
  Mcp.read_resource unit Samples.stringify Samples.offline_eutils
    Samples.offline_pmc MoreSamples.sdk_message (fun s => Normal s)
    "pubmed://author/Doe" (Server.fresh unit tt)
  = (Mcp.Raised
       {| Mcp.code := Mcp.InternalError;
          Mcp.reason :=
            "Failed to read resource: "
            ++ MoreSamples.sdk_message Mcp.InvalidRequest
                 ("Unknown resource URI: " ++ "pubmed://author/Doe") |},
     Server.fresh unit tt).
Proof.
  apply (proj2 (read_resource_article_unchecked unit Samples.stringify
                  Samples.offline_eutils Samples.offline_pmc
                  MoreSamples.sdk_message (fun s => Normal s)
                  "x" "pubmed://author/Doe" (Server.fresh unit tt)));
    reflexivity.
Defined.

(** ** Link results *)

Module LinkFacts.

(** The decimal rendering of an integer is empty or begins with a digit
    or a minus sign. *)
Lemma of_Z_head (i : Z) :
  match of_Z i with
  | EmptyString => True
  | String c _ => is_digit c = true \/ c = "-"%char
  end.
Proof.
  unfold of_Z. destruct (Z.to_int i) as [d | d]; simpl.
  - destruct d; simpl; auto.
  - right. reflexivity.
Qed.

(** An array has no member under a name that begins with a capital
    letter. *)
Lemma nth_by_key_name (c : ascii) (k : string) (items : list value) :
  is_upper c = true ->
  forall i, JsOps.nth_by_key (String c k) i items = VUndefined.
Proof.
  intro Hc. induction items as [|x rest IH]; intro i; [reflexivity|].
  cbn [JsOps.nth_by_key].
  destruct (String.eqb (String c k) (of_Z i)) eqn:E; [|apply IH].
  apply String.eqb_eq in E. pose proof (of_Z_head i) as H. rewrite <- E in H.
  destruct H as [H | H].
  - destruct c as [[] [] [] [] [] [] [] []]; vm_compute in Hc, H; discriminate.
  - subst c. vm_compute in Hc. discriminate.
Qed.

Lemma slice0_Forall2 {A B : Type} (R : A -> B -> Prop) (l : list A) (m : list B)
      (e : value) :
  List.Forall2 R l m -> List.Forall2 R (JsOps.slice0 l e) (JsOps.slice0 m e).
Proof.
  intro H. pose proof (List.Forall2_length H) as Hlen.
  assert (G : forall n, List.Forall2 R (List.firstn n l) (List.firstn n m)).
  { clear Hlen. induction H as [|x y l m Hxy H IH]; intro n.
    - rewrite !List.firstn_nil. constructor.
    - destruct n; [constructor|]. cbn [List.firstn]. constructor; auto. }
  unfold JsOps.slice0. destruct e; try exact H; rewrite Hlen; apply G.
Qed.

(** [slice(0, n)] keeps the first [n] elements. *)
Lemma slice0_count {A : Type} (l : list A) (n : nat) :
  JsOps.slice0 l (VNum (Z.of_nat n)) = List.firstn n l.
Proof.
  unfold JsOps.slice0, JsOps.ToNumber.
  assert (E : (Z.of_nat n <? 0)%Z = false) by (apply Z.ltb_ge; lia).
  rewrite E.
  destruct (Nat.le_gt_cases n (List.length l)) as [Hle | Hgt].
  - rewrite Z.min_l by lia. rewrite Nat2Z.id. reflexivity.
  - rewrite Z.min_r by lia. rewrite Nat2Z.id.
    rewrite List.firstn_all. symmetry. apply List.firstn_all2. lia.
Qed.

(** The identifiers of link elements that carry them. *)
Lemma ids_carried (links : list value) (ids : list string) :
  List.Forall2 Links.carries links ids ->
  Js.map_throwing
    (fun link =>
       match JsOps.get link "Id" with
       | Abrupt e => Abrupt e
       | Normal id => extractText id
       end) links
  = Normal (List.map VStr ids).
Proof.
  induction 1 as [|link id links ids [Hn Hid] H IH]; [reflexivity|].
  cbn [Js.map_throwing List.map] in *. unfold JsOps.get at 1. rewrite Hn, Hid.
  cbn [extractText]. rewrite IH. reflexivity.
Qed.

(** Down to the links of an answer of the expected shape. *)
Lemma ids_of_at_path (result links : value) (slice : list value -> list value) :
  Links.at_path result links ->
  Js.truthy links = true ->
  Links.ids_of result slice
  = Js.map_throwing
      (fun link =>
         match JsOps.get link "Id" with
         | Abrupt e => Abrupt e
         | Normal id => extractText id
         end)
      (slice match links with VArr items => items | _ => [links] end).
Proof.
  intros (e & s & d & Hn & He & Hs & Hd & Hl) Ht.
  unfold Links.ids_of, JsOps.get at 1. rewrite Hn, He.
  cbn [JsOps.opt_get JsOps.is_nullish JsOps.member]. rewrite Hs.
  cbn [Js.truthy negb JsOps.member]. rewrite Hd.
  cbn [Js.truthy negb JsOps.member]. rewrite Hl, Ht. reflexivity.
Qed.

Lemma none_found_intro (result : value) :
  (forall slice, Links.ids_of result slice = Normal []) ->
  Links.none_found result.
Proof.
  intro H. unfold Links.none_found, Links.getCitedBy, Links.getReferences,
             Links.getSimilarArticles.
  repeat split; intros; apply H.
Qed.

End LinkFacts.

(** X25. When the parsed answer has an array of link elements under
    [eLinkResult.LinkSet.LinkSetDb.Link], each carrying its identifier as
    a string, [getCitedBy] and [getReferences] return all the
    identifiers, in order; [getSimilarArticles] returns the first [n] of
    them when [maxResults] is [n], and the first 20 when [maxResults] is
    left out; a lone link element that is not in an array gives its one
    identifier. *)
Theorem link_methods_return_ids
        (result : value) (links : list value) (ids : list string)
        (n : nat) (lone : value) (id : string) :
  (Links.at_path result (VArr links) ->
   List.Forall2 Links.carries links ids ->
   Links.getCitedBy result = Normal (List.map VStr ids)
   /\ Links.getReferences result = Normal (List.map VStr ids)
   /\ Links.getSimilarArticles result (VNum (Z.of_nat n))
      = Normal (List.map VStr (List.firstn n ids))
   /\ Links.getSimilarArticles result VUndefined
      = Normal (List.map VStr (List.firstn 20 ids)))
  /\ (Links.at_path result lone ->
      (forall items, lone <> VArr items) ->
      Links.carries lone id ->
      Links.getCitedBy result = Normal [VStr id]
      /\ Links.getReferences result = Normal [VStr id]).
Proof.
  split.
  - intros Hp Hc.
    unfold Links.getCitedBy, Links.getReferences, Links.getSimilarArticles.
    rewrite !(LinkFacts.ids_of_at_path result (VArr links)) by (exact Hp || reflexivity).
    repeat split.
    + apply LinkFacts.ids_carried. exact Hc.
    + apply LinkFacts.ids_carried. exact Hc.
    + rewrite <- (LinkFacts.slice0_count ids n).
      apply LinkFacts.ids_carried. apply LinkFacts.slice0_Forall2. exact Hc.
    + rewrite <- (LinkFacts.slice0_count ids 20).
      apply LinkFacts.ids_carried. apply LinkFacts.slice0_Forall2. exact Hc.
  - intros Hp Hlone Hc.
    assert (Ht : Js.truthy lone = true).
    { destruct Hc as [Hn Hid].
      destruct lone as [| | b | m | [|c t] | items | ms];
        try reflexivity; try discriminate Hn; discriminate Hid. }
    unfold Links.getCitedBy, Links.getReferences.
    rewrite !(LinkFacts.ids_of_at_path result lone) by assumption.
    assert (E : match lone with VArr items => items | _ => [lone] end = [lone]).
    { destruct lone; try reflexivity. exfalso. apply (Hlone l). reflexivity. }
    rewrite E.
    pose proof (LinkFacts.ids_carried [lone] [id]
                  (List.Forall2_cons _ _ Hc (List.Forall2_nil _))) as H.
    split; exact H.
Qed.

Lemma link_methods_return_ids_witness :
  Links.getCitedBy
    (MoreSamples.link_answer (VArr [VObj [("Id", VStr "11")]; VObj [("Id", VStr "12")]]))
  = Normal [VStr "11"; VStr "12"]
  /\ Links.getReferences
       (MoreSamples.link_answer
          (VArr [VObj [("Id", VStr "11")]; VObj [("Id", VStr "12")]]))
     = Normal [VStr "11"; VStr "12"]
  /\ Links.getSimilarArticles
       (MoreSamples.link_answer
          (VArr [VObj [("Id", VStr "11")]; VObj [("Id", VStr "12")]]))
       (VNum 1)
     = Normal [VStr "11"]
  /\ Links.getSimilarArticles
       (MoreSamples.link_answer
          (VArr [VObj [("Id", VStr "11")]; VObj [("Id", VStr "12")]]))
       VUndefined
     = Normal [VStr "11"; VStr "12"].
Proof.
  apply (proj1 (link_methods_return_ids
                  (MoreSamples.link_answer
                     (VArr [VObj [("Id", VStr "11")]; VObj [("Id", VStr "12")]]))
                  [VObj [("Id", VStr "11")]; VObj [("Id", VStr "12")]]
                  ["11"; "12"] 1 VUndefined "")).
  - unfold Links.at_path, MoreSamples.link_answer.
    do 3 eexists. repeat split; reflexivity.
  - repeat constructor.
Defined.

(** X26. The three link methods find identifiers only under
    [result.eLinkResult], and only when [LinkSet] and [LinkSetDb] are
    single objects: for an answer without an [eLinkResult] member (as a
    document parsed without its root element is), and for one whose
    [LinkSet] or [LinkSetDb] is an array (several sets), they return the
    empty list without raising anything. *)
Theorem link_methods_find_nothing
        (members e s : list (string * value)) (sets : list value) :
  (Js.lookup "eLinkResult" members = None ->
   Links.none_found (VObj members))
  /\ (Js.lookup "eLinkResult" members = Some (VObj e) ->
      Js.lookup "LinkSet" e = Some (VArr sets) ->
      Links.none_found (VObj members))
  /\ (Js.lookup "eLinkResult" members = Some (VObj e) ->
      Js.lookup "LinkSet" e = Some (VObj s) ->
      Js.lookup "LinkSetDb" s = Some (VArr sets) ->
      Links.none_found (VObj members)).
Proof.
  split; [|split].
  - intro H. apply LinkFacts.none_found_intro. intro slice.
    unfold Links.ids_of, JsOps.get. cbn [JsOps.is_nullish JsOps.member].
    rewrite H. reflexivity.
  - intros He Hs. apply LinkFacts.none_found_intro. intro slice.
    unfold Links.ids_of, JsOps.get. cbn [JsOps.is_nullish JsOps.member].
    rewrite He. cbn [JsOps.opt_get JsOps.is_nullish JsOps.member]. rewrite Hs.
    cbn [Js.truthy negb JsOps.member].
    change (String.eqb "LinkSetDb" "length") with false. cbv iota.
    rewrite (LinkFacts.nth_by_key_name "L" "inkSetDb" sets eq_refl 0).
    reflexivity.
  - intros He Hs Hd. apply LinkFacts.none_found_intro. intro slice.
    unfold Links.ids_of, JsOps.get. cbn [JsOps.is_nullish JsOps.member].
    rewrite He. cbn [JsOps.opt_get JsOps.is_nullish JsOps.member]. rewrite Hs.
    cbn [Js.truthy negb JsOps.member]. rewrite Hd.
    cbn [Js.truthy negb JsOps.member].
    change (String.eqb "Link" "length") with false. cbv iota.
    rewrite (LinkFacts.nth_by_key_name "L" "ink" sets eq_refl 0).
    reflexivity.
Qed.

Lemma link_methods_find_nothing_witness :
  Links.none_found
    (VObj [("LinkSet", VObj [("LinkSetDb", VObj [("Link", VObj [("Id", VStr "11")])])])]).
Proof.
  apply (proj1 (link_methods_find_nothing
                  [("LinkSet",
                    VObj [("LinkSetDb", VObj [("Link", VObj [("Id", VStr "11")])])])]
                  [] [] [])).
  reflexivity.
Defined.

(** ** Body text *)

Module BodyFacts.
Import Body.

Lemma section_induction (P : ArticleSection -> Prop) :
  (forall title content, P (Section_ title content None)) ->
  (forall title content subs,
      List.Forall P subs -> P (Section_ title content (Some subs))) ->
  forall sec, P sec.
Proof.
  intros Hnone Hsome.
  fix IH 1. intros [title content [subs|]]; [|apply Hnone].
  apply Hsome. induction subs as [|sub subs IHsubs]; constructor.
  - apply IH.
  - exact IHsubs.
Qed.

Lemma join_cons (sep x : string) (y : string) (rest : list string) :
  join sep (x :: y :: rest) = x ++ sep ++ join sep (y :: rest).
Proof. reflexivity. Qed.

Lemma join_app (sep : string) (l1 l2 : list string) :
  l1 <> [] -> l2 <> [] ->
  join sep (l1 ++ l2) = join sep l1 ++ sep ++ join sep l2.
Proof.
  intros H1 H2. induction l1 as [|x l1 IH]; [congruence|].
  destruct l1 as [|y l1].
  - destruct l2 as [|z l2]; [congruence|]. reflexivity.
  - change ((x :: y :: l1) ++ l2)%list with (x :: y :: (l1 ++ l2))%list.
    rewrite !join_cons.
    change (y :: (l1 ++ l2))%list with ((y :: l1) ++ l2)%list.
    rewrite IH by discriminate.
    rewrite CitationFacts.append_assoc, CitationFacts.append_assoc. reflexivity.
Qed.

Lemma outline_not_nil (sec : ArticleSection) : outline sec <> [].
Proof. destruct sec; discriminate. Qed.

Lemma flat_outline_not_nil (sec : ArticleSection) (rest : list ArticleSection) :
  List.flat_map outline (sec :: rest) <> [].
Proof.
  cbn [List.flat_map]. destruct sec. discriminate.
Qed.

(** The texts of a list of sections, given the text of each. *)
Lemma texts_outline (sections : list ArticleSection) :
  List.Forall
    (fun sec => section_text sec = join blank_line (List.map own_text (outline sec)))
    sections ->
  join blank_line (List.map section_text sections)
  = join blank_line (List.map own_text (List.flat_map outline sections)).
Proof.
  induction 1 as [|sec rest Hsec Hrest IH]; [reflexivity|].
  destruct rest as [|next rest].
  - cbn [List.map List.flat_map join]. rewrite List.app_nil_r. exact Hsec.
  - change (List.map section_text (sec :: next :: rest))
      with (section_text sec :: section_text next :: List.map section_text rest).
    rewrite join_cons.
    change (section_text next :: List.map section_text rest)
      with (List.map section_text (next :: rest)).
    rewrite IH, Hsec.
    change (List.flat_map outline (sec :: next :: rest))
      with (outline sec ++ List.flat_map outline (next :: rest))%list.
    rewrite List.map_app, join_app.
    + reflexivity.
    + intro E. apply List.map_eq_nil in E. exact (outline_not_nil sec E).
    + intro E. apply List.map_eq_nil in E. exact (flat_outline_not_nil next rest E).
Qed.

Lemma section_text_outline (sec : ArticleSection) :
  section_text sec = join blank_line (List.map own_text (outline sec)).
Proof.
  induction sec as [title content | title content subs IH] using section_induction.
  - cbn [section_text outline List.map join]. unfold own_text.
    cbn [Body.title Body.content]. rewrite ValidatorFacts.append_nil_r. reflexivity.
  - destruct subs as [|first more].
    + cbn [section_text outline List.map List.flat_map join]. unfold own_text.
      cbn [Body.title Body.content]. rewrite ValidatorFacts.append_nil_r. reflexivity.
    + cbn [section_text outline]. rewrite (texts_outline _ IH).
      change (List.map own_text
                (Section_ title content (Some (first :: more))
                 :: List.flat_map outline (first :: more)))
        with (own_text (Section_ title content (Some (first :: more)))
              :: List.map own_text (List.flat_map outline (first :: more))).
      destruct (List.map own_text (List.flat_map outline (first :: more)))
        as [|t ts] eqn:E.
      * apply List.map_eq_nil in E. destruct (flat_outline_not_nil first more E).
      * rewrite join_cons. unfold own_text. cbn [Body.title Body.content].
        rewrite !CitationFacts.append_assoc. reflexivity.
Qed.

End BodyFacts.

(** X27. The body text of an article lists its sections in document
    order, every section before its subsections at any depth: each
    contributes its title followed by a blank line, when it has a title,
    and its content, and the contributions are separated by blank
    lines. *)
Theorem extractBodyText_document_order (sections : list Body.ArticleSection) :
  Body.extractBodyText sections
  = join Body.blank_line
      (List.map Body.own_text (List.flat_map Body.outline sections)).
Proof.
  unfold Body.extractBodyText.
  apply BodyFacts.texts_outline.
  apply List.Forall_forall. intros sec _.
  apply BodyFacts.section_text_outline.
Qed.

(** ** Publication dates *)

Module DateFacts.
Import Dates.

Lemma span_app (p : ascii -> bool) (a b : string) :
  all p a = true -> stops p b -> span p (a ++ b) = (a, b).
Proof.
  intros Ha Hb. induction a as [|c a IH].
  - destruct b as [|d b]; [reflexivity|]. simpl in Hb. simpl. rewrite Hb. reflexivity.
  - simpl in Ha. apply andb_true_iff in Ha as [Hc Ha].
    cbn [append span]. rewrite Hc, (IH Ha). reflexivity.
Qed.

Lemma span_split (p : ascii -> bool) (s : string) :
  s = fst (span p s) ++ snd (span p s) /\ all p (fst (span p s)) = true.
Proof.
  induction s as [|c s [IH1 IH2]]; [split; reflexivity|].
  cbn [span]. destruct (p c) eqn:E; cbn [fst snd append all].
  - rewrite E, IH2, <- IH1. split; reflexivity.
  - split; reflexivity.
Qed.

Lemma all_app (p : ascii -> bool) (a b : string) :
  all p (a ++ b) = all p a && all p b.
Proof.
  induction a as [|c a IH]; [reflexivity|].
  cbn [append all]. rewrite IH, andb_assoc. reflexivity.
Qed.

Lemma word_not_space (c : ascii) : is_word c = true -> is_space c = false.
Proof. destruct c as [[] [] [] [] [] [] [] []]; vm_compute; congruence. Qed.

Lemma digit_is_word (c : ascii) : is_digit c = true -> is_word c = true.
Proof. destruct c as [[] [] [] [] [] [] [] []]; vm_compute; congruence. Qed.

Lemma space_not_word (c : ascii) : is_space c = true -> is_word c = false.
Proof. destruct c as [[] [] [] [] [] [] [] []]; vm_compute; congruence. Qed.

Lemma stops_after_gap (a b : string) : gap a -> stops is_word (a ++ b).
Proof.
  intros [Ha Hne]. destruct a as [|c a]; [congruence|].
  simpl in Ha. apply andb_true_iff in Ha as [Hc _].
  simpl. apply space_not_word. exact Hc.
Qed.

Lemma stops_word (a b : string) : word a -> stops is_space (a ++ b).
Proof.
  intros [Ha Hne]. destruct a as [|c a]; [congruence|].
  simpl in Ha. apply andb_true_iff in Ha as [Hc _].
  simpl. apply word_not_space. exact Hc.
Qed.

Lemma stops_digits (a : string) : all is_digit a = true -> stops is_space a.
Proof.
  intro Ha. destruct a as [|c a]; [exact I|].
  simpl in Ha. apply andb_true_iff in Ha as [Hc _].
  simpl. apply word_not_space, digit_is_word. exact Hc.
Qed.

Lemma year_prefix_app (year r : string) :
  four_digits year -> year_prefix (year ++ r) = Some (year, r).
Proof.
  intros [Hd Hl].
  destruct year as [|a [|b [|c [|d [|x year]]]]]; try discriminate Hl.
  simpl in Hd.
  apply andb_true_iff in Hd as [Ha Hd]. apply andb_true_iff in Hd as [Hb Hd].
  apply andb_true_iff in Hd as [Hc Hd]. apply andb_true_iff in Hd as [Hd _].
  cbn [append year_prefix]. rewrite Ha, Hb, Hc, Hd. reflexivity.
Qed.

Lemma year_prefix_split (s year r : string) :
  year_prefix s = Some (year, r) -> s = year ++ r /\ four_digits year.
Proof.
  unfold year_prefix.
  destruct s as [|a [|b [|c [|d s]]]]; try discriminate.
  destruct (is_digit a) eqn:Ha; [|discriminate].
  destruct (is_digit b) eqn:Hb; [|discriminate].
  destruct (is_digit c) eqn:Hc; [|discriminate].
  destruct (is_digit d) eqn:Hd; [|discriminate].
  intros [= <- <-]. split; [reflexivity|]. split; [|reflexivity].
  simpl. rewrite Ha, Hb, Hc, Hd. reflexivity.
Qed.

Lemma spaced_word_app (sp w r : string) :
  gap sp -> word w -> stops is_word r ->
  spaced_word (sp ++ w ++ r) = Some (w, r).
Proof.
  intros Hsp Hw Hr. unfold spaced_word.
  rewrite (span_app is_space sp (w ++ r) (proj1 Hsp) (stops_word w r Hw)).
  cbn [fst snd]. rewrite (span_app is_word w r (proj1 Hw) Hr). cbn [fst snd].
  destruct Hsp as [_ Hsp], Hw as [_ Hw].
  destruct sp; [congruence|]. destruct w; [congruence|]. reflexivity.
Qed.

Lemma spaced_word_split (s w r : string) :
  spaced_word s = Some (w, r) ->
  exists sp, s = sp ++ w ++ r /\ gap sp /\ word w.
Proof.
  unfold spaced_word. intro H.
  destruct (span_split is_space s) as [E1 A1].
  destruct (span_split is_word (snd (span is_space s))) as [E2 A2].
  destruct (is_empty (fst (span is_space s))) eqn:G1; [discriminate|].
  destruct (is_empty (fst (span is_word (snd (span is_space s))))) eqn:G2;
    [discriminate|].
  cbn [orb] in H. injection H as <- <-.
  exists (fst (span is_space s)). split; [|split; split].
  - rewrite <- E2. exact E1.
  - exact A1.
  - apply StringFacts.is_empty_false. exact G1.
  - exact A2.
  - apply StringFacts.is_empty_false. exact G2.
Qed.

Lemma all_plain_word (s : string) : all is_word s = true -> all plain s = true.
Proof.
  induction s as [|c s IH]; [reflexivity|]. simpl. intro H.
  apply andb_true_iff in H as [Hc Hs]. unfold plain at 1. rewrite Hc, (IH Hs).
  reflexivity.
Qed.

Lemma all_plain_space (s : string) : all is_space s = true -> all plain s = true.
Proof.
  induction s as [|c s IH]; [reflexivity|]. simpl. intro H.
  apply andb_true_iff in H as [Hc Hs]. unfold plain at 1. rewrite Hc, (IH Hs).
  rewrite orb_true_r. reflexivity.
Qed.

Lemma all_plain_digits (s : string) : all is_digit s = true -> all plain s = true.
Proof.
  induction s as [|c s IH]; [reflexivity|]. simpl. intro H.
  apply andb_true_iff in H as [Hc Hs]. unfold plain at 1.
  rewrite (digit_is_word c Hc), (IH Hs). reflexivity.
Qed.

Lemma full_date_plain (s year month day : string) :
  full_date s = Some (year, month, day) -> all plain s = true.
Proof.
  unfold full_date.
  destruct (year_prefix s) as [[y r]|] eqn:Ey; [|discriminate].
  destruct (spaced_word r) as [[m r']|] eqn:Em; [|discriminate].
  destruct (span_split is_space r') as [E A].
  destruct (negb (is_empty (fst (span is_space r'))) && all is_digit (snd (span is_space r'))
            && _) eqn:C; [|discriminate].
  intros _. apply andb_true_iff in C as [C _]. apply andb_true_iff in C as [_ Cd].
  apply year_prefix_split in Ey as [-> [Hy _]].
  apply spaced_word_split in Em as (sp & -> & [Hsp _] & [Hm _]).
  rewrite E, !all_app.
  rewrite (all_plain_digits _ Hy), (all_plain_space _ Hsp), (all_plain_word _ Hm),
    (all_plain_space _ A), (all_plain_digits _ Cd).
  reflexivity.
Qed.

Lemma year_month_plain (s year month : string) :
  year_month s = Some (year, month) -> all plain s = true.
Proof.
  unfold year_month.
  destruct (year_prefix s) as [[y r]|] eqn:Ey; [|discriminate].
  destruct (spaced_word r) as [[m [|c r']]|] eqn:Em; try discriminate.
  intros _.
  apply year_prefix_split in Ey as [-> [Hy _]].
  apply spaced_word_split in Em as (sp & -> & [Hsp _] & [Hm _]).
  rewrite !all_app.
  rewrite (all_plain_digits _ Hy), (all_plain_space _ Hsp), (all_plain_word _ Hm).
  reflexivity.
Qed.

Lemma year_only_plain (s year : string) :
  year_only s = Some year -> all plain s = true.
Proof.
  unfold year_only.
  destruct (year_prefix s) as [[y [|c r]]|] eqn:Ey; try discriminate.
  intros _. apply year_prefix_split in Ey as [-> [Hy _]].
  rewrite all_app, (all_plain_digits _ Hy). reflexivity.
Qed.

(** The three patterns on the three well-formed shapes. *)
Lemma full_date_app (year sp1 month sp2 day : string) :
  four_digits year -> gap sp1 -> word month -> gap sp2 -> day_digits day ->
  full_date (year ++ sp1 ++ month ++ sp2 ++ day) = Some (year, month, day).
Proof.
  intros Hy H1 Hm H2 [Hd Hl]. unfold full_date.
  rewrite (year_prefix_app year _ Hy).
  rewrite (spaced_word_app sp1 month (sp2 ++ day) H1 Hm (stops_after_gap sp2 day H2)).
  rewrite (span_app is_space sp2 day (proj1 H2) (stops_digits day Hd)).
  cbn [fst snd]. rewrite Hd.
  destruct H2 as [_ H2]. destruct sp2; [congruence|]. cbn [is_empty negb andb].
  destruct Hl as [-> | ->]; reflexivity.
Qed.

Lemma full_date_short (year sp1 month : string) :
  four_digits year -> gap sp1 -> word month ->
  full_date (year ++ sp1 ++ month) = None
  /\ year_month (year ++ sp1 ++ month) = Some (year, month).
Proof.
  intros Hy H1 Hm. unfold full_date, year_month.
  rewrite (year_prefix_app year _ Hy).
  rewrite <- (ValidatorFacts.append_nil_r month) at 1 2.
  rewrite (spaced_word_app sp1 month "" H1 Hm I).
  split; reflexivity.
Qed.

Lemma full_date_year (year : string) :
  four_digits year ->
  full_date year = None /\ year_month year = None /\ year_only year = Some year.
Proof.
  intro Hy. unfold full_date, year_month, year_only.
  rewrite <- (ValidatorFacts.append_nil_r year) at 1 2 3.
  rewrite (year_prefix_app year "" Hy).
  repeat split.
Qed.

Lemma listed_month (month number : string) :
  In (month, number) monthMap ->
  word month /\ own month monthMap = Some number.
Proof.
  intro H. simpl in H.
  repeat (destruct H as [[= <- <-] | H];
          [split; [split; [reflexivity | discriminate] | reflexivity]|]).
  contradiction.
Qed.

Lemma split_year (year rest : string) :
  four_digits year -> List.hd "" (split "-" (year ++ String "-" rest)) = year.
Proof.
  intros [Hd _].
  rewrite CitationFacts.split_before; [reflexivity|].
  clear rest. induction year as [|c year IH]; [reflexivity|].
  simpl in Hd. apply andb_true_iff in Hd as [Hc Hd].
  simpl. rewrite (IH Hd), orb_false_r.
  destruct c as [[] [] [] [] [] [] [] []]; vm_compute in Hc |- *; congruence.
Qed.

Lemma is_empty_year (year rest : string) :
  four_digits year -> is_empty (year ++ rest) = false.
Proof. intros [_ Hl]. destruct year; [discriminate Hl | reflexivity]. Qed.

Lemma padStart2_day (day : string) :
  day_digits day ->
  padStart2 day = if (String.length day =? 1)%nat then "0" ++ day else day.
Proof.
  intros [_ [Hl | Hl]]; destruct day as [|a [|b [|c day]]]; try discriminate Hl;
    reflexivity.
Qed.

End DateFacts.

(** X28. [parsePubMedDate] turns a date made of a four-digit year, one of
    the twelve English month abbreviations and a day, separated by
    whitespace, into [year-MM-DD], a day of one digit being given a
    leading zero and a day of two digits kept; without the day into
    [year-MM-01]; a year alone into [year-01-01].  The year
    [formatCitation] shows for such a date is that year. *)
Theorem parsePubMedDate_iso
        (inherited : string -> string)
        (year sp1 month sp2 day number : string) :
  Dates.four_digits year -> Dates.gap sp1 -> Dates.gap sp2 ->
  Dates.day_digits day ->
  In (month, number) Dates.monthMap ->
  Dates.parsePubMedDate inherited (year ++ sp1 ++ month ++ sp2 ++ day)
  = year ++ "-" ++ number ++ "-"
    ++ (if (String.length day =? 1)%nat then "0" ++ day else day)
  /\ Dates.parsePubMedDate inherited (year ++ sp1 ++ month)
     = year ++ "-" ++ number ++ "-01"
  /\ Dates.parsePubMedDate inherited year = year ++ "-01-01"
  /\ List.hd ""
       (split "-"
          (Dates.parsePubMedDate inherited (year ++ sp1 ++ month ++ sp2 ++ day)))
     = year.
Proof.
  intros Hy H1 H2 Hd Hin.
  destruct (DateFacts.listed_month month number Hin) as [Hm Hown].
  assert (E1 : Dates.parsePubMedDate inherited (year ++ sp1 ++ month ++ sp2 ++ day)
               = year ++ "-" ++ number ++ "-"
                 ++ (if (String.length day =? 1)%nat then "0" ++ day else day)).
  { unfold Dates.parsePubMedDate, Dates.month_text.
    rewrite (DateFacts.is_empty_year year _ Hy).
    rewrite (DateFacts.full_date_app year sp1 month sp2 day Hy H1 Hm H2 Hd), Hown.
    rewrite (DateFacts.padStart2_day day Hd). reflexivity. }
  split; [exact E1|]. split; [|split].
  - unfold Dates.parsePubMedDate, Dates.month_text.
    rewrite (DateFacts.is_empty_year year _ Hy).
    destruct (DateFacts.full_date_short year sp1 month Hy H1 Hm) as [-> ->].
    rewrite Hown. reflexivity.
  - unfold Dates.parsePubMedDate.
    rewrite <- (ValidatorFacts.append_nil_r year) at 1.
    rewrite (DateFacts.is_empty_year year _ Hy).
    destruct (DateFacts.full_date_year year Hy) as (-> & -> & ->). reflexivity.
  - rewrite E1. apply (DateFacts.split_year year _ Hy).
Qed.

Lemma parsePubMedDate_iso_witness :
  Dates.parsePubMedDate (fun _ => "undefined") "2023 Jan 5" = "2023-01-05"
  /\ Dates.parsePubMedDate (fun _ => "undefined") "2023 Jan" = "2023-01-01"
  /\ Dates.parsePubMedDate (fun _ => "undefined") "2023" = "2023-01-01"
  /\ List.hd "" (split "-" (Dates.parsePubMedDate (fun _ => "undefined") "2023 Jan 5"))
     = "2023".
Proof.
  apply (parsePubMedDate_iso (fun _ => "undefined") "2023" " " "Jan" " " "5" "01").
  - split; reflexivity.
  - split; [reflexivity | discriminate].
  - split; [reflexivity | discriminate].
  - split; [reflexivity | left; reflexivity].
  - simpl. left. reflexivity.
Defined.

(** X29. A month that is no key of the month table is not rejected: the
    date is still rewritten, with whatever the lookup of that name
    renders in the place of the month.  For a month given as a number it
    renders [undefined] (no such name is defined on objects), so
    [2023 07 15] becomes [2023-undefined-15]. *)
Theorem parsePubMedDate_unlisted_month
        (inherited : string -> string)
        (year sp1 month sp2 day : string) :
  Dates.four_digits year -> Dates.gap sp1 -> Dates.gap sp2 ->
  Dates.day_digits day ->
  Dates.word month ->
  Dates.own month Dates.monthMap = None ->
  inherited month = "undefined" ->
  Dates.parsePubMedDate inherited (year ++ sp1 ++ month ++ sp2 ++ day)
  = year ++ "-undefined-" ++ Dates.padStart2 day
  /\ Dates.parsePubMedDate inherited (year ++ sp1 ++ month)
     = year ++ "-undefined-01".
Proof.
  intros Hy H1 H2 Hd Hm Hown Hinh. split.
  - unfold Dates.parsePubMedDate, Dates.month_text.
    rewrite (DateFacts.is_empty_year year _ Hy).
    rewrite (DateFacts.full_date_app year sp1 month sp2 day Hy H1 Hm H2 Hd),
      Hown, Hinh.
    reflexivity.
  - unfold Dates.parsePubMedDate, Dates.month_text.
    rewrite (DateFacts.is_empty_year year _ Hy).
    destruct (DateFacts.full_date_short year sp1 month Hy H1 Hm) as [-> ->].
    rewrite Hown, Hinh. reflexivity.
Qed.

Lemma parsePubMedDate_unlisted_month_witness :
  Dates.parsePubMedDate (fun _ => "undefined") ("2023" ++ " " ++ "07" ++ " " ++ "15")
  = "2023" ++ "-undefined-" ++ Dates.padStart2 "15"
  /\ Dates.parsePubMedDate (fun _ => "undefined") ("2023" ++ " " ++ "07")
     = "2023" ++ "-undefined-01".
Proof.
  apply (parsePubMedDate_unlisted_month (fun _ => "undefined")
           "2023" " " "07" " " "15").
  - split; reflexivity.
  - split; [reflexivity | discriminate].
  - split; [reflexivity | discriminate].
  - split; [reflexivity | right; reflexivity].
  - split; [reflexivity | discriminate].
  - reflexivity.
  - reflexivity.
Defined.

(** X30. A date of ASCII characters that holds a character that is
    neither a word character nor whitespace (a hyphen, a slash, a comma)
    matches none of the three patterns: [parsePubMedDate] returns it as
    it is. *)
Theorem parsePubMedDate_keeps_other
        (inherited : string -> string) (dateStr : string) :
  Spec.ascii_only dateStr = true ->
  all Dates.plain dateStr = false ->
  Dates.parsePubMedDate inherited dateStr = dateStr.
Proof.
  intros _ H. unfold Dates.parsePubMedDate.
  destruct (is_empty dateStr) eqn:E.
  - destruct dateStr; [reflexivity | discriminate E].
  - destruct (Dates.full_date dateStr) as [[[y m] d]|] eqn:E1.
    + apply DateFacts.full_date_plain in E1.
      congruence.
    + destruct (Dates.year_month dateStr) as [[y m]|] eqn:E2.
      * apply DateFacts.year_month_plain in E2.
        congruence.
      * destruct (Dates.year_only dateStr) as [y|] eqn:E3; [|reflexivity].
        apply DateFacts.year_only_plain in E3.
        congruence.
Qed.

Lemma parsePubMedDate_keeps_other_witness :
  Dates.parsePubMedDate (fun _ => "undefined") "2023 Jan-Feb" = "2023 Jan-Feb".
Proof.
  apply (parsePubMedDate_keeps_other (fun _ => "undefined") "2023 Jan-Feb");
    reflexivity.
Defined.
